(** * agent-collab: task scheduler, dispatcher, completion poller and worker

    A shallow embedding of [agent_collab/task_manager.py] (class
    [TaskManager]) and of the request handler of
    [agent_collab/sub_agent.py] (class [SubAgent]), with the properties
    the design document states about them.

    Conventions.
    - A Python [dict] is an insertion-ordered association list
      ([PyDict]): iteration order is first-insertion order and
      re-assigning an existing key keeps its position.
    - Python [int] is [Z]; text is [string] (ASCII); a decoded JSON
      document is a [Json] value.
    - Task objects are shared between [self.tasks], [task_map] and
      [sorted_tasks]; a reference to a task object is its index in
      [self.tasks].
    - Code that can raise returns an explicit outcome; loops whose
      termination is not structural take fuel, and running out of fuel
      is an outcome of its own that the theorems exclude.

    The first part of the file is the model, the second part the
    lemmas and theorems. *)

From Stdlib Require Import String Ascii.
From Stdlib Require Import List ZArith Lia Bool Arith.
From Stdlib Require Import Permutation Sorted Relations.
Import ListNotations.
Local Open Scope string_scope.
Local Open Scope list_scope.
Local Open Scope Z_scope.

(* ================================================================== *)
(** * Part I: the model *)
(* ================================================================== *)

(** ** Python exceptions that the modelled code can meet *)

Inductive Exn : Type :=
| KeyError (k : string)
| IndexError
| AttributeError
| TypeError
| ClientError (msg : string)
| JSONDecodeError
| OSError (msg : string).

(** ** Insertion-ordered dictionaries with string keys *)

Module PyDict.

Definition t (V : Type) : Type := list (string * V).

Definition empty {V : Type} : t V := [].

(** [d.get(k)] *)
Fixpoint get {V : Type} (d : t V) (k : string) : option V :=
  match d with
  | [] => None
  | (k', v) :: d' => if String.eqb k' k then Some v else get d' k
  end.

(** [d[k] = v]: an existing key keeps its place, a new key goes last. *)
Fixpoint set {V : Type} (d : t V) (k : string) (v : V) : t V :=
  match d with
  | [] => [(k, v)]
  | (k', v') :: d' =>
      if String.eqb k' k then (k', v) :: d' else (k', v') :: set d' k v
  end.

(** [k in d] *)
Definition mem {V : Type} (d : t V) (k : string) : bool :=
  match get d k with Some _ => true | None => false end.

(** [list(d)]: the keys in iteration order. *)
Definition keys {V : Type} (d : t V) : list string := map fst d.

End PyDict.

(** ** Decoded JSON documents *)

#[warnings="-register-all"]
Inductive Json : Type :=
| JNull
| JBool (b : bool)
| JNum (z : Z)
| JStr (s : string)
| JArr (items : list Json)
| JObj (fields : list (string * Json)).

(** ** Outcomes of code that can raise *)

(** [Stuck] is not a Python outcome: it stands for a run of the model
    that used up its fuel or followed a reference outside [self.tasks]. *)
Inductive Res (A : Type) : Type :=
| Ok (a : A)
| Raise (e : Exn)
| Stuck.

Arguments Ok {A} a.
Arguments Raise {A} e.
Arguments Stuck {A}.

Definition bind {A B : Type} (m : Res A) (k : A -> Res B) : Res B :=
  match m with
  | Ok a => k a
  | Raise e => Raise e
  | Stuck => Stuck
  end.

Notation "x <- m ;; k" := (bind m (fun x => k))
  (at level 61, m at next level, right associativity).
Notation "' pat <- m ;; k" := (bind m (fun x => match x with pat => k end))
  (at level 61, pat pattern, m at next level, right associativity).

(** [d[k]], which raises [KeyError] on a missing key. *)
Definition lookup {V : Type} (d : PyDict.t V) (k : string) : Res V :=
  match PyDict.get d k with
  | Some v => Ok v
  | None => Raise (KeyError k)
  end.

Fixpoint mapM {A B : Type} (f : A -> Res B) (l : list A) : Res (list B) :=
  match l with
  | [] => Ok []
  | x :: l' => y <- f x ;; ys <- mapM f l' ;; Ok (y :: ys)
  end.

(** [j.get(k)] on a decoded document: [AttributeError] unless [j] is an
    object. *)
Definition json_get (j : Json) (k : string) : Res (option Json) :=
  match j with
  | JObj fields => Ok (PyDict.get fields k)
  | _ => Raise AttributeError
  end.

(** [j.get(k, d)] *)
Definition json_get_default (j : Json) (k : string) (d : Json) : Res Json :=
  o <- json_get j k ;;
  Ok (match o with Some v => v | None => d end).

(** [v == s] for an optional document [v] and a text [s]. *)
Definition json_is_str (v : option Json) (s : string) : bool :=
  match v with
  | Some (JStr s') => String.eqb s' s
  | _ => false
  end.

(** Truth value of a document ([None] for a missing one). *)
Definition truthy (v : option Json) : bool :=
  match v with
  | None | Some JNull => false
  | Some (JBool b) => b
  | Some (JNum z) => negb (z =? 0)
  | Some (JStr s) => negb (String.eqb s "")
  | Some (JArr items) => match items with [] => false | _ => true end
  | Some (JObj fields) => match fields with [] => false | _ => true end
  end.

(** [for x in j]: the elements of an array, the keys of an object, the
    characters of a text; anything else is not iterable. *)
Definition json_iter (j : Json) : Res (list Json) :=
  match j with
  | JArr items => Ok items
  | JObj fields => Ok (map (fun kv => JStr (fst kv)) fields)
  | JStr s => Ok (map (fun c => JStr (String c EmptyString)) (list_ascii_of_string s))
  | _ => Raise TypeError
  end.

(** ** Stable sort by key, as [list.sort(key=...)] on the decorated list *)

Fixpoint insert_by_key {A : Type} (x : Z * A) (l : list (Z * A)) : list (Z * A) :=
  match l with
  | [] => [x]
  | y :: l' => if fst x <=? fst y then x :: l else y :: insert_by_key x l'
  end.

Fixpoint sort_by_key {A : Type} (l : list (Z * A)) : list (Z * A) :=
  match l with
  | [] => []
  | x :: l' => insert_by_key x (sort_by_key l')
  end.

(** ** Data model *)

(** Tracked status of a task (the string constants of the source). *)
Inductive Status : Type :=
| not_started | assigned | in_progress | completed | failed.

Definition Status_eqb (a b : Status) : bool :=
  match a, b with
  | not_started, not_started | assigned, assigned | in_progress, in_progress
  | completed, completed | failed, failed => true
  | _, _ => false
  end.

(** The task dictionary built by [parse_tasks_markdown]. [result] is
    [JNull] for Python's [None]. *)
Module Task.

Record t : Type := mk {
  id : string;
  title : string;
  description : string;
  agent : string;
  priority : Z;
  dependencies : list string;
  status : Status;
  result : Json
}.

(** [task["result"] = r] *)
Definition set_result (r : Json) (x : t) : t :=
  mk (id x) (title x) (description x) (agent x) (priority x)
     (dependencies x) (status x) r.

End Task.

(** An entry of [self.task_status]. [start_time] and [completion_time]
    are only ever [None] in the source and are left out. *)
Module Tracking.

Record t : Type := mk {
  status : Status;
  assigned_agent : string
}.

Definition set_status (s : Status) (x : t) : t := mk s (assigned_agent x).

End Tracking.

(** The payload [task_data] posted to a worker. *)
Module TaskData.

Record t : Type := mk {
  id : string;
  title : string;
  description : string;
  type : string;
  priority : Z
}.

End TaskData.

(** Following a reference to a task object. *)
Definition deref (tasks : list Task.t) (r : nat) : Res Task.t :=
  match nth_error tasks r with
  | Some t => Ok t
  | None => Stuck
  end.

(** ** The fragment of Python's [re] that the task-list parser uses *)

Module Regex.

(** The character classes [\s], [\d] and [\w] of a [str] pattern, on
    characters below 128: [\s] is what [str.isspace] accepts there (9 to
    13 and 28 to 32), [\d] the digits 0 to 9, [\w] letters, digits and
    the underscore. Python's classes also hold characters above 127
    (the no-break space, accented letters, other decimal digits); these
    are outside the model, and what depends on the classes is stated
    for text below 128. *)
Definition is_space (c : ascii) : bool :=
  let n := nat_of_ascii c in
  ((9 <=? n) && (n <=? 13) || (28 <=? n) && (n <=? 32))%nat.

Definition is_digit (c : ascii) : bool :=
  let n := nat_of_ascii c in ((48 <=? n) && (n <=? 57))%nat.

Definition is_word (c : ascii) : bool :=
  let n := nat_of_ascii c in
  ((48 <=? n) && (n <=? 57) || (65 <=? n) && (n <=? 90)
   || (97 <=? n) && (n <=? 122) || (n =? 95))%nat.

(** [[^...]]: any character not in the given text. *)
Definition none_of (s : string) (c : ascii) : bool :=
  negb (existsb (Ascii.eqb c) (list_ascii_of_string s)).

(** A pattern is a sequence of items: literal text, a greedy [c*], and a
    capturing group around a greedy [c+]. *)
Inductive Item : Type :=
| Lit (s : string)
| Many (c : ascii -> bool)
| Capture (c : ascii -> bool).

Definition t : Type := list Item.

Fixpoint strip_prefix (p input : list ascii) : option (list ascii) :=
  match p, input with
  | [], _ => Some input
  | a :: p', b :: input' => if Ascii.eqb a b then strip_prefix p' input' else None
  | _ :: _, [] => None
  end.

(** Greedy repetition with backtracking: take as many characters of the
    class as possible, then give characters back one at a time until the
    continuation [k] matches. The result carries the text consumed. *)
Fixpoint rep {R : Type} (c : ascii -> bool) (k : list ascii -> option R)
  (input : list ascii) : option (list ascii * R) :=
  let stop := option_map (fun r => ([], r)) (k input) in
  match input with
  | a :: input' =>
      if c a then
        match rep c k input' with
        | Some (cs, r) => Some (a :: cs, r)
        | None => stop
        end
      else stop
  | [] => stop
  end.

(** The same, for one or more characters. *)
Definition rep1 {R : Type} (c : ascii -> bool) (k : list ascii -> option R)
  (input : list ascii) : option (list ascii * R) :=
  match input with
  | a :: input' =>
      if c a then
        match rep c k input' with
        | Some (cs, r) => Some (a :: cs, r)
        | None => None
        end
      else None
  | [] => None
  end.

(** Match at the start of the input: the groups and the rest of the
    input after the match. *)
Fixpoint match_here (re : t) (input : list ascii)
  : option (list string * list ascii) :=
  match re with
  | [] => Some ([], input)
  | Lit s :: re' =>
      match strip_prefix (list_ascii_of_string s) input with
      | Some rest => match_here re' rest
      | None => None
      end
  | Many c :: re' =>
      option_map snd (rep c (match_here re') input)
  | Capture c :: re' =>
      match rep1 c (match_here re') input with
      | Some (cs, (groups, rest)) => Some (string_of_list_ascii cs :: groups, rest)
      | None => None
      end
  end.

(** [re.search]: the leftmost match. *)
Fixpoint search (re : t) (input : list ascii)
  : option (list string * list ascii) :=
  match match_here re input with
  | Some m => Some m
  | None =>
      match input with
      | [] => None
      | _ :: input' => search re input'
      end
  end.

(** [re.finditer]: the successive non-overlapping matches. Every match
    of the patterns used here is non-empty, so the length of the input
    bounds their number. *)
Fixpoint finditer_from (fuel : nat) (re : t) (input : list ascii)
  : list (list string) :=
  match fuel with
  | O => []
  | S fuel' =>
      match search re input with
      | Some (groups, rest) => groups :: finditer_from fuel' re rest
      | None => []
      end
  end.

Definition finditer (re : t) (content : string) : list (list string) :=
  let input := list_ascii_of_string content in
  finditer_from (S (length input)) re input.

(** [m.group(i)], groups counted from 1. *)
Definition group (groups : list string) (i : nat) : string :=
  nth (i - 1) groups "".

End Regex.

(** ** Text helpers *)

Module Str.

Fixpoint lstrip (s : list ascii) : list ascii :=
  match s with
  | c :: s' => if Regex.is_space c then lstrip s' else s
  | [] => []
  end.

(** [s.strip()], with the blanks of [Regex.is_space]: the characters
    below 128 that [str.strip] removes. *)
Definition strip (s : string) : string :=
  string_of_list_ascii (rev (lstrip (rev (lstrip (list_ascii_of_string s))))).

(** [s.split(sep)] for a one-character separator. *)
Fixpoint split_from (sep : ascii) (cur : list ascii) (s : list ascii)
  : list string :=
  match s with
  | [] => [string_of_list_ascii (rev cur)]
  | c :: s' =>
      if Ascii.eqb c sep
      then string_of_list_ascii (rev cur) :: split_from sep [] s'
      else split_from sep (c :: cur) s'
  end.

Definition split (sep : ascii) (s : string) : list string :=
  split_from sep [] (list_ascii_of_string s).

(** [int(s)] for a text of the digits 0 to 9. CPython 3.11 and later
    refuse a text of more than 4300 digits with ValueError unless the
    limit is lifted; the model has no such limit. *)
Definition int_of_digits (s : string) : Z :=
  fold_left (fun acc c => 10 * acc + (Z.of_nat (nat_of_ascii c) - 48))
    (list_ascii_of_string s) 0.

Fixpoint digits_of_nat (fuel n : nat) (acc : list ascii) : list ascii :=
  match fuel with
  | O => acc
  | S fuel' =>
      let d := ascii_of_nat (48 + n mod 10) in
      if (n <? 10)%nat then d :: acc
      else digits_of_nat fuel' (n / 10) (d :: acc)
  end.

(** [str(n)] for a natural number: at most [n + 1] digits. *)
Definition str_of_nat (n : nat) : string :=
  string_of_list_ascii (digits_of_nat (S n) n []).

End Str.

(** ** TaskManager *)

Module TaskManager.

(** *** [parse_tasks_markdown] *)

(** [- \[ \] \*\*([^*]+)\*\* - ([^(]+)\(([^)]+)\)] *)
Definition task_pattern : Regex.t :=
  [ Regex.Lit "- [ ] **"; Regex.Capture (Regex.none_of "*");
    Regex.Lit "** - "; Regex.Capture (Regex.none_of "(");
    Regex.Lit "("; Regex.Capture (Regex.none_of ")"); Regex.Lit ")" ].

(** [Priority:\s*(\d+)] *)
Definition priority_pattern : Regex.t :=
  [ Regex.Lit "Priority:"; Regex.Many Regex.is_space;
    Regex.Capture Regex.is_digit ].

(** [Agent:\s*(\w+)] *)
Definition agent_pattern : Regex.t :=
  [ Regex.Lit "Agent:"; Regex.Many Regex.is_space;
    Regex.Capture Regex.is_word ].

(** [Dependencies:\s*([^,)]+)] *)
Definition deps_pattern : Regex.t :=
  [ Regex.Lit "Dependencies:"; Regex.Many Regex.is_space;
    Regex.Capture (Regex.none_of ",)") ].

(** The body of the loop over the matches: the task built from one
    match, given the number of tasks built so far. *)
Definition parse_match (count : nat) (groups : list string) : Task.t :=
  let task_title := Str.strip (Regex.group groups 1) in
  let task_description := Str.strip (Regex.group groups 2) in
  let task_metadata := list_ascii_of_string (Str.strip (Regex.group groups 3)) in
  let priority :=
    match Regex.search priority_pattern task_metadata with
    | Some (g, _) => Str.int_of_digits (Regex.group g 1)
    | None => 5
    end in
  let agent :=
    match Regex.search agent_pattern task_metadata with
    | Some (g, _) => Regex.group g 1
    | None => "developer"
    end in
  let dependencies :=
    match Regex.search deps_pattern task_metadata with
    | Some (g, _) =>
        let deps_str := Str.strip (Regex.group g 1) in
        if negb (String.eqb deps_str "") && negb (String.eqb deps_str "none")
        then map Str.strip (Str.split "," deps_str)
        else []
    | None => []
    end in
  Task.mk ("task_" ++ Str.str_of_nat (count + 1)) task_title task_description
    agent priority dependencies not_started JNull.

Fixpoint parse_matches (ms : list (list string)) (tasks : list Task.t)
  : list Task.t :=
  match ms with
  | [] => tasks
  | groups :: ms' =>
      parse_matches ms' (tasks ++ [parse_match (length tasks) groups])
  end.

Definition parse_tasks_markdown (content : string) : list Task.t :=
  parse_matches (Regex.finditer task_pattern content) [].

(** *** [sort_tasks_by_dependencies] *)

(** [task_map = {task["title"]: task for task in self.tasks}]; the value
    is the reference to the task object, [next] the reference of the
    first task of the list. *)
Fixpoint build_task_map (tasks : list Task.t) (next : nat) (m : PyDict.t nat)
  : PyDict.t nat :=
  match tasks with
  | [] => m
  | t :: ts => build_task_map ts (S next) (PyDict.set m (Task.title t) next)
  end.

Definition task_map_of (tasks : list Task.t) : PyDict.t nat :=
  build_task_map tasks 0%nat PyDict.empty.

(** First loop: [in_degree[title] = 0; graph[title] = []]. *)
Fixpoint init_graph (tasks : list Task.t)
  (ig : PyDict.t Z * PyDict.t (list string))
  : PyDict.t Z * PyDict.t (list string) :=
  match tasks with
  | [] => ig
  | t :: ts =>
      init_graph ts
        (PyDict.set (fst ig) (Task.title t) 0,
         PyDict.set (snd ig) (Task.title t) [])
  end.

(** Second loop, inner part: the dependencies of one task. *)
Fixpoint add_deps (task_map : PyDict.t nat) (task_title : string)
  (deps : list string) (ig : PyDict.t Z * PyDict.t (list string))
  : Res (PyDict.t Z * PyDict.t (list string)) :=
  match deps with
  | [] => Ok ig
  | dep :: rest =>
      if PyDict.mem task_map dep then
        g <- lookup (snd ig) dep ;;
        let graph' := PyDict.set (snd ig) dep (g ++ [task_title]) in
        v <- lookup (fst ig) task_title ;;
        let in_degree' := PyDict.set (fst ig) task_title (v + 1) in
        add_deps task_map task_title rest (in_degree', graph')
      else add_deps task_map task_title rest ig
  end.

(** Second loop, outer part. *)
Fixpoint add_edges (task_map : PyDict.t nat) (tasks : list Task.t)
  (ig : PyDict.t Z * PyDict.t (list string))
  : Res (PyDict.t Z * PyDict.t (list string)) :=
  match tasks with
  | [] => Ok ig
  | t :: ts =>
      ig' <- add_deps task_map (Task.title t) (Task.dependencies t) ig ;;
      add_edges task_map ts ig'
  end.

(** [queue = [t for t in in_degree if in_degree[t] == 0]] *)
Definition initial_queue (in_degree : PyDict.t Z) : list string :=
  map fst (filter (fun kv => snd kv =? 0) in_degree).

(** [for neighbor in graph[current]: in_degree[neighbor] -= 1; if
    in_degree[neighbor] == 0: queue.append(neighbor)] *)
Fixpoint relax (nbrs : list string) (in_degree : PyDict.t Z)
  (queue : list string) : Res (PyDict.t Z * list string) :=
  match nbrs with
  | [] => Ok (in_degree, queue)
  | neighbor :: rest =>
      v <- lookup in_degree neighbor ;;
      let in_degree' := PyDict.set in_degree neighbor (v - 1) in
      if v - 1 =? 0
      then relax rest in_degree' (queue ++ [neighbor])
      else relax rest in_degree' queue
  end.

(** The key of the sort: [task_map[x]["priority"]]. *)
Definition priority_key (tasks : list Task.t) (task_map : PyDict.t nat)
  (x : string) : Res Z :=
  r <- lookup task_map x ;;
  t <- deref tasks r ;;
  Ok (Task.priority t).

(** [queue.sort(key=lambda x: task_map[x]["priority"])]: the keys are
    computed first, then the decorated list is sorted. *)
Definition sort_queue (tasks : list Task.t) (task_map : PyDict.t nat)
  (queue : list string) : Res (list string) :=
  ks <- mapM (priority_key tasks task_map) queue ;;
  Ok (map snd (sort_by_key (combine ks queue))).

(** One turn of the [while queue:] loop on a non-empty queue. *)
Definition kahn_step (tasks : list Task.t) (task_map : PyDict.t nat)
  (graph : PyDict.t (list string)) (in_degree : PyDict.t Z)
  (queue : list string) (sorted_tasks : list nat)
  : Res (PyDict.t Z * list string * list nat) :=
  q <- sort_queue tasks task_map queue ;;
  match q with
  | [] => Raise IndexError
  | current :: rest =>
      r <- lookup task_map current ;;
      nbrs <- lookup graph current ;;
      '(in_degree', queue') <- relax nbrs in_degree rest ;;
      Ok (in_degree', queue', sorted_tasks ++ [r])
  end.

(** The [while queue:] loop; the fuel bounds the number of turns. *)
Fixpoint kahn_loop (fuel : nat) (tasks : list Task.t)
  (task_map : PyDict.t nat) (graph : PyDict.t (list string))
  (in_degree : PyDict.t Z) (queue : list string) (sorted_tasks : list nat)
  : Res (list nat) :=
  match queue with
  | [] => Ok sorted_tasks
  | _ :: _ =>
      match fuel with
      | O => Stuck
      | S fuel' =>
          '(in_degree', queue', sorted_tasks') <-
             kahn_step tasks task_map graph in_degree queue sorted_tasks ;;
          kahn_loop fuel' tasks task_map graph in_degree' queue' sorted_tasks'
      end
  end.

(** [sort_tasks_by_dependencies]: the references of the scheduled tasks,
    in order. Every turn of the loop pops a title that is never queued
    again, so [len(self.tasks)] turns are enough fuel. *)
Definition sort_tasks_by_dependencies (tasks : list Task.t) : Res (list nat) :=
  let task_map := task_map_of tasks in
  '(in_degree, graph) <-
     add_edges task_map tasks (init_graph tasks (PyDict.empty, PyDict.empty)) ;;
  kahn_loop (length tasks) tasks task_map graph in_degree
    (initial_queue in_degree) [].

(** *** [can_assign_task] *)

(** [next((t for t in self.tasks if t["title"] == dep), None)] *)
Definition find_by_title (tasks : list Task.t) (dep : string) : option Task.t :=
  find (fun t => String.eqb (Task.title t) dep) tasks.

(** [self.task_status.get(id, {}).get("status", "not_started")] *)
Definition status_or_default (task_status : PyDict.t Tracking.t) (id : string)
  : Status :=
  match PyDict.get task_status id with
  | Some tr => Tracking.status tr
  | None => not_started
  end.

Fixpoint can_assign_deps (tasks : list Task.t)
  (task_status : PyDict.t Tracking.t) (deps : list string) : bool :=
  match deps with
  | [] => true
  | dep :: rest =>
      match find_by_title tasks dep with
      | None => can_assign_deps tasks task_status rest
      | Some dep_task =>
          if Status_eqb (status_or_default task_status (Task.id dep_task)) completed
          then can_assign_deps tasks task_status rest
          else false
      end
  end.

Definition can_assign_task (tasks : list Task.t)
  (task_status : PyDict.t Tracking.t) (task : Task.t) : bool :=
  can_assign_deps tasks task_status (Task.dependencies task).

(** *** The orchestrator's state and its environment *)

(** What an HTTP request to a worker comes to: the request raises, or a
    response arrives with a status code and a body that decodes as JSON
    or not. *)
Inductive Reply : Type :=
| Fails (e : Exn)
| Answers (code : Z) (body : option Json).

(** The workers, seen from the orchestrator: a state [W] of the outside
    world and what each request does to it. The first argument is the
    worker's port. *)
Record Network (W : Type) : Type := mkNetwork {
  post_task : Z -> TaskData.t -> W -> Reply * W;
  get_status : Z -> W -> Reply * W;
  get_results : Z -> W -> Reply * W
}.

Arguments post_task {W} _ _ _ _.
Arguments get_status {W} _ _ _.
Arguments get_results {W} _ _ _.

(** [self.tasks], [self.task_status], the registry
    [self.composer_agent.agents] and the world. The registry maps a
    worker's name to its port: every entry that [spawn_sub_agents]
    makes is a non-empty dictionary with a ["port"]. [sent] is
    instrumentation: the references on which [send_task_to_agent] was
    called, in call order. *)
Record State (W : Type) : Type := mkState {
  tasks : list Task.t;
  task_status : PyDict.t Tracking.t;
  agents : PyDict.t Z;
  world : W;
  sent : list nat
}.

Arguments mkState {W} _ _ _ _ _.
Arguments tasks {W} _.
Arguments task_status {W} _.
Arguments agents {W} _.
Arguments world {W} _.
Arguments sent {W} _.

(** Outcome of a method that works on the state: it returns, it raises
    (the state as it is at that point), or the model is stuck. *)
Inductive Outcome (S : Type) : Type :=
| Done (st : S)
| Raised (e : Exn) (st : S)
| Stalled.

Arguments Done {S} st.
Arguments Raised {S} e st.
Arguments Stalled {S}.

Definition and_then {S : Type} (m : Outcome S) (k : S -> Outcome S) : Outcome S :=
  match m with
  | Done st => k st
  | Raised e st => Raised e st
  | Stalled => Stalled
  end.

(** A computation that does not touch the state, run in state [st]. *)
Definition lift {S A : Type} (st : S) (m : Res A) (k : A -> Outcome S) : Outcome S :=
  match m with
  | Ok a => k a
  | Raise e => Raised e st
  | Stuck => Stalled
  end.

(** [try: ... except Exception as e: self.logger.error(...)] *)
Definition catch {S : Type} (m : Outcome S) : Outcome S :=
  match m with
  | Raised _ st => Done st
  | o => o
  end.

Fixpoint update_nth {A : Type} (n : nat) (f : A -> A) (l : list A) : list A :=
  match n, l with
  | _, [] => []
  | O, x :: l' => f x :: l'
  | S n', x :: l' => x :: update_nth n' f l'
  end.

Section WithNetwork.

Context {W : Type} (net : Network W).

Definition with_task_status (ts : PyDict.t Tracking.t) (st : State W) : State W :=
  mkState (tasks st) ts (agents st) (world st) (sent st).

Definition with_world (w : W) (st : State W) : State W :=
  mkState (tasks st) (task_status st) (agents st) w (sent st).

Definition record_call (r : nat) (st : State W) : State W :=
  mkState (tasks st) (task_status st) (agents st) (world st) (sent st ++ [r]).

(** [self.task_status[id]["status"] = s] *)
Definition set_status (id : string) (s : Status) (st : State W)
  : Outcome (State W) :=
  match PyDict.get (task_status st) id with
  | Some tr =>
      Done (with_task_status
              (PyDict.set (task_status st) id (Tracking.set_status s tr)) st)
  | None => Raised (KeyError id) st
  end.

(** [task["result"] = v] on the task object behind reference [r]. *)
Definition set_task_result (r : nat) (v : Json) (st : State W) : State W :=
  mkState (update_nth r (Task.set_result v) (tasks st)) (task_status st)
    (agents st) (world st) (sent st).

(** [task_status.get("status") == "not_started" and
    self.can_assign_task(task)], with
    [task_status = self.task_status.get(task["id"], {})]. *)
Definition waiting_ready (st : State W) (task : Task.t) : bool :=
  match PyDict.get (task_status st) (Task.id task) with
  | Some tr => Status_eqb (Tracking.status tr) not_started
  | None => false
  end
  && can_assign_task (tasks st) (task_status st) task.

(** The loop of [check_and_assign_waiting_tasks], over the references
    of [self.tasks], with the method it calls as a parameter. *)
Fixpoint waiting_loop (send : string -> nat -> State W -> Outcome (State W))
  (refs : list nat) (st : State W) : Outcome (State W) :=
  match refs with
  | [] => Done st
  | r :: rest =>
      lift st (deref (tasks st) r) (fun task =>
        if waiting_ready st task then
          and_then (send (Task.agent task) r st) (fun st1 =>
          and_then (set_status (Task.id task) assigned st1) (fun st2 =>
          waiting_loop send rest st2))
        else waiting_loop send rest st)
  end.

(** [task_data] *)
Definition task_data_of (task : Task.t) : TaskData.t :=
  TaskData.mk (Task.id task) (Task.title task) (Task.description task)
    "generic" (Task.priority task).

(** [send_task_to_agent(agent_name, task)], [task] given by reference.
    Each call uses one unit of fuel; the calls nest through
    [check_and_assign_waiting_tasks]. *)
Fixpoint send_task_to_agent (fuel : nat) (agent_name : string) (r : nat)
  (st : State W) : Outcome (State W) :=
  match fuel with
  | O => Stalled
  | S fuel' =>
      let st := record_call r st in
      catch
        match PyDict.get (agents st) agent_name with
        | None => Done st
        | Some port =>
            lift st (deref (tasks st) r) (fun task =>
              let (reply, w) := post_task net port (task_data_of task) (world st) in
              let st1 := with_world w st in
              match reply with
              | Fails e => Raised e st1
              | Answers code body =>
                  if code =? 200 then
                    match body with
                    | None => Raised JSONDecodeError st1
                    | Some result =>
                        and_then (set_status (Task.id task) in_progress st1) (fun st2 =>
                        lift st2 (json_get result "status") (fun s =>
                          if json_is_str s "completed" then
                            and_then (set_status (Task.id task) completed st2) (fun st3 =>
                            lift st3 (json_get_default result "result" (JStr "")) (fun v =>
                              let st4 := set_task_result r v st3 in
                              waiting_loop (send_task_to_agent fuel')
                                (seq 0 (length (tasks st4))) st4))
                          else Done st2))
                    end
                  else Done st1
              end)
        end
  end.

(** [check_and_assign_waiting_tasks] *)
Definition check_and_assign_waiting_tasks (fuel : nat) (st : State W)
  : Outcome (State W) :=
  waiting_loop (send_task_to_agent fuel) (seq 0 (length (tasks st))) st.

(** First loop of [assign_tasks]: a fresh tracking entry per task. *)
Fixpoint init_tracking (refs : list nat) (st : State W) : Outcome (State W) :=
  match refs with
  | [] => Done st
  | r :: rest =>
      lift st (deref (tasks st) r) (fun task =>
        init_tracking rest
          (with_task_status
             (PyDict.set (task_status st) (Task.id task)
                (Tracking.mk not_started (Task.agent task))) st))
  end.

(** Second loop of [assign_tasks]. *)
Fixpoint assign_loop (send : string -> nat -> State W -> Outcome (State W))
  (refs : list nat) (st : State W) : Outcome (State W) :=
  match refs with
  | [] => Done st
  | r :: rest =>
      lift st (deref (tasks st) r) (fun task =>
        if can_assign_task (tasks st) (task_status st) task then
          and_then (send (Task.agent task) r st) (fun st1 =>
          and_then (set_status (Task.id task) assigned st1) (fun st2 =>
          assign_loop send rest st2))
        else assign_loop send rest st)
  end.

(** [assign_tasks], with the fuel for the calls it makes. *)
Definition assign_tasks_with (fuel : nat) (st : State W) : Outcome (State W) :=
  match tasks st with
  | [] => Done st
  | _ :: _ =>
      lift st (sort_tasks_by_dependencies (tasks st)) (fun sorted_tasks =>
        and_then (init_tracking sorted_tasks st) (fun st1 =>
        assign_loop (send_task_to_agent fuel) sorted_tasks st1))
  end.

(** [assign_tasks]. A nested call of [send_task_to_agent] is on a task
    tracked as [not_started], and its caller's task is not, so the
    number of tracking entries after the first loop bounds the depth. *)
Definition assign_tasks (st : State W) : Outcome (State W) :=
  assign_tasks_with (S (length (task_status st) + length (tasks st))) st.

(** *** Completion poller *)

(** The search of a worker's result log for the entry of task [id]:
    [for result in results: if result.get("task", {}).get("id") ==
    task["id"]: ...; break]. *)
Fixpoint find_result (items : list Json) (r : nat) (id : string)
  (st : State W) : Outcome (State W) :=
  match items with
  | [] => Done st
  | result :: rest =>
      lift st (json_get_default result "task" (JObj [])) (fun tk =>
      lift st (json_get tk "id") (fun i =>
        if json_is_str i id then
          and_then (set_status id completed st) (fun st1 =>
          lift st1 (json_get_default result "result" (JStr "")) (fun v =>
          Done (set_task_result r v st1)))
        else find_result rest r id st))
  end.

(** [not current_task or status_data.get("status") == "idle"] *)
Definition worker_idle (status_data : Json) (current_task : option Json)
  : Res bool :=
  if truthy current_task
  then s <- json_get status_data "status" ;; Ok (json_is_str s "idle")
  else Ok true.

(** The body of the [try] for one task tracked as [in_progress]. *)
Definition poll_task (r : nat) (task : Task.t) (port : Z) (st : State W)
  : Outcome (State W) :=
  let (reply, w) := get_status net port (world st) in
  let st1 := with_world w st in
  match reply with
  | Fails e => Raised e st1
  | Answers code body =>
      if code =? 200 then
        match body with
        | None => Raised JSONDecodeError st1
        | Some status_data =>
            lift st1 (json_get status_data "current_task") (fun current_task =>
            lift st1 (worker_idle status_data current_task) (fun idle =>
              if idle : bool then
                let (reply2, w2) := get_results net port (world st1) in
                let st2 := with_world w2 st1 in
                match reply2 with
                | Fails e => Raised e st2
                | Answers code2 body2 =>
                    if code2 =? 200 then
                      match body2 with
                      | None => Raised JSONDecodeError st2
                      | Some result_data =>
                          lift st2 (json_get_default result_data "results" (JArr []))
                            (fun results =>
                          lift st2 (json_iter results) (fun items =>
                            find_result items r (Task.id task) st2))
                      end
                    else Done st2
                end
              else Done st1))
        end
      else Done st1
  end.

(** [task_status.get("status") == "in_progress"], with
    [task_status = self.task_status.get(task["id"], {})]. *)
Definition tracked_in_progress (st : State W) (task : Task.t) : bool :=
  match PyDict.get (task_status st) (Task.id task) with
  | Some tr => Status_eqb (Tracking.status tr) in_progress
  | None => false
  end.

Fixpoint poll_loop (refs : list nat) (st : State W) : Outcome (State W) :=
  match refs with
  | [] => Done st
  | r :: rest =>
      lift st (deref (tasks st) r) (fun task =>
        if tracked_in_progress st task then
          match PyDict.get (agents st) (Task.agent task) with
          | Some port =>
              and_then (catch (poll_task r task port st)) (poll_loop rest)
          | None => poll_loop rest st
          end
        else poll_loop rest st)
  end.

(** [update_task_status] *)
Definition update_task_status (st : State W) : Outcome (State W) :=
  poll_loop (seq 0 (length (tasks st))) st.

End WithNetwork.

(** A task with only the fields the scheduler and the dispatcher read
    filled in. *)
Definition task (i t a : string) (p : Z) (deps : list string) : Task.t :=
  Task.mk i t "" a p deps not_started JNull.

End TaskManager.

(** ** SubAgent: the worker's task endpoint *)

Module SubAgent.

(** The role-specific handlers of [process_task]. *)
Inductive Handler : Type :=
| Development | QualityAssurance | Design | Architecture | Generic.

(** The [if/elif] chain of [process_task] on [self.role]. *)
Definition handler_for (role : string) : Handler :=
  if String.eqb role "code_implementation" then Development
  else if String.eqb role "quality_assurance" then QualityAssurance
  else if String.eqb role "ui_ux_design" then Design
  else if String.eqb role "system_architecture" then Architecture
  else Generic.

(** An entry of [self.task_results]. *)
Module ResultEntry.

Record t : Type := mk {
  task : Json;
  result : string;
  status : string
}.

End ResultEntry.

(** The fields of a [SubAgent] that the endpoint reads and writes;
    [current_task] is [JNull] for [None]. *)
Record t : Type := mk {
  name : string;
  role : string;
  current_task : Json;
  task_results : list ResultEntry.t;
  status : string
}.

(** [SubAgent.__init__] *)
Definition init (name role : string) : t := mk name role JNull [] "idle".

(** What the handlers reach outside the worker. [claude_code_execute]
    runs the external tool on the prompt that the handler builds from
    the task; it catches every exception itself and always returns a
    text. [write_result] stores that text in the handler's result file
    and can raise. [str_exn] is [str(e)]. *)
Record Tool (W : Type) : Type := mkTool {
  claude_code_execute : Handler -> Json -> W -> string * W;
  write_result : Handler -> Json -> string -> W -> option Exn * W;
  str_exn : Exn -> string
}.

Arguments claude_code_execute {W} _ _ _ _.
Arguments write_result {W} _ _ _ _ _.
Arguments str_exn {W} _ _.

(** Where the body of the [try] of [execute_task] ends. *)
Inductive Step (W : Type) : Type :=
| Returned (code : Z) (body : Json) (a : t) (w : W)
| Threw (e : Exn) (a : t) (w : W).

Arguments Returned {W} _ _ _ _.
Arguments Threw {W} _ _ _.

Section WithTool.

Context {W : Type} (tool : Tool W).

(** [process_task]: the handler for the role runs the tool, stores the
    text and returns it ([inl]), or raises ([inr]). *)
Definition process_task (a : t) (task : Json) (w : W) : (string + Exn) * W :=
  let h := handler_for (role a) in
  let (result, w1) := claude_code_execute tool h task w in
  let (err, w2) := write_result tool h task result w1 in
  (match err with None => inl result | Some e => inr e end, w2).

(** The body of the [try]. [request] is what [await request.json()]
    gives, [None] when it raises. *)
Definition execute_task_body (request : option Json) (a : t) (w : W) : Step W :=
  match request with
  | None => Threw JSONDecodeError a w
  | Some task_data =>
      match task_data with
      | JObj _ =>
          let a1 := mk (name a) (role a) task_data (task_results a) "working" in
          match process_task a1 task_data w with
          | (inl result, w') =>
              let entry := ResultEntry.mk task_data result "completed" in
              Returned 200
                (JObj [("status", JStr "completed"); ("result", JStr result)])
                (mk (name a1) (role a1) JNull (task_results a1 ++ [entry]) "idle")
                w'
          | (inr e, w') => Threw e a1 w'
          end
      | _ => Threw AttributeError a w
      end
  end.

(** [execute_task]: the response (status code and body), the worker
    afterwards and the world afterwards. *)
Definition execute_task (request : option Json) (a : t) (w : W)
  : (Z * Json) * t * W :=
  match execute_task_body request a w with
  | Returned code body a' w' => ((code, body), a', w')
  | Threw e a' w' =>
      ((500, JObj [("status", JStr "failed"); ("error", JStr (str_exn tool e))]),
       mk (name a') (role a') (current_task a') (task_results a') "error",
       w')
  end.

(** A worker serving a sequence of requests: the responses, in order,
    and the worker and the world at the end. *)
Fixpoint serve (requests : list (option Json)) (a : t) (w : W)
  : list (Z * Json) * t * W :=
  match requests with
  | [] => ([], a, w)
  | request :: rest =>
      let '(response, a1, w1) := execute_task request a w in
      let '(responses, a2, w2) := serve rest a1 w1 in
      (response :: responses, a2, w2)
  end.

End WithTool.

End SubAgent.

(** ** TaskManager: loading, completion check, summary and waiting *)

Module Monitor.

Import TaskManager.

(** Outcome of a method that returns a value: it returns [a] in state
    [st], it raises, or the model has run out of fuel. *)
Inductive Result (A S : Type) : Type :=
| Returns (a : A) (st : S)
| Raises (e : Exn) (st : S)
| Pending.

Arguments Returns {A S} a st.
Arguments Raises {A S} e st.
Arguments Pending {A S}.

(** What [load_tasks_from_file] finds at [docs_dir / "tasks.md"]: no
    file, a file that cannot be opened or read, or its text. *)
Inductive TasksFile : Type :=
| Absent
| Unreadable (e : Exn)
| Holds (content : string).

Definition with_tasks {W : Type} (ts : list Task.t) (st : State W) : State W :=
  mkState ts (task_status st) (agents st) (world st) (sent st).

(** [load_tasks_from_file] *)
Definition load_tasks_from_file {W : Type} (file : TasksFile) (st : State W)
  : Result (list Task.t) (State W) :=
  match file with
  | Absent => Returns [] st
  | Unreadable e => Raises e st
  | Holds content =>
      let st' := with_tasks (parse_tasks_markdown content) st in
      Returns (tasks st') st'
  end.

(** [all_tasks_completed] *)
Definition all_tasks_completed {W : Type} (st : State W) : bool :=
  forallb (fun kv => Status_eqb (Tracking.status (snd kv)) completed)
    (task_status st).

(** An element of the list ["tasks"] of a summary. *)
Module SummaryEntry.

Record t : Type := mk {
  id : string;
  title : string;
  agent : string;
  status : Status;
  result : Json
}.

End SummaryEntry.

(** The dictionary that [get_task_status_summary] returns. *)
Module Summary.

Record t : Type := mk {
  total_tasks : Z;
  completed : Z;
  in_progress : Z;
  not_started : Z;
  failed : Z;
  tasks : list SummaryEntry.t
}.

End Summary.

(** The [if/elif] chain on [status]: one counter goes up, or none. *)
Definition count_status (status : Status) (s : Summary.t) : Summary.t :=
  match status with
  | completed =>
      Summary.mk (Summary.total_tasks s) (Summary.completed s + 1)
        (Summary.in_progress s) (Summary.not_started s) (Summary.failed s)
        (Summary.tasks s)
  | in_progress =>
      Summary.mk (Summary.total_tasks s) (Summary.completed s)
        (Summary.in_progress s + 1) (Summary.not_started s) (Summary.failed s)
        (Summary.tasks s)
  | not_started =>
      Summary.mk (Summary.total_tasks s) (Summary.completed s)
        (Summary.in_progress s) (Summary.not_started s + 1) (Summary.failed s)
        (Summary.tasks s)
  | failed =>
      Summary.mk (Summary.total_tasks s) (Summary.completed s)
        (Summary.in_progress s) (Summary.not_started s) (Summary.failed s + 1)
        (Summary.tasks s)
  | assigned => s
  end.

(** The body of the loop of [get_task_status_summary]. *)
Definition summary_step (task_status : PyDict.t Tracking.t)
  (summary : Summary.t) (task : Task.t) : Summary.t :=
  let status := status_or_default task_status (Task.id task) in
  let s := count_status status summary in
  Summary.mk (Summary.total_tasks s) (Summary.completed s)
    (Summary.in_progress s) (Summary.not_started s) (Summary.failed s)
    (Summary.tasks s
     ++ [SummaryEntry.mk (Task.id task) (Task.title task) (Task.agent task)
           status (Task.result task)]).

(** [get_task_status_summary] *)
Definition get_task_status_summary {W : Type} (st : State W) : Summary.t :=
  fold_left (summary_step (task_status st)) (tasks st)
    (Summary.mk (Z.of_nat (length (tasks st))) 0 0 0 0 []).

(** The event loop's clock and [asyncio.sleep], seen from the
    orchestrator. [elapsed_gt current start timeout] is
    [current - start > timeout]. *)
Record Clock (W : Type) : Type := mkClock {
  Instant : Type;
  time : W -> Instant * W;
  elapsed_gt : Instant -> Instant -> Z -> bool;
  sleep : Z -> W -> W
}.

Arguments Instant {W} _.
Arguments time {W} _ _.
Arguments elapsed_gt {W} _ _ _ _.
Arguments sleep {W} _ _ _.

Section WithClock.

Context {W : Type} (net : Network W) (clock : Clock W).

(** The [while not self.all_tasks_completed():] loop of
    [wait_for_all_tasks_completion]; the fuel bounds the number of
    turns. *)
Fixpoint wait_loop (fuel : nat) (start_time : Instant clock) (timeout : Z)
  (st : State W) : Result bool (State W) :=
  if all_tasks_completed st then Returns true st
  else
    match fuel with
    | O => Pending
    | S fuel' =>
        let (current_time, w) := time clock (world st) in
        let st1 := with_world w st in
        if elapsed_gt clock current_time start_time timeout
        then Returns false st1
        else
          let st2 := with_world (sleep clock 2 (world st1)) st1 in
          match update_task_status net st2 with
          | Done st3 => wait_loop fuel' start_time timeout st3
          | Raised e st3 => Raises e st3
          | Stalled => Pending
          end
    end.

(** [wait_for_all_tasks_completion(timeout)] *)
Definition wait_for_all_tasks_completion (fuel : nat) (timeout : Z)
  (st : State W) : Result bool (State W) :=
  let (start_time, w) := time clock (world st) in
  wait_loop fuel start_time timeout (with_world w st).

End WithClock.

End Monitor.

(** ** SubAgent: the read-only endpoints and the start of a worker *)

Module WorkerEndpoints.

Import SubAgent.

(** An entry of [self.task_results] as [web.json_response] sends it. *)
Definition entry_json (e : ResultEntry.t) : Json :=
  JObj [("task", ResultEntry.task e); ("result", JStr (ResultEntry.result e));
        ("status", JStr (ResultEntry.status e))].

(** [health_check] *)
Definition health_check (a : t) : Z * Json :=
  (200, JObj [("status", JStr "healthy"); ("agent", JStr (name a))]).

(** [get_status] *)
Definition get_status (a : t) : Z * Json :=
  (200, JObj [("name", JStr (name a)); ("role", JStr (role a));
              ("status", JStr (status a)); ("current_task", current_task a);
              ("completed_tasks", JNum (Z.of_nat (length (task_results a))))]).

(** [get_results] *)
Definition get_results (a : t) : Z * Json :=
  (200, JObj [("agent", JStr (name a));
              ("results", JArr (map entry_json (task_results a)))]).

(** [main]: the worker built from the command line; [args.role or
    args.name] takes the name when there is no role or an empty one. *)
Definition main (name : string) (role : option string) : t :=
  init name
    (match role with
     | Some r => if String.eqb r "" then name else r
     | None => name
     end).

(** The worker behind the command line of
    [ComposerAgent.start_agent_process], which passes [--name],
    [--port] and [--workspace] and no [--role]. *)
Definition start_agent_process (agent_name : string) : t := main agent_name None.

End WorkerEndpoints.

(** ** ComposerAgent: task assignment and monitoring *)

Module Composer.

Import Monitor.

(** The fields of an entry of [self.agents] that are read or written
    after the workers have been spawned. *)
Module AgentInfo.

Record t : Type := mk {
  port : Z;
  status : Json
}.

End AgentInfo.

(** The orchestrator: its registry [self.agents], the [tasks] and
    [task_status] of its [task_manager], the world and the log of
    calls of [send_task_to_agent]. *)
Record t (W : Type) : Type := mk {
  agents : PyDict.t AgentInfo.t;
  tasks : list Task.t;
  task_status : PyDict.t Tracking.t;
  world : W;
  sent : list nat
}.

Arguments mk {W} _ _ _ _ _.
Arguments agents {W} _.
Arguments tasks {W} _.
Arguments task_status {W} _.
Arguments world {W} _.
Arguments sent {W} _.

(** The registry as the task manager reads it: name to port. *)
Definition ports (agents : PyDict.t AgentInfo.t) : PyDict.t Z :=
  map (fun kv => (fst kv, AgentInfo.port (snd kv))) agents.

(** The state that the methods of [self.task_manager] work on. *)
Definition manager {W : Type} (c : t W) : TaskManager.State W :=
  TaskManager.mkState (tasks c) (task_status c) (ports (agents c)) (world c)
    (sent c).

(** The orchestrator after a method of its task manager has run. *)
Definition with_manager {W : Type} (st : TaskManager.State W) (c : t W) : t W :=
  mk (agents c) (TaskManager.tasks st) (TaskManager.task_status st)
    (TaskManager.world st) (TaskManager.sent st).

Definition with_world {W : Type} (w : W) (c : t W) : t W :=
  mk (agents c) (tasks c) (task_status c) w (sent c).

(** [self.agents[agent_name]["status"] = v] *)
Definition set_agent_status {W : Type} (agent_name : string) (v : Json) (c : t W)
  : TaskManager.Outcome (t W) :=
  match PyDict.get (agents c) agent_name with
  | Some info =>
      TaskManager.Done
        (mk (PyDict.set (agents c) agent_name (AgentInfo.mk (AgentInfo.port info) v))
           (tasks c) (task_status c) (world c) (sent c))
  | None => TaskManager.Raised (KeyError agent_name) c
  end.

(** ["\n".join(results)] *)
Fixpoint join (sep : string) (l : list string) : string :=
  match l with
  | [] => ""
  | [x] => x
  | x :: rest => x ++ sep ++ join sep rest
  end.

Section WithNetwork.

Context {W : Type} (net : TaskManager.Network W) (clock : Clock W).

(** The text [f"Agent {agent_name}: {agent_results}"]. *)
Context (format_results : string -> Json -> string).

(** [get_agent_status]: the decoded body of a 200 response, [None]
    otherwise; every exception is caught. *)
Definition get_agent_status (agent_name : string) (c : t W) : option Json * t W :=
  match PyDict.get (agents c) agent_name with
  | None => (None, c)
  | Some info =>
      let (reply, w) := TaskManager.get_status net (AgentInfo.port info) (world c) in
      (match reply with
       | TaskManager.Answers code body => if code =? 200 then body else None
       | TaskManager.Fails _ => None
       end, with_world w c)
  end.

(** [get_agent_results]: [data.get("results", "")] for the decoded body
    [data] of a 200 response, [None] otherwise. *)
Definition get_agent_results (agent_name : string) (c : t W) : option Json * t W :=
  match PyDict.get (agents c) agent_name with
  | None => (None, c)
  | Some info =>
      let (reply, w) := TaskManager.get_results net (AgentInfo.port info) (world c) in
      (match reply with
       | TaskManager.Answers code (Some data) =>
           if code =? 200 then
             match json_get_default data "results" (JStr "") with
             | Ok v => Some v
             | _ => None
             end
           else None
       | _ => None
       end, with_world w c)
  end.

(** The loop over [self.agents] inside the monitoring loop. *)
Fixpoint check_agents (names : list string) (c : t W) : TaskManager.Outcome (t W) :=
  match names with
  | [] => TaskManager.Done c
  | agent_name :: rest =>
      let (status, c1) := get_agent_status agent_name c in
      match status with
      | Some s =>
          if truthy status then
            TaskManager.lift c1 (json_get_default s "status" (JStr "unknown")) (fun v =>
            TaskManager.and_then (set_agent_status agent_name v c1) (check_agents rest))
          else check_agents rest c1
      | None => check_agents rest c1
      end
  end.

(** [while not self.task_manager.all_tasks_completed():]; the fuel
    bounds the number of turns. *)
Fixpoint monitor (fuel : nat) (c : t W) : TaskManager.Outcome (t W) :=
  if all_tasks_completed (manager c) then TaskManager.Done c
  else
    match fuel with
    | O => TaskManager.Stalled
    | S fuel' =>
        let c1 := with_world (sleep clock 2 (world c)) c in
        TaskManager.and_then (check_agents (PyDict.keys (agents c1)) c1)
          (monitor fuel')
    end.

(** The loop that collects the final results. *)
Fixpoint collect_results (names : list string) (results : list string) (c : t W)
  : list string * t W :=
  match names with
  | [] => (results, c)
  | agent_name :: rest =>
      let (agent_results, c1) := get_agent_results agent_name c in
      match agent_results with
      | Some v =>
          if truthy agent_results
          then collect_results rest (results ++ [format_results agent_name v]) c1
          else collect_results rest results c1
      | None => collect_results rest results c1
      end
  end.

(** [assign_and_monitor_tasks] *)
Definition assign_and_monitor_tasks (fuel : nat) (file : TasksFile) (c : t W)
  : Result string (t W) :=
  match load_tasks_from_file file (manager c) with
  | Raises e st => Raises e (with_manager st c)
  | Pending => Pending
  | Returns _ st =>
      match TaskManager.assign_tasks net st with
      | TaskManager.Raised e st1 => Raises e (with_manager st1 c)
      | TaskManager.Stalled => Pending
      | TaskManager.Done st1 =>
          match monitor fuel (with_manager st1 c) with
          | TaskManager.Raised e c2 => Raises e c2
          | TaskManager.Stalled => Pending
          | TaskManager.Done c2 =>
              let (results, c3) := collect_results (PyDict.keys (agents c2)) [] c2 in
              Returns
                (match results with
                 | [] => "All tasks completed successfully"
                 | _ :: _ => join (String (ascii_of_nat 10) EmptyString) results
                 end) c3
          end
      end
  end.

End WithNetwork.

End Composer.

(** ** The workers as the orchestrator's network *)

Module System.

Import TaskManager.

(** The workers, by port, and what the workers' tool reaches. *)
Record World (T : Type) : Type := mkWorld {
  workers : list (Z * SubAgent.t);
  outside : T
}.

Arguments mkWorld {T} _ _.
Arguments workers {T} _.
Arguments outside {T} _.

(** The worker listening on [port], if any. *)
Fixpoint worker_at (port : Z) (ws : list (Z * SubAgent.t)) : option SubAgent.t :=
  match ws with
  | [] => None
  | (p, a) :: ws' => if p =? port then Some a else worker_at port ws'
  end.

Fixpoint put_worker (port : Z) (a : SubAgent.t) (ws : list (Z * SubAgent.t))
  : list (Z * SubAgent.t) :=
  match ws with
  | [] => []
  | (p, a0) :: ws' =>
      if p =? port then (p, a) :: ws' else (p, a0) :: put_worker port a ws'
  end.

(** The body of the POST request: [task_data] as JSON. *)
Definition payload_json (d : TaskData.t) : Json :=
  JObj [("id", JStr (TaskData.id d)); ("title", JStr (TaskData.title d));
        ("description", JStr (TaskData.description d));
        ("type", JStr (TaskData.type d)); ("priority", JNum (TaskData.priority d))].

Definition refused : Exn := ClientError "Cannot connect to host".

Section WithTool.

Context {T : Type} (tool : SubAgent.Tool T).

(** The network when every request reaches the worker on its port: the
    routes of [SubAgent.start]. A body sent is the body received. *)
Definition network : Network (World T) :=
  mkNetwork (World T)
    (fun port d w =>
       match worker_at port (workers w) with
       | None => (Fails refused, w)
       | Some a =>
           let '(response, a', o') :=
             SubAgent.execute_task tool (Some (payload_json d)) a (outside w) in
           (Answers (fst response) (Some (snd response)),
            mkWorld (put_worker port a' (workers w)) o')
       end)
    (fun port w =>
       match worker_at port (workers w) with
       | None => (Fails refused, w)
       | Some a =>
           let response := WorkerEndpoints.get_status a in
           (Answers (fst response) (Some (snd response)), w)
       end)
    (fun port w =>
       match worker_at port (workers w) with
       | None => (Fails refused, w)
       | Some a =>
           let response := WorkerEndpoints.get_results a in
           (Answers (fst response) (Some (snd response)), w)
       end).

End WithTool.

End System.

(* ================================================================== *)
(** * Part II: lemmas and theorems *)
(* ================================================================== *)

(** ** Dictionaries *)

Module PyDictFacts.

Import PyDict.

Lemma get_set_same {V} (d : t V) k v : get (set d k v) k = Some v.
Proof.
  induction d as [|[k' v'] d IH]; simpl.
  - now rewrite String.eqb_refl.
  - destruct (String.eqb k' k) eqn:E; simpl; now rewrite E.
Qed.

Lemma get_set_other {V} (d : t V) k k' v :
  k <> k' -> get (set d k v) k' = get d k'.
Proof.
  intros Hne. induction d as [|[k0 v0] d IH]; simpl.
  - destruct (String.eqb k k') eqn:E; [|reflexivity].
    apply String.eqb_eq in E. contradiction.
  - destruct (String.eqb k0 k) eqn:E; simpl.
    + apply String.eqb_eq in E. subst k0.
      destruct (String.eqb k k') eqn:E'; [|reflexivity].
      apply String.eqb_eq in E'. contradiction.
    + now rewrite IH.
Qed.

Lemma get_set {V} (d : t V) k k' v :
  get (set d k v) k' = if String.eqb k k' then Some v else get d k'.
Proof.
  destruct (String.eqb k k') eqn:E.
  - apply String.eqb_eq in E. subst. apply get_set_same.
  - apply String.eqb_neq in E. now apply get_set_other.
Qed.

Lemma get_Some_keys {V} (d : t V) k v : get d k = Some v -> In k (keys d).
Proof.
  induction d as [|[k0 v0] d IH]; simpl; [discriminate|].
  destruct (String.eqb k0 k) eqn:E.
  - apply String.eqb_eq in E. now left.
  - intros H. right. now apply IH.
Qed.

Lemma keys_get {V} (d : t V) k : In k (keys d) -> exists v, get d k = Some v.
Proof.
  induction d as [|[k0 v0] d IH]; simpl; [tauto|].
  intros [->|H].
  - rewrite String.eqb_refl. eauto.
  - destruct (String.eqb k0 k); eauto.
Qed.

Lemma mem_keys {V} (d : t V) k : mem d k = true <-> In k (keys d).
Proof.
  unfold mem. split.
  - destruct (get d k) eqn:E; [|discriminate]. intros _. eapply get_Some_keys; eauto.
  - intros H. apply keys_get in H as [v ->]. reflexivity.
Qed.

Lemma keys_set_present {V} (d : t V) k v :
  In k (keys d) -> keys (set d k v) = keys d.
Proof.
  induction d as [|[k0 v0] d IH]; simpl; [tauto|].
  intros Hin. destruct (String.eqb k0 k) eqn:E; simpl; [reflexivity|].
  f_equal. apply IH. destruct Hin as [->|Hin]; [|assumption].
  now rewrite String.eqb_refl in E.
Qed.

Lemma keys_set_absent {V} (d : t V) k v :
  ~ In k (keys d) -> keys (set d k v) = keys d ++ [k].
Proof.
  induction d as [|[k0 v0] d IH]; simpl; [reflexivity|].
  intros Hnin. destruct (String.eqb k0 k) eqn:E; simpl.
  - apply String.eqb_eq in E. tauto.
  - f_equal. apply IH. tauto.
Qed.

Lemma In_keys_set {V} (d : t V) k v k' :
  In k' (keys (set d k v)) <-> k' = k \/ In k' (keys d).
Proof.
  induction d as [|[k0 v0] d IH]; simpl.
  - intuition congruence.
  - destruct (String.eqb k0 k) eqn:E; simpl.
    + apply String.eqb_eq in E. subst. intuition congruence.
    + rewrite IH. tauto.
Qed.

Lemma NoDup_keys_set {V} (d : t V) k v :
  NoDup (keys d) -> NoDup (keys (set d k v)).
Proof.
  intros Hnd.
  destruct (in_dec string_dec k (keys d)) as [Hin|Hnin].
  - now rewrite keys_set_present.
  - rewrite keys_set_absent by assumption.
    apply (Permutation_NoDup (l := k :: keys d)).
    + apply Permutation_cons_append.
    + now constructor.
Qed.

Lemma length_set {V} (d : t V) k v :
  (length (set d k v) <= S (length d))%nat.
Proof.
  induction d as [|[k0 v0] d IH]; simpl; [lia|].
  destruct (String.eqb k0 k); simpl; lia.
Qed.

Lemma length_keys {V} (d : t V) : length (keys d) = length d.
Proof. apply length_map. Qed.

Lemma lookup_Ok {V} (d : t V) k v : lookup d k = Ok v <-> get d k = Some v.
Proof.
  unfold lookup. destruct (get d k); split; intros H; inversion H; reflexivity.
Qed.

End PyDictFacts.

(** ** Title resolution and [can_assign_task] *)

Module ResolutionFacts.

Import TaskManager PyDictFacts.

Lemma Status_eqb_eq a b : Status_eqb a b = true <-> a = b.
Proof. destruct a, b; simpl; split; congruence. Qed.

(** [t], at position [i], is the first task of [tasks] titled [d]. *)
Definition first_with_title (tasks : list Task.t) (d : string) (i : nat)
  (t : Task.t) : Prop :=
  nth_error tasks i = Some t /\ Task.title t = d /\
  forall j u, (j < i)%nat -> nth_error tasks j = Some u -> Task.title u <> d.

(** [t], at position [i], is the last task of [tasks] titled [d]. *)
Definition last_with_title (tasks : list Task.t) (d : string) (i : nat)
  (t : Task.t) : Prop :=
  nth_error tasks i = Some t /\ Task.title t = d /\
  forall j u, (i < j)%nat -> nth_error tasks j = Some u -> Task.title u <> d.

(** Some task of the set carries the title [d]. *)
Definition resolves (tasks : list Task.t) (d : string) : Prop :=
  exists u, In u tasks /\ Task.title u = d.

Lemma find_by_title_first tasks d t :
  find_by_title tasks d = Some t <-> exists i, first_with_title tasks d i t.
Proof.
  unfold find_by_title, first_with_title.
  induction tasks as [|x xs IH]; simpl.
  - split; [discriminate|]. intros (i & H & _). destruct i; discriminate.
  - destruct (String.eqb (Task.title x) d) eqn:E.
    + apply String.eqb_eq in E. split.
      * intros [= <-]. exists 0%nat. repeat split; auto. intros; lia.
      * intros (i & Hn & Ht & Hfirst). destruct i as [|i]; [simpl in Hn; congruence|].
        exfalso. apply (Hfirst 0%nat x); [lia|reflexivity|assumption].
    + apply String.eqb_neq in E. rewrite IH. split.
      * intros (i & Hn & Ht & Hfirst). exists (S i). repeat split; auto.
        intros [|j] u Hj Hu; simpl in Hu.
        -- now inversion Hu; subst.
        -- apply (Hfirst j); [lia|assumption].
      * intros (i & Hn & Ht & Hfirst). destruct i as [|i]; simpl in Hn.
        -- inversion Hn; subst. contradiction.
        -- exists i. repeat split; auto. intros j u Hj Hu.
           apply (Hfirst (S j)); [lia|assumption].
Qed.

Lemma find_by_title_None tasks d :
  find_by_title tasks d = None <-> ~ resolves tasks d.
Proof.
  unfold find_by_title, resolves. induction tasks as [|x xs IH]; simpl.
  - split; [|reflexivity]. intros _ (u & [] & _).
  - destruct (String.eqb (Task.title x) d) eqn:E.
    + apply String.eqb_eq in E. split; [discriminate|].
      intros H. exfalso. apply H. exists x. auto.
    + apply String.eqb_neq in E. rewrite IH. split.
      * intros H (u & [->|Hu] & Ht); [contradiction|]. apply H. eauto.
      * intros H (u & Hu & Ht). apply H. eauto.
Qed.

Lemma get_build_task_map tasks : forall next m d r,
  PyDict.get (build_task_map tasks next m) d = Some r <->
  (PyDict.get m d = Some r /\ ~ resolves tasks d) \/
  (exists i t, r = (next + i)%nat /\ last_with_title tasks d i t).
Proof.
  unfold resolves, last_with_title.
  induction tasks as [|x xs IH]; intros next m d r; simpl.
  - split.
    + intros H. left. split; [assumption|]. intros (u & [] & _).
    + intros [[H _]|(i & t & _ & H & _)]; [assumption|]. destruct i; discriminate.
  - rewrite IH, get_set. split.
    + intros [[Hget Hnone]|(i & t & -> & Hn & Ht & Hlast)].
      * destruct (String.eqb (Task.title x) d) eqn:E.
        -- apply String.eqb_eq in E. inversion Hget; subst. right.
           exists 0%nat, x. split; [lia|]. split; [reflexivity|]. split; [reflexivity|].
           intros [|j] u Hj Hu; [lia|]. simpl in Hu. intros Hd.
           apply Hnone. exists u. split; [eapply nth_error_In; eauto|assumption].
        -- apply String.eqb_neq in E. left. split; [assumption|].
           intros (u & [->|Hu] & Hd); [contradiction|]. apply Hnone. eauto.
      * right. exists (S i), t. split; [lia|]. split; [assumption|]. split; [assumption|].
        intros [|j] u Hj Hu; [lia|]. simpl in Hu. apply (Hlast j); [lia|assumption].
    + intros [[Hget Hnone]|(i & t & -> & Hn & Ht & Hlast)].
      * left. split.
        -- destruct (String.eqb (Task.title x) d) eqn:E; [|assumption].
           apply String.eqb_eq in E. exfalso. apply Hnone. exists x. auto.
        -- intros (u & Hu & Hd). apply Hnone. eauto.
      * destruct i as [|i]; simpl in Hn.
        -- inversion Hn; subst x. left. split.
           ++ rewrite Ht, String.eqb_refl. f_equal. lia.
           ++ intros (u & Hu & Hd). apply In_nth_error in Hu as [j Hj].
              apply (Hlast (S j) u); [lia|assumption|assumption].
        -- right. exists i, t. split; [lia|]. split; [assumption|]. split; [assumption|].
           intros j u Hj Hu. apply (Hlast (S j)); [lia|assumption].
Qed.

Lemma task_map_of_last tasks d r :
  PyDict.get (task_map_of tasks) d = Some r <->
  exists t, last_with_title tasks d r t.
Proof.
  unfold task_map_of. rewrite get_build_task_map. simpl. split.
  - intros [[H _]|(i & t & -> & H)]; [discriminate|]. eauto.
  - intros (t & H). right. exists r, t. auto.
Qed.

Lemma keys_build_task_map tasks : forall next m d,
  In d (PyDict.keys (build_task_map tasks next m)) <->
  In d (PyDict.keys m) \/ resolves tasks d.
Proof.
  unfold resolves. induction tasks as [|x xs IH]; intros next m d; simpl.
  - split; [tauto|]. intros [H|(u & [] & _)]. exact H.
  - rewrite IH, In_keys_set. split.
    + intros [[->|H]|(u & Hu & Hd)]; eauto.
    + intros [H|(u & [->|Hu] & Hd)]; eauto.
Qed.

Lemma task_map_of_mem tasks d :
  PyDict.mem (task_map_of tasks) d = true <-> resolves tasks d.
Proof.
  rewrite mem_keys. unfold task_map_of. rewrite keys_build_task_map. simpl. tauto.
Qed.

End ResolutionFacts.

(** ** The dependency graph built by the scheduler *)

Module GraphFacts.

Import TaskManager PyDictFacts ResolutionFacts.

(** An edge: the title of a dependency and the title of its dependent. *)
Definition edge : Type := (string * string)%type.

(** The edges a task contributes: one per occurrence of a dependency
    title that is a key of [task_map]. *)
Definition task_edges (tm : PyDict.t nat) (t : Task.t) : list edge :=
  map (fun d => (d, Task.title t)) (filter (PyDict.mem tm) (Task.dependencies t)).

Definition edges_of (tm : PyDict.t nat) (tasks : list Task.t) : list edge :=
  flat_map (task_edges tm) tasks.

(** The edges into a title, and the targets of the edges out of it. *)
Definition into (k : string) (E : list edge) : list edge :=
  filter (fun e => String.eqb (snd e) k) E.

Definition out_of (k : string) (E : list edge) : list string :=
  map snd (filter (fun e => String.eqb (fst e) k) E).

(** [in_degree] and [graph] represent the edge list [E]. *)
Definition Rep (E : list edge) (ig : PyDict.t Z * PyDict.t (list string)) : Prop :=
  PyDict.keys (snd ig) = PyDict.keys (fst ig) /\
  forall k, In k (PyDict.keys (fst ig)) ->
    PyDict.get (fst ig) k = Some (Z.of_nat (length (into k E))) /\
    PyDict.get (snd ig) k = Some (out_of k E).

Lemma keys_set_congr {A B} (d1 : PyDict.t A) (d2 : PyDict.t B) k v1 v2 :
  PyDict.keys d2 = PyDict.keys d1 ->
  PyDict.keys (PyDict.set d2 k v2) = PyDict.keys (PyDict.set d1 k v1).
Proof.
  intros H. destruct (in_dec string_dec k (PyDict.keys d1)) as [Hin|Hnin].
  - rewrite !keys_set_present; congruence.
  - rewrite !keys_set_absent; congruence.
Qed.

Lemma init_graph_spec tasks : forall ig,
  Rep [] ig -> NoDup (PyDict.keys (fst ig)) ->
  Rep [] (init_graph tasks ig) /\
  NoDup (PyDict.keys (fst (init_graph tasks ig))) /\
  forall k, In k (PyDict.keys (fst (init_graph tasks ig))) <->
            In k (PyDict.keys (fst ig)) \/ resolves tasks k.
Proof.
  unfold resolves.
  induction tasks as [|x xs IH]; intros ig HR Hnd; simpl.
  - split; [assumption|]. split; [assumption|]. intros k. split; [tauto|].
    intros [H|(u & [] & _)]. exact H.
  - destruct HR as [Hk HR].
    destruct (IH (PyDict.set (fst ig) (Task.title x) 0,
                  PyDict.set (snd ig) (Task.title x) [])) as (R' & Hnd' & Hkeys).
    + split; simpl.
      * now apply keys_set_congr.
      * intros k Hin. rewrite !get_set.
        destruct (String.eqb (Task.title x) k) eqn:E; [auto|].
        apply String.eqb_neq in E. apply In_keys_set in Hin as [->|Hin]; [congruence|].
        now apply HR.
    + simpl. now apply NoDup_keys_set.
    + split; [assumption|]. split; [assumption|]. intros k. rewrite Hkeys. simpl.
      rewrite In_keys_set. split.
      * intros [[->|H]|(u & Hu & Hd)]; eauto.
      * intros [H|(u & [->|Hu] & Hd)]; eauto.
Qed.

Lemma into_app k E1 E2 : into k (E1 ++ E2) = into k E1 ++ into k E2.
Proof. apply filter_app. Qed.

Lemma out_of_app k E1 E2 : out_of k (E1 ++ E2) = out_of k E1 ++ out_of k E2.
Proof. unfold out_of. now rewrite filter_app, map_app. Qed.

Lemma Rep_add_edge E ig s t v g :
  Rep E ig ->
  PyDict.get (snd ig) s = Some g -> PyDict.get (fst ig) t = Some v ->
  Rep (E ++ [(s, t)])
    (PyDict.set (fst ig) t (v + 1), PyDict.set (snd ig) s (g ++ [t])).
Proof.
  intros [Hk HR] Hg Hv.
  assert (Hs : In s (PyDict.keys (fst ig))) by (rewrite <- Hk; eapply get_Some_keys; eauto).
  assert (Ht : In t (PyDict.keys (fst ig))) by (eapply get_Some_keys; eauto).
  split; simpl.
  - rewrite !keys_set_present; congruence.
  - intros k Hin. rewrite keys_set_present in Hin by assumption.
    destruct (HR k Hin) as [Hi Ho]. rewrite !get_set, into_app, out_of_app.
    unfold into at 2, out_of at 2. simpl. split.
    + destruct (String.eqb t k) eqn:Etk.
      * apply String.eqb_eq in Etk. subst k. f_equal.
        rewrite length_app. simpl. rewrite Hv in Hi. inversion Hi. lia.
      * now rewrite app_nil_r.
    + destruct (String.eqb s k) eqn:Esk.
      * apply String.eqb_eq in Esk. subst k. simpl. rewrite Hg in Ho. now inversion Ho.
      * simpl. now rewrite app_nil_r.
Qed.

Lemma add_deps_spec tm title deps : forall E ig,
  Rep E ig ->
  In title (PyDict.keys (fst ig)) ->
  (forall d, In d deps -> PyDict.mem tm d = true -> In d (PyDict.keys (fst ig))) ->
  exists ig',
    add_deps tm title deps ig = Ok ig' /\
    PyDict.keys (fst ig') = PyDict.keys (fst ig) /\
    Rep (E ++ map (fun d => (d, title)) (filter (PyDict.mem tm) deps)) ig'.
Proof.
  induction deps as [|dep rest IH]; intros E ig HR Ht Hdeps; simpl.
  - exists ig. rewrite app_nil_r. split; [reflexivity|]. split; [reflexivity|assumption].
  - destruct (PyDict.mem tm dep) eqn:Em; simpl.
    + assert (Hs : In dep (PyDict.keys (fst ig))) by (apply Hdeps; [now left|assumption]).
      destruct (HR) as [Hk HR'].
      destruct (HR' dep Hs) as [_ Hg]. destruct (HR' title Ht) as [Hv _].
      unfold lookup. rewrite Hg, Hv. simpl.
      pose proof (Rep_add_edge E ig dep title _ _ HR Hg Hv) as HR2.
      destruct (IH _ _ HR2) as (ig' & Hrun & Hkeys & HR3).
      * simpl. rewrite keys_set_present; assumption.
      * simpl. intros d Hd Hm. rewrite keys_set_present by assumption.
        apply Hdeps; [now right|assumption].
      * exists ig'. split; [exact Hrun|]. split.
        -- rewrite Hkeys. simpl. now rewrite keys_set_present.
        -- rewrite <- app_assoc in HR3. exact HR3.
    + apply IH; [assumption|assumption|]. intros d Hd Hm. apply Hdeps; [now right|assumption].
Qed.

Lemma add_edges_spec tm tasks : forall E ig,
  Rep E ig ->
  (forall t, In t tasks -> In (Task.title t) (PyDict.keys (fst ig))) ->
  (forall t d, In t tasks -> In d (Task.dependencies t) -> PyDict.mem tm d = true ->
     In d (PyDict.keys (fst ig))) ->
  exists ig',
    add_edges tm tasks ig = Ok ig' /\
    PyDict.keys (fst ig') = PyDict.keys (fst ig) /\
    Rep (E ++ edges_of tm tasks) ig'.
Proof.
  induction tasks as [|x xs IH]; intros E ig HR Ht Hdeps; simpl.
  - exists ig. rewrite app_nil_r. split; [reflexivity|]. split; [reflexivity|assumption].
  - destruct (add_deps_spec tm (Task.title x) (Task.dependencies x) E ig HR)
      as (ig1 & Hrun1 & Hkeys1 & HR1).
    + apply Ht. now left.
    + intros d Hd Hm. apply (Hdeps x d); [now left|assumption|assumption].
    + rewrite Hrun1. simpl.
      destruct (IH _ _ HR1) as (ig' & Hrun & Hkeys & HR').
      * intros t Hin. rewrite Hkeys1. apply Ht. now right.
      * intros t d Hin Hd Hm. rewrite Hkeys1. apply (Hdeps t d); [now right|assumption|assumption].
      * exists ig'. split; [exact Hrun|]. split; [congruence|].
        unfold task_edges at 1. rewrite app_assoc. exact HR'.
Qed.

(** The two loops that build [in_degree] and [graph] succeed, and the
    dictionaries represent the edges between the titles of the set. *)
Lemma build_graph_spec tasks :
  exists in_degree graph,
    add_edges (task_map_of tasks) tasks
      (init_graph tasks (PyDict.empty, PyDict.empty)) = Ok (in_degree, graph) /\
    Rep (edges_of (task_map_of tasks) tasks) (in_degree, graph) /\
    NoDup (PyDict.keys in_degree) /\
    (forall k, In k (PyDict.keys in_degree) <-> resolves tasks k).
Proof.
  destruct (init_graph_spec tasks (PyDict.empty, PyDict.empty)) as (HR & Hnd & Hkeys).
  { split; [reflexivity|]. intros k []. }
  { constructor. }
  destruct (add_edges_spec (task_map_of tasks) tasks [] _ HR) as ([ind g] & Hrun & Hk & HR').
  - intros t Hin. apply Hkeys. right. exists t. auto.
  - intros t d Hin Hd Hm. apply Hkeys. right. now apply task_map_of_mem.
  - exists ind, g. split; [exact Hrun|]. split; [exact HR'|]. simpl in Hk.
    rewrite Hk. split; [assumption|]. intros k. rewrite Hkeys. simpl. tauto.
Qed.

Lemma In_edges_of tm tasks s t :
  In (s, t) (edges_of tm tasks) <->
  exists x, In x tasks /\ Task.title x = t /\ In s (Task.dependencies x) /\
            PyDict.mem tm s = true.
Proof.
  unfold edges_of, task_edges. rewrite in_flat_map. split.
  - intros (x & Hx & Hin). apply in_map_iff in Hin as (d & Heq & Hd).
    inversion Heq; subst. apply filter_In in Hd as [Hd Hm]. eauto 6.
  - intros (x & Hx & <- & Hd & Hm). exists x. split; [assumption|].
    apply in_map_iff. exists s. split; [reflexivity|]. apply filter_In. auto.
Qed.

End GraphFacts.

(** ** The stable sort *)

Module SortFacts.

Section Sorting.

Context {A : Type}.

Implicit Types (x : Z * A) (l : list (Z * A)).

Lemma insert_by_key_perm x l : Permutation (insert_by_key x l) (x :: l).
Proof.
  induction l as [|y l IH]; simpl; [reflexivity|].
  destruct (fst x <=? fst y); [reflexivity|].
  rewrite IH. apply perm_swap.
Qed.

Lemma sort_by_key_perm l : Permutation (sort_by_key l) l.
Proof.
  induction l as [|x l IH]; simpl; [reflexivity|].
  rewrite insert_by_key_perm. now constructor.
Qed.







(** [x] is the element that a stable ascending sort of [l] puts first:
    every element before it has a strictly greater key, every element
    after it a key at least as great. *)
Definition first_least (x : Z * A) (l : list (Z * A)) : Prop :=
  exists l1 l2, l = l1 ++ x :: l2 /\
    Forall (fun y => fst x < fst y) l1 /\ Forall (fun y => fst x <= fst y) l2.


End Sorting.

Lemma map_snd_combine {A B} (ks : list A) (l : list B) :
  length ks = length l -> map snd (combine ks l) = l.
Proof.
  revert l. induction ks as [|k ks IH]; intros [|x l]; simpl; try discriminate; auto.
  intros [= H]. now rewrite IH.
Qed.

Lemma map_fst_combine {A B} (ks : list A) (l : list B) :
  length ks = length l -> map fst (combine ks l) = ks.
Proof.
  revert l. induction ks as [|k ks IH]; intros [|x l]; simpl; try discriminate; auto.
  intros [= H]. now rewrite IH.
Qed.


End SortFacts.

(** ** The scheduling loop *)

Module SchedulerFacts.

Import TaskManager PyDictFacts ResolutionFacts GraphFacts SortFacts.

(** [s] is among the titles popped so far. *)
Definition popped (P : list string) (s : string) : bool :=
  existsb (String.eqb s) P.

(** The edges into [k] whose source has not been popped yet. *)
Definition remaining (k : string) (P : list string) (E : list edge) : list edge :=
  filter (fun e => String.eqb (snd e) k && negb (popped P (fst e))) E.

(** In the sequence [P] of titles, the source of every edge into a
    member comes strictly before that member. *)
Definition Topo (E : list edge) (P : list string) : Prop :=
  forall i t, nth_error P i = Some t ->
  forall s, In (s, t) E -> exists j, (j < i)%nat /\ nth_error P j = Some s.

Lemma popped_In P s : popped P s = true <-> In s P.
Proof.
  unfold popped. rewrite existsb_exists. split.
  - intros (x & Hx & Heq). apply String.eqb_eq in Heq. now subst.
  - intros H. exists s. split; [assumption|apply String.eqb_refl].
Qed.

Lemma popped_app P c s : popped (P ++ [c]) s = popped P s || String.eqb s c.
Proof. unfold popped. rewrite existsb_app. simpl. now rewrite orb_false_r. Qed.

Lemma remaining_nil k E : remaining k [] E = into k E.
Proof.
  unfold remaining, into. apply filter_ext. intros e. simpl. now rewrite andb_true_r.
Qed.

Lemma remaining_pop k P c E :
  ~ In c P ->
  length (remaining k P E) =
  (length (remaining k (P ++ [c]) E) + count_occ string_dec (out_of c E) k)%nat.
Proof.
  intros Hc. unfold remaining, out_of.
  induction E as [|[s t] E IH]; [reflexivity|]. cbn [filter fst snd].
  rewrite popped_app.
  destruct (String.eqb s c) eqn:Esc.
  - apply String.eqb_eq in Esc. subst s.
    assert (Hp : popped P c = false).
    { destruct (popped P c) eqn:Ep; [|reflexivity]. apply popped_In in Ep. contradiction. }
    rewrite Hp. cbn [negb orb andb map snd]. rewrite andb_false_r.
    destruct (String.eqb t k) eqn:Etk; cbn [andb length].
    + apply String.eqb_eq in Etk. subst t. rewrite count_occ_cons_eq by reflexivity. lia.
    + apply String.eqb_neq in Etk. rewrite count_occ_cons_neq by assumption. exact IH.
  - rewrite orb_false_r.
    destruct (String.eqb t k && negb (popped P s)); cbn [length]; lia.
Qed.

Lemma In_get_NoDup {V} (d : PyDict.t V) k v :
  NoDup (PyDict.keys d) -> In (k, v) d -> PyDict.get d k = Some v.
Proof.
  induction d as [|[k0 v0] d IH]; simpl; [tauto|].
  intros Hnd [Heq|Hin].
  - inversion Heq; subst. now rewrite String.eqb_refl.
  - inversion Hnd as [|? ? Hnin Hnd']; subst.
    destruct (String.eqb k0 k) eqn:Ek; [|auto].
    apply String.eqb_eq in Ek. subst. exfalso. apply Hnin.
    change k with (fst (k, v)). now apply in_map.
Qed.

Section Loop.

Variables (tasks : list Task.t) (tm : PyDict.t nat)
  (graph : PyDict.t (list string)) (E : list edge) (K : list string).

Hypothesis Hgraph : forall k, In k K -> PyDict.get graph k = Some (out_of k E).
Hypothesis HE : forall s t, In (s, t) E -> In s K /\ In t K.
Hypothesis Htm : forall k, In k K ->
  exists r t, PyDict.get tm k = Some r /\ nth_error tasks r = Some t.

(** The loop invariant: [P] are the titles popped so far, in order. *)
Record Inv (in_degree : PyDict.t Z) (queue P : list string) : Prop := {
  inv_keys : PyDict.keys in_degree = K;
  inv_nodup : NoDup (P ++ queue);
  inv_zero : forall x, In x (P ++ queue) ->
    exists v, PyDict.get in_degree x = Some v /\ v <= 0;
  inv_ready : forall k v, PyDict.get in_degree k = Some v -> v <= 0 ->
    In k (P ++ queue);
  inv_count : forall k, In k K ->
    PyDict.get in_degree k = Some (Z.of_nat (length (remaining k P E)));
  inv_topo : Topo E P
}.

Lemma relax_spec nbrs : forall in_degree queue P,
  (forall n, In n nbrs -> In n (PyDict.keys in_degree)) ->
  NoDup (P ++ queue) ->
  (forall x, In x (P ++ queue) -> exists v, PyDict.get in_degree x = Some v /\ v <= 0) ->
  (forall k v, PyDict.get in_degree k = Some v -> v <= 0 -> In k (P ++ queue)) ->
  exists in_degree' queue',
    relax nbrs in_degree queue = Ok (in_degree', queue') /\
    PyDict.keys in_degree' = PyDict.keys in_degree /\
    NoDup (P ++ queue') /\
    (forall x, In x (P ++ queue') ->
       exists v, PyDict.get in_degree' x = Some v /\ v <= 0) /\
    (forall k v, PyDict.get in_degree' k = Some v -> v <= 0 -> In k (P ++ queue')) /\
    (forall k v, PyDict.get in_degree k = Some v ->
       PyDict.get in_degree' k = Some (v - Z.of_nat (count_occ string_dec nbrs k))).
Proof.
  induction nbrs as [|n rest IH]; intros ind queue P Hk Hnd Hz Hr; simpl.
  - exists ind, queue. repeat (split; [solve [auto]|]).
    intros k v Hv. rewrite Hv. f_equal. lia.
  - destruct (keys_get ind n) as [v Hv]; [apply Hk; now left|].
    unfold lookup. rewrite Hv. simpl.
    set (ind1 := PyDict.set ind n (v - 1)).
    assert (Hkeys1 : PyDict.keys ind1 = PyDict.keys ind).
    { apply keys_set_present. eapply get_Some_keys; eauto. }
    assert (Hget1 : forall k, PyDict.get ind1 k =
                         if String.eqb n k then Some (v - 1) else PyDict.get ind k).
    { intros k. apply get_set. }
    assert (Hcount : forall ind' : PyDict.t Z,
      (forall k w, PyDict.get ind1 k = Some w ->
         PyDict.get ind' k = Some (w - Z.of_nat (count_occ string_dec rest k))) ->
      forall k w, PyDict.get ind k = Some w ->
        PyDict.get ind' k = Some (w - Z.of_nat (count_occ string_dec (n :: rest) k)) ).
    { intros ind' H k w Hw. specialize (H k). rewrite Hget1 in H.
      destruct (String.eqb n k) eqn:Enk.
      - apply String.eqb_eq in Enk. subst k. rewrite count_occ_cons_eq by reflexivity.
        rewrite (H _ eq_refl). f_equal. rewrite Hv in Hw. inversion Hw. lia.
      - apply String.eqb_neq in Enk. rewrite count_occ_cons_neq by assumption. auto. }
    destruct (v - 1 =? 0) eqn:Ez.
    + apply Z.eqb_eq in Ez.
      destruct (IH ind1 (queue ++ [n]) P) as (ind' & q' & Hrun & Hk' & Hnd' & Hz' & Hr' & Hc').
      * intros m Hm. rewrite Hkeys1. apply Hk. now right.
      * rewrite app_assoc.
        apply (Permutation_NoDup (l := n :: (P ++ queue))); [apply Permutation_cons_append|].
        constructor; [|assumption]. intros Hin. destruct (Hz n Hin) as (v' & Hv' & Hle).
        rewrite Hv in Hv'. inversion Hv'. lia.
      * intros x Hx. rewrite Hget1. destruct (String.eqb n x) eqn:Enx.
        -- exists (v - 1). split; [reflexivity|lia].
        -- apply Hz. rewrite app_assoc in Hx. apply in_app_or in Hx as [Hx|[<-|[]]]; [assumption|].
           now rewrite String.eqb_refl in Enx.
      * intros k w Hw Hle. rewrite Hget1 in Hw. rewrite app_assoc. apply in_or_app.
        destruct (String.eqb n k) eqn:Enk.
        -- apply String.eqb_eq in Enk. subst k. right. now left.
        -- left. eapply Hr; eauto.
      * exists ind', q'. split; [exact Hrun|]. split; [congruence|].
        split; [assumption|]. split; [assumption|]. split; [assumption|].
        now apply Hcount.
    + apply Z.eqb_neq in Ez.
      destruct (IH ind1 queue P) as (ind' & q' & Hrun & Hk' & Hnd' & Hz' & Hr' & Hc').
      * intros m Hm. rewrite Hkeys1. apply Hk. now right.
      * assumption.
      * intros x Hx. rewrite Hget1. destruct (String.eqb n x) eqn:Enx.
        -- apply String.eqb_eq in Enx. subst x. destruct (Hz n Hx) as (v' & Hv' & Hle).
           rewrite Hv in Hv'. inversion Hv'; subst v'. exists (v - 1). split; [reflexivity|lia].
        -- now apply Hz.
      * intros k w Hw Hle. rewrite Hget1 in Hw. destruct (String.eqb n k) eqn:Enk.
        -- apply String.eqb_eq in Enk. subst k. inversion Hw; subst w.
           apply (Hr n v); [assumption|lia].
        -- eapply Hr; eauto.
      * exists ind', q'. split; [exact Hrun|]. split; [congruence|].
        split; [assumption|]. split; [assumption|]. split; [assumption|].
        now apply Hcount.
Qed.

Lemma priority_keys_Ok queue :
  (forall x, In x queue -> In x K) ->
  exists ks, mapM (priority_key tasks tm) queue = Ok ks /\ length ks = length queue.
Proof.
  induction queue as [|x queue IH]; intros Hq; simpl.
  - exists []. auto.
  - destruct (Htm x) as (r & t & Hr & Ht); [apply Hq; now left|].
    destruct IH as (ks & Hks & Hlen); [intros y Hy; apply Hq; now right|].
    unfold priority_key at 1, lookup, deref. rewrite Hr. simpl. rewrite Ht. simpl.
    rewrite Hks. simpl. exists (Task.priority t :: ks). simpl. auto.
Qed.

Lemma sort_queue_spec queue :
  (forall x, In x queue -> In x K) ->
  exists q, sort_queue tasks tm queue = Ok q /\ Permutation q queue.
Proof.
  intros Hq. destruct (priority_keys_Ok queue Hq) as (ks & Hks & Hlen).
  unfold sort_queue. rewrite Hks. simpl. eexists. split; [reflexivity|].
  rewrite <- (map_snd_combine ks queue Hlen) at 2.
  apply Permutation_map, sort_by_key_perm.
Qed.

Lemma Topo_snoc P c :
  Topo E P -> (forall s, In (s, c) E -> In s P) -> Topo E (P ++ [c]).
Proof.
  intros HT Hc i t Hi s Hs.
  destruct (Nat.lt_ge_cases i (length P)) as [Hlt|Hge].
  - rewrite nth_error_app1 in Hi by assumption.
    destruct (HT i t Hi s Hs) as (j & Hj & Hnj). exists j. split; [assumption|].
    rewrite nth_error_app1; [assumption|lia].
  - rewrite nth_error_app2 in Hi by assumption.
    destruct (i - length P)%nat as [|m] eqn:Em; simpl in Hi.
    + inversion Hi; subst t. apply Hc in Hs. apply In_nth_error in Hs as [j Hj].
      assert (j < length P)%nat by (apply nth_error_Some; congruence).
      exists j. split; [lia|]. now rewrite nth_error_app1.
    + destruct m; discriminate.
Qed.

Lemma kahn_step_spec in_degree queue P sorted_tasks :
  Inv in_degree queue P -> queue <> [] ->
  exists in_degree' queue' c r,
    kahn_step tasks tm graph in_degree queue sorted_tasks
      = Ok (in_degree', queue', sorted_tasks ++ [r]) /\
    PyDict.get tm c = Some r /\ In c queue /\
    Inv in_degree' queue' (P ++ [c]).
Proof.
  intros [Hkeys Hnd Hz Hr Hcnt Htopo] Hne.
  assert (HqK : forall x, In x queue -> In x K).
  { intros x Hx. destruct (Hz x) as (v & Hv & _); [apply in_or_app; now right|].
    rewrite <- Hkeys. eapply get_Some_keys; eauto. }
  destruct (sort_queue_spec queue HqK) as (q & Hsort & Hperm).
  unfold kahn_step. rewrite Hsort. simpl.
  destruct q as [|c rest].
  { apply Permutation_nil in Hperm. contradiction. }
  assert (Hcq : In c queue).
  { eapply Permutation_in; [exact Hperm|now left]. }
  assert (HcK : In c K) by auto.
  destruct (Htm c HcK) as (r & t & Hr' & Ht).
  unfold lookup. rewrite Hr', (Hgraph c HcK). simpl.
  assert (Hperm' : Permutation ((P ++ [c]) ++ rest) (P ++ queue)).
  { rewrite <- app_assoc. simpl. now apply Permutation_app_head. }
  destruct (relax_spec (out_of c E) in_degree rest (P ++ [c]))
    as (ind' & q' & Hrun & Hk' & Hnd' & Hz' & Hrdy' & Hc').
  - intros n Hn. rewrite Hkeys. unfold out_of in Hn.
    apply in_map_iff in Hn as ([s t'] & <- & Hin). apply filter_In in Hin as [Hin _].
    now apply HE in Hin.
  - eapply Permutation_NoDup; [symmetry; exact Hperm'|assumption].
  - intros x Hx. apply Hz. eapply Permutation_in; [exact Hperm'|assumption].
  - intros k v Hv Hle. eapply Permutation_in; [symmetry; exact Hperm'|]. eauto.
  - rewrite Hrun. simpl. exists ind', q', c, r.
    split; [reflexivity|]. split; [assumption|]. split; [assumption|].
    assert (HcP : ~ In c P).
    { intros HcP. apply NoDup_remove_2 with (l := P) (l' := rest) (a := c).
      - eapply Permutation_NoDup; [|exact Hnd].
        symmetry. rewrite <- app_assoc in Hperm'. exact Hperm'.
      - apply in_or_app. now left. }
    constructor.
    + congruence.
    + assumption.
    + assumption.
    + assumption.
    + intros k Hk. rewrite (Hc' k _ (Hcnt k Hk)). f_equal.
      rewrite (remaining_pop k P c E HcP). lia.
    + apply Topo_snoc; [assumption|]. intros s Hs.
      destruct (Hz c) as (v & Hv & Hle); [apply in_or_app; now right|].
      rewrite (Hcnt c HcK) in Hv. inversion Hv as [Hv'].
      assert (Hnil : remaining c P E = []).
      { destruct (remaining c P E); [reflexivity|]. simpl in Hv'. lia. }
      destruct (popped P s) eqn:Ep; [now apply popped_In|].
      exfalso. assert (Hin : In (s, c) (remaining c P E)).
      { apply filter_In. split; [assumption|]. simpl. now rewrite String.eqb_refl, Ep. }
      rewrite Hnil in Hin. exact Hin.
Qed.

(** From a state that satisfies the invariant, the loop ends within the
    fuel that is left for the titles not popped yet. *)
Lemma kahn_loop_spec fuel : forall in_degree queue P sorted_tasks,
  Inv in_degree queue P ->
  (length K <= fuel + length P)%nat ->
  Forall2 (fun p r => PyDict.get tm p = Some r) P sorted_tasks ->
  exists P' out in_degree',
    kahn_loop fuel tasks tm graph in_degree queue sorted_tasks = Ok out /\
    Forall2 (fun p r => PyDict.get tm p = Some r) P' out /\
    Inv in_degree' [] P' /\
    (exists rest, P' = P ++ rest).
Proof.
  induction fuel as [|fuel IH]; intros ind queue P sorted HI Hfuel HF.
  - destruct queue as [|x queue].
    + simpl. exists P, sorted, ind. split; [reflexivity|]. split; [assumption|].
      split; [assumption|]. exists []. now rewrite app_nil_r.
    + exfalso. destruct HI as [Hkeys Hnd Hz _ _ _].
      assert (Hincl : incl (P ++ x :: queue) K).
      { intros y Hy. destruct (Hz y Hy) as (v & Hv & _).
        rewrite <- Hkeys. eapply get_Some_keys; eauto. }
      apply NoDup_incl_length in Hincl; [|assumption].
      rewrite length_app in Hincl. simpl in Hincl, Hfuel. lia.
  - destruct queue as [|x queue].
    + simpl. exists P, sorted, ind. split; [reflexivity|]. split; [assumption|].
      split; [assumption|]. exists []. now rewrite app_nil_r.
    + destruct (kahn_step_spec ind (x :: queue) P sorted HI)
        as (ind' & q' & c & r & Hstep & Hr & Hc & HI'); [discriminate|].
      cbn [kahn_loop]. rewrite Hstep. simpl.
      destruct (IH ind' q' (P ++ [c]) (sorted ++ [r]) HI')
        as (P' & out & indf & Hrun & HF' & HIf & rest & Hrest).
      * rewrite length_app. simpl. lia.
      * apply Forall2_app; [assumption|]. constructor; [assumption|constructor].
      * exists P', out, indf. split; [exact Hrun|]. split; [assumption|].
        split; [assumption|]. exists ([c] ++ rest). now rewrite app_assoc.
Qed.

End Loop.

(** The state in which [sort_tasks_by_dependencies] enters its loop
    satisfies the invariant. *)
Lemma initial_Inv (E : list edge) (in_degree : PyDict.t Z)
  (graph : PyDict.t (list string)) :
  Rep E (in_degree, graph) -> NoDup (PyDict.keys in_degree) ->
  Inv E (PyDict.keys in_degree) in_degree (initial_queue in_degree) [].
Proof.
  intros [Hk HR] Hnd. simpl in *.
  assert (Hq : forall x, In x (initial_queue in_degree) <-> PyDict.get in_degree x = Some 0).
  { intros x. unfold initial_queue. rewrite in_map_iff. split.
    - intros ([k v] & <- & Hin). apply filter_In in Hin as [Hin Hv]. simpl in *.
      apply Z.eqb_eq in Hv. subst v. now apply In_get_NoDup.
    - intros Hx. exists (x, 0). split; [reflexivity|]. apply filter_In. split; [|reflexivity].
      clear - Hx. induction in_degree as [|[k v] d IH]; simpl in *; [discriminate|].
      destruct (String.eqb k x) eqn:Ek.
      + apply String.eqb_eq in Ek. inversion Hx. subst. now left.
      + right. auto. }
  constructor; simpl.
  - reflexivity.
  - unfold initial_queue. clear - Hnd. unfold PyDict.keys in Hnd.
    induction in_degree as [|[k v] d IH]; simpl in *; [constructor|].
    inversion Hnd as [|? ? Hnin Hnd']; subst.
    destruct (v =? 0); simpl; [|auto]. constructor; [|auto].
    intros Hin. apply Hnin. apply in_map_iff in Hin as (kv & <- & Hin).
    apply filter_In in Hin as [Hin _]. now apply in_map.
  - intros x Hx. apply Hq in Hx. exists 0. split; [assumption|lia].
  - intros k v Hv Hle. apply Hq.
    destruct (HR k) as [Hi _]; [eapply get_Some_keys; eauto|].
    rewrite Hi in Hv. inversion Hv. subst v. rewrite Hi. f_equal. lia.
  - intros k Hk'. destruct (HR k Hk') as [Hi _]. now rewrite remaining_nil.
  - intros i t Hi. destruct i; discriminate.
Qed.

End SchedulerFacts.

(** ** Theorems on the scheduler and on eligibility *)

Module SchedulerTheorems.

Import TaskManager PyDictFacts ResolutionFacts GraphFacts SortFacts SchedulerFacts.

Lemma Forall2_nth_error_l {A B} (R : A -> B -> Prop) l1 l2 :
  Forall2 R l1 l2 ->
  forall i y, nth_error l2 i = Some y -> exists x, nth_error l1 i = Some x /\ R x y.
Proof.
  induction 1 as [|x y l1 l2 Hxy HF IH]; intros [|i] z Hz; simpl in *; try discriminate.
  - inversion Hz; subst. eauto.
  - eauto.
Qed.

Lemma Forall2_nth_error_r {A B} (R : A -> B -> Prop) l1 l2 :
  Forall2 R l1 l2 ->
  forall i x, nth_error l1 i = Some x -> exists y, nth_error l2 i = Some y /\ R x y.
Proof.
  induction 1 as [|x y l1 l2 Hxy HF IH]; intros [|i] z Hz; simpl in *; try discriminate.
  - inversion Hz; subst. eauto.
  - eauto.
Qed.

(** A run of [sort_tasks_by_dependencies]: it returns, and its output
    is the image under [task_map] of a sequence [P] of distinct titles
    that respects the edges. *)
Lemma sort_tasks_by_dependencies_run tasks :
  exists P out in_degree K,
    sort_tasks_by_dependencies tasks = Ok out /\
    Forall2 (fun p r => PyDict.get (task_map_of tasks) p = Some r) P out /\
    (forall k, In k K <-> resolves tasks k) /\
    Inv (edges_of (task_map_of tasks) tasks) K in_degree [] P.
Proof.
  destruct (build_graph_spec tasks) as (ind & g & Hbuild & HR & Hnd & Hkeys).
  unfold sort_tasks_by_dependencies. rewrite Hbuild. simpl.
  set (tm := task_map_of tasks). set (E := edges_of tm tasks).
  destruct (kahn_loop_spec tasks tm g E (PyDict.keys ind)) with
    (fuel := length tasks) (in_degree := ind) (queue := initial_queue ind)
    (P := @nil string) (sorted_tasks := @nil nat)
    as (P & out & indf & Hrun & HF & HI & _).
  - intros k Hk. destruct HR as [_ HR]. now apply HR.
  - intros s t Hin. apply In_edges_of in Hin as (x & Hx & Ht & Hs & Hm).
    split; apply Hkeys.
    + now apply task_map_of_mem.
    + exists x. auto.
  - intros k Hk. apply Hkeys, task_map_of_mem, mem_keys, keys_get in Hk as [r Er].
    pose proof Er as Hlast. apply task_map_of_last in Hlast as (t & Hn & _). eauto.
  - eapply initial_Inv; eauto.
  - simpl. rewrite Nat.add_0_r.
    transitivity (length (map Task.title tasks)); [|now rewrite length_map].
    apply NoDup_incl_length; [assumption|]. intros k Hk.
    apply Hkeys in Hk as (u & Hu & <-). now apply in_map.
  - constructor.
  - exists P, out, indf, (PyDict.keys ind). auto.
Qed.

(** The schedule holds valid references, and no more of them than
    there are tasks. *)
Lemma sort_tasks_by_dependencies_refs tasks :
  exists out,
    sort_tasks_by_dependencies tasks = Ok out /\
    Forall (fun r => (r < length tasks)%nat) out /\
    (length out <= length tasks)%nat.
Proof.
  destruct (sort_tasks_by_dependencies_run tasks) as (P & out & ind & K & Hrun & HF & HK & HI).
  exists out. split; [exact Hrun|]. split.
  - apply Forall_forall. intros r Hr. apply In_nth_error in Hr as [j Hj].
    destruct (Forall2_nth_error_l _ _ _ HF j r Hj) as (p & _ & Hp).
    apply task_map_of_last in Hp as (t & Hn & _). apply nth_error_Some. congruence.
  - rewrite <- (Forall2_length HF).
    transitivity (length (map Task.title tasks)); [|now rewrite length_map].
    apply NoDup_incl_length.
    + pose proof (inv_nodup _ _ _ _ _ HI) as Hnd. now rewrite app_nil_r in Hnd.
    + intros p Hp. destruct (inv_zero _ _ _ _ _ HI p) as (v & Hv & _).
      { rewrite app_nil_r. exact Hp. }
      apply get_Some_keys in Hv. rewrite (inv_keys _ _ _ _ _ HI) in Hv.
      apply HK in Hv as (u & Hu & <-). now apply in_map.
Qed.

(** [can_assign_task] looks a dependency title up as the first task
    carrying it. *)
Lemma can_assign_task_first tasks task_status t :
  can_assign_task tasks task_status t = true <->
  forall dep i dt, In dep (Task.dependencies t) ->
    first_with_title tasks dep i dt ->
    status_or_default task_status (Task.id dt) = completed.
Proof.
  unfold can_assign_task. induction (Task.dependencies t) as [|d deps IH]; simpl.
  - split; [intros _ dep i dt []|reflexivity].
  - destruct (find_by_title tasks d) as [dt|] eqn:Ef.
    + destruct (Status_eqb (status_or_default task_status (Task.id dt)) completed) eqn:Es.
      * apply Status_eqb_eq in Es. rewrite IH. split.
        -- intros H dep i u [<-|Hin] Hfirst; [|eauto].
           assert (Hu : find_by_title tasks d = Some u) by (apply find_by_title_first; eauto).
           congruence.
        -- intros H dep i u Hin. apply H. now right.
      * split; [discriminate|]. intros H.
        apply find_by_title_first in Ef as [i Hi].
        rewrite (H d i dt (or_introl eq_refl) Hi) in Es. discriminate.
    + rewrite IH. split.
      * intros H dep i u [<-|Hin] Hfirst; [|eauto].
        assert (Hu : find_by_title tasks d = Some u) by (apply find_by_title_first; eauto).
        congruence.
      * intros H dep i u Hin. apply H. now right.
Qed.

(** The status that [can_assign_task] reads for an identifier is
    [completed] exactly when the tracking table holds an entry for it
    whose status is [completed]. *)
Lemma status_or_default_completed task_status id :
  status_or_default task_status id = completed <->
  exists tr, PyDict.get task_status id = Some tr /\ Tracking.status tr = completed.
Proof.
  unfold status_or_default. destruct (PyDict.get task_status id) as [tr|].
  - split; [eauto|]. now intros (tr' & [= <-] & H).
  - split; [discriminate|]. now intros (tr' & H & _).
Qed.

(** C3. [can_assign_task(t)] is true exactly when, for every dependency
    title of [t] that resolves to a task of the set (the first task
    carrying it), the tracking table holds an entry for that task's
    identifier, with status [completed]; so a resolved dependency that
    is not tracked blocks just as one that is tracked with another
    status. A title that matches no task does not block, so a task
    whose dependencies are all unresolved titles can be assigned at
    once. *)
Theorem can_assign_task_iff tasks task_status t :
  (can_assign_task tasks task_status t = true <->
   forall dep i dt, In dep (Task.dependencies t) ->
     first_with_title tasks dep i dt ->
     exists tr, PyDict.get task_status (Task.id dt) = Some tr /\
                Tracking.status tr = completed) /\
  ((forall dep, In dep (Task.dependencies t) -> ~ resolves tasks dep) ->
   can_assign_task tasks task_status t = true).
Proof.
  split.
  - rewrite can_assign_task_first. split; intros H dep i dt Hin Hfirst.
    + apply status_or_default_completed. eauto.
    + apply status_or_default_completed. eauto.
  - intros Hnone. apply can_assign_task_first. intros dep i dt Hin (Hn & Ht & _).
    exfalso. apply (Hnone dep Hin). exists dt.
    split; [eapply nth_error_In; eauto|assumption].
Qed.

(** Scenario C of the design document: a task whose only dependency
    matches no task can be assigned at once. *)
Example scenario_C :
  can_assign_task [task "task_1" "D" "developer" 5 ["ghost"]] PyDict.empty
    (task "task_1" "D" "developer" 5 ["ghost"]) = true.
Proof. reflexivity. Qed.

(** The test of the repository for [can_assign_task]. *)
Example test_can_assign_task :
  let tasks :=
    [ task "task_1" "task_a" "developer" 5 [];
      task "task_2" "task_b" "developer" 5 ["task_a"];
      task "task_3" "task_c" "developer" 5 ["task_a"; "task_b"] ] in
  let task_status :=
    [ ("task_1", Tracking.mk completed "developer");
      ("task_2", Tracking.mk in_progress "developer");
      ("task_3", Tracking.mk not_started "developer") ] in
  can_assign_task tasks task_status (task "" "" "" 5 []) = true /\
  can_assign_task tasks task_status (task "" "" "" 5 ["task_a"]) = true /\
  can_assign_task tasks task_status (task "" "" "" 5 ["task_a"; "task_b"]) = false.
Proof. repeat split. Qed.

(** *** Duplicate titles *)

(** Two tasks titled [x], and a task that depends on that title. *)
Definition dup_titles : list Task.t :=
  [ task "task_1" "x" "developer" 1 [];
    task "task_2" "x" "developer" 2 [];
    task "task_3" "y" "developer" 3 ["x"] ].

(** *** Priority within the ready set *)






(** *** Acyclic task sets are scheduled in full *)

(** [s] is a dependency title of a task titled [t], and it resolves. *)
Definition depends (tasks : list Task.t) (s t : string) : Prop :=
  exists x, In x tasks /\ Task.title x = t /\ In s (Task.dependencies x) /\
            resolves tasks s.

(** No title depends on itself through a chain of dependencies. *)
Definition acyclic (tasks : list Task.t) : Prop :=
  forall t, ~ clos_trans string (depends tasks) t t.

Fixpoint chain (R : string -> string -> Prop) (l : list string) : Prop :=
  match l with
  | a :: l' =>
      match l' with
      | b :: _ => R a b /\ chain R l'
      | [] => True
      end
  | [] => True
  end.

Lemma chain_reach R l : forall a b,
  chain R (a :: l) -> In b l -> clos_trans string R a b.
Proof.
  induction l as [|c l IH]; intros a b Hc Hb; [destruct Hb|].
  destruct Hc as [Hac Hc]. destruct Hb as [<-|Hb].
  - now apply t_step.
  - eapply t_trans; [apply t_step; exact Hac|]. now apply IH.
Qed.

Lemma chain_cycle R l :
  chain R l -> ~ NoDup l -> exists x, clos_trans string R x x.
Proof.
  induction l as [|a l IH]; intros Hc Hnd.
  - exfalso. apply Hnd. constructor.
  - destruct (in_dec string_dec a l) as [Hin|Hnin].
    + exists a. now apply (chain_reach R l).
    + apply IH.
      * destruct l; [exact I|apply Hc].
      * intros Hl. apply Hnd. now constructor.
Qed.

Lemma chain_grow R (U : string -> Prop) :
  (forall u, U u -> exists s, U s /\ R s u) ->
  forall n u, U u ->
  exists l, length l = S n /\ Forall U l /\ chain R l.
Proof.
  intros Hpred. induction n as [|n IH]; intros u Hu.
  - exists [u]. repeat split; auto.
  - destruct (IH u Hu) as (l & Hlen & HU & Hc).
    destruct l as [|x l]; [discriminate|].
    inversion HU as [|? ? Hx HUl]; subst.
    destruct (Hpred x Hx) as (s & Hs & Hsx).
    exists (s :: x :: l). split; [simpl in *; lia|]. split; [constructor; assumption|].
    split; assumption.
Qed.

Lemma depends_edges tasks s t :
  depends tasks s t <-> In (s, t) (edges_of (task_map_of tasks) tasks).
Proof.
  rewrite In_edges_of. unfold depends. split.
  - intros (x & Hx & Ht & Hs & Hr). exists x. rewrite task_map_of_mem. auto.
  - intros (x & Hx & Ht & Hs & Hm). exists x. rewrite <- task_map_of_mem. auto.
Qed.

(** When the loop has ended, a title that was not popped has a
    dependency that was not popped either. *)
Lemma unpopped_has_unpopped_dependency tasks K in_degree P k :
  Inv (edges_of (task_map_of tasks) tasks) K in_degree [] P ->
  In k K -> ~ In k P ->
  exists s, ~ In s P /\ depends tasks s k.
Proof.
  intros HI Hk HkP.
  pose proof (inv_count _ _ _ _ _ HI k Hk) as Hcnt.
  destruct (remaining k P (edges_of (task_map_of tasks) tasks)) as [|[s t] rest] eqn:Er.
  - exfalso. apply HkP. pose proof (inv_ready _ _ _ _ _ HI k _ Hcnt) as Hin.
    rewrite app_nil_r in Hin. apply Hin. simpl. lia.
  - assert (Hin : In (s, t) (remaining k P (edges_of (task_map_of tasks) tasks))).
    { rewrite Er. now left. }
    apply filter_In in Hin as [Hin Hc]. simpl in Hc.
    apply andb_true_iff in Hc as [Htk Hp]. apply String.eqb_eq in Htk. subst t.
    exists s. split.
    + intros HsP. apply popped_In in HsP. rewrite HsP in Hp. discriminate.
    + now apply depends_edges.
Qed.

(** Every title of an acyclic task set is popped. *)
Lemma acyclic_all_popped tasks K in_degree P :
  acyclic tasks ->
  (forall k, In k K <-> resolves tasks k) ->
  Inv (edges_of (task_map_of tasks) tasks) K in_degree [] P ->
  forall k, In k K -> In k P.
Proof.
  intros Hac HK HI k Hk.
  destruct (in_dec string_dec k P) as [Hin|Hnin]; [assumption|]. exfalso.
  set (U := fun u => In u K /\ ~ In u P).
  destruct (chain_grow (depends tasks) U) with (n := length K) (u := k)
    as (l & Hlen & HU & Hc).
  - intros u [HuK HuP].
    destruct (unpopped_has_unpopped_dependency tasks K in_degree P u HI HuK HuP)
      as (s & HsP & Hdep).
    exists s. split; [|assumption]. split; [|assumption].
    apply HK. destruct Hdep as (_ & _ & _ & _ & Hr). exact Hr.
  - split; assumption.
  - destruct (chain_cycle (depends tasks) l Hc) as [x Hx].
    + intros Hnd. apply NoDup_incl_length with (l' := K) in Hnd; [lia|].
      intros u Hu. rewrite Forall_forall in HU. now apply HU.
    + exact (Hac x Hx).
Qed.

(** C2. [sort_tasks_by_dependencies] returns, and in its output every
    dependency title of a task that resolves to a task of the set is the
    title of a task strictly earlier in the output; the references of
    the output are valid. This holds for every task set. When the set
    is acyclic and its titles are distinct, the output holds every task
    exactly once, so it is a topological order of the whole set. *)
Theorem sort_tasks_by_dependencies_topological tasks :
  exists out,
    sort_tasks_by_dependencies tasks = Ok out /\
    Forall (fun r => exists t, nth_error tasks r = Some t) out /\
    (forall j r t, nth_error out j = Some r -> nth_error tasks r = Some t ->
     forall dep, In dep (Task.dependencies t) -> resolves tasks dep ->
     exists j' r' u,
       (j' < j)%nat /\ nth_error out j' = Some r' /\
       nth_error tasks r' = Some u /\ Task.title u = dep) /\
    (acyclic tasks -> NoDup (map Task.title tasks) ->
     Permutation out (seq 0 (length tasks))).
Proof.
  destruct (sort_tasks_by_dependencies_run tasks) as (P & out & ind & K & Hrun & HF & HK & HI).
  exists out. split; [exact Hrun|].
  assert (Hvalid : forall r, In r out -> exists p t,
            In p P /\ nth_error tasks r = Some t /\ last_with_title tasks p r t).
  { intros r Hr. apply In_nth_error in Hr as [j Hj].
    destruct (Forall2_nth_error_l _ _ _ HF j r Hj) as (p & Hpj & Hp).
    apply task_map_of_last in Hp as (t & Hlast). exists p, t.
    split; [eapply nth_error_In; eauto|]. split; [apply Hlast|exact Hlast]. }
  split; [|split].
  - apply Forall_forall. intros r Hr. destruct (Hvalid r Hr) as (p & t & _ & Ht & _). eauto.
  - intros j r t Hj Ht dep Hdep Hres.
    destruct (Forall2_nth_error_l _ _ _ HF j r Hj) as (p & Hpj & Hp).
    apply task_map_of_last in Hp as (t' & Hn & Htitle & _).
    assert (t' = t) by congruence. subst t'.
    assert (Hedge : In (dep, p) (edges_of (task_map_of tasks) tasks)).
    { apply In_edges_of. exists t. split; [eapply nth_error_In; eauto|].
      split; [assumption|]. split; [assumption|]. now apply task_map_of_mem. }
    destruct (inv_topo _ _ _ _ _ HI j p Hpj dep Hedge) as (j' & Hlt & Hj').
    destruct (Forall2_nth_error_r _ _ _ HF j' dep Hj') as (r' & Hr' & Hget).
    apply task_map_of_last in Hget as (u & Hu & Htu & _).
    exists j', r', u. auto.
  - intros Hac Hnd.
    assert (HndP : NoDup P).
    { pose proof (inv_nodup _ _ _ _ _ HI) as H. now rewrite app_nil_r in H. }
    apply NoDup_Permutation.
    + (* distinct titles are mapped to distinct references *)
      clear - HF HndP. induction HF as [|p r P out Hpr HF IH]; [constructor|].
      inversion HndP as [|? ? Hnin HndP']; subst. constructor; [|apply IH; assumption].
      intros Hin. apply Hnin. apply In_nth_error in Hin as [j Hj].
      destruct (Forall2_nth_error_l _ _ _ HF j r Hj) as (p' & Hp' & Hget).
      apply task_map_of_last in Hpr as (t & Hn & Ht & _).
      apply task_map_of_last in Hget as (t' & Hn' & Ht' & _).
      assert (Heq : p' = p) by congruence. rewrite <- Heq.
      exact (nth_error_In _ _ Hp').
    + apply seq_NoDup.
    + intros r. rewrite in_seq. split.
      * intros Hr. destruct (Hvalid r Hr) as (p & t & _ & Ht & _).
        split; [lia|]. simpl. apply nth_error_Some. congruence.
      * intros [_ Hr]. simpl in Hr.
        destruct (nth_error tasks r) as [t|] eqn:Et; [|apply nth_error_None in Et; lia].
        assert (HtK : In (Task.title t) K).
        { apply HK. exists t. split; [eapply nth_error_In; eauto|reflexivity]. }
        pose proof (acyclic_all_popped tasks K ind P Hac HK HI _ HtK) as HtP.
        apply In_nth_error in HtP as [j Hj].
        destruct (Forall2_nth_error_r _ _ _ HF j _ Hj) as (r' & Hr' & Hget).
        apply task_map_of_last in Hget as (t' & Hn' & Ht' & _).
        assert (r' = r); [|subst r'; eapply nth_error_In; eauto].
        apply (proj1 (NoDup_nth_error (map Task.title tasks)) Hnd).
        -- rewrite length_map. apply nth_error_Some. congruence.
        -- rewrite !nth_error_map, Hn', Et. simpl. congruence.
Qed.

(** Scenario A of the design document. *)
Example scenario_A :
  sort_tasks_by_dependencies
    [ task "task_1" "A" "developer" 2 [];
      task "task_2" "B" "developer" 1 ["A"];
      task "task_3" "C" "developer" 1 ["A"; "B"] ]
  = Ok [0; 1; 2]%nat.
Proof. reflexivity. Qed.

(** The test of the repository: the input order does not matter. *)
Example test_sort_tasks_by_dependencies :
  sort_tasks_by_dependencies
    [ task "task_1" "task_c" "developer" 1 ["task_a"; "task_b"];
      task "task_2" "task_a" "developer" 2 [];
      task "task_3" "task_b" "developer" 1 ["task_a"] ]
  = Ok [1; 2; 0]%nat.
Proof. reflexivity. Qed.

(** A cycle is left out of the schedule, silently. *)
Example cycle_is_left_out :
  sort_tasks_by_dependencies
    [ task "task_1" "a" "developer" 1 ["b"];
      task "task_2" "b" "developer" 1 ["a"];
      task "task_3" "c" "developer" 1 [] ]
  = Ok [2]%nat.
Proof. reflexivity. Qed.

(** A ranking of the titles that every dependency respects shows that a
    task set is acyclic. *)
Lemma ranked_acyclic tasks (rank : string -> nat) :
  (forall s t, depends tasks s t -> (rank s < rank t)%nat) -> acyclic tasks.
Proof.
  intros Hrank t Ht.
  assert (H : forall a b, clos_trans string (depends tasks) a b -> (rank a < rank b)%nat).
  { induction 1 as [a b Hab|a b c _ IH1 _ IH2]; [auto|lia]. }
  specialize (H t t Ht). lia.
Qed.

(** The task set of Scenario A is acyclic. *)
Example scenario_A_acyclic :
  acyclic [ task "task_1" "A" "developer" 2 [];
            task "task_2" "B" "developer" 1 ["A"];
            task "task_3" "C" "developer" 1 ["A"; "B"] ].
Proof.
  apply ranked_acyclic with
    (rank := fun s => if String.eqb s "A" then 0%nat
                      else if String.eqb s "B" then 1%nat else 2%nat).
  intros s t (x & Hx & <- & Hs & _).
  destruct Hx as [<-|[<-|[<-|[]]]]; simpl in Hs.
  - destruct Hs.
  - destruct Hs as [<-|[]]. simpl. lia.
  - destruct Hs as [<-|[<-|[]]]; simpl; lia.
Qed.

(** *** A task set in which every task is ready at the start *)





Section Flat.

Variables (tasks : list Task.t) (tm : PyDict.t nat)
  (graph : PyDict.t (list string)) (in_degree : PyDict.t Z)
  (prio : string -> Z) (ref_of : string -> nat).







End Flat.










End SchedulerTheorems.

(** ** The dispatcher: what a pass can change *)

Module DispatchFacts.

Import TaskManager PyDictFacts ResolutionFacts.

(** A task without its result: the part of a task that no method of
    the manager writes. *)
Definition erase (t : Task.t) : Task.t := Task.set_result JNull t.

(** The tracking entry of an identifier. *)
Definition entry (ts : PyDict.t Tracking.t) (id : string) : option Tracking.t :=
  PyDict.get ts id.

(** The identifier is tracked with status [s]. *)
Definition tracked (ts : PyDict.t Tracking.t) (id : string) (s : Status) : Prop :=
  exists tr, PyDict.get ts id = Some tr /\ Tracking.status tr = s.

Definition is_not_started (tr : Tracking.t) : bool :=
  Status_eqb (Tracking.status tr) not_started.

(** The number of tracking entries with status [not_started]. *)
Definition waiting (ts : PyDict.t Tracking.t) : nat :=
  length (filter (fun kv => is_not_started (snd kv)) ts).

Lemma waiting_set ts id tr tr' :
  PyDict.get ts id = Some tr ->
  (waiting (PyDict.set ts id tr') + (if is_not_started tr then 1 else 0)
   = waiting ts + (if is_not_started tr' then 1 else 0))%nat.
Proof.
  unfold waiting. induction ts as [|[k v] ts IH]; simpl; [discriminate|].
  destruct (String.eqb k id) eqn:Ek.
  - intros [= ->]. simpl. destruct (is_not_started tr), (is_not_started tr'); simpl; lia.
  - intros H. apply IH in H. simpl. destruct (is_not_started v); simpl; lia.
Qed.

Lemma waiting_le_length ts : (waiting ts <= length ts)%nat.
Proof. apply filter_length_le. Qed.

Lemma waiting_pos ts id tr :
  PyDict.get ts id = Some tr -> is_not_started tr = true -> (0 < waiting ts)%nat.
Proof.
  unfold waiting. induction ts as [|[k v] ts IH]; simpl; [discriminate|].
  destruct (String.eqb k id).
  - intros [= ->] ->. simpl. lia.
  - intros H1 H2. specialize (IH H1 H2). destruct (is_not_started v); simpl; lia.
Qed.

Lemma erase_update_nth r v l :
  map erase (update_nth r (Task.set_result v) l) = map erase l.
Proof.
  revert r. induction l as [|x l IH]; intros [|r]; simpl; try reflexivity.
  now rewrite IH.
Qed.

Lemma erase_nth_error l l' r t' :
  map erase l' = map erase l -> nth_error l' r = Some t' ->
  exists t, nth_error l r = Some t /\ erase t = erase t'.
Proof.
  intros Hmap Hn. apply (map_nth_error erase) in Hn. rewrite Hmap in Hn.
  rewrite nth_error_map in Hn. destruct (nth_error l r) as [t|]; [|discriminate].
  simpl in Hn. exists t. split; [reflexivity|congruence].
Qed.

Lemma erase_fields t t' :
  erase t = erase t' ->
  Task.id t = Task.id t' /\ Task.title t = Task.title t' /\
  Task.agent t = Task.agent t' /\ Task.dependencies t = Task.dependencies t' /\
  Task.priority t = Task.priority t' /\ Task.description t = Task.description t'.
Proof. destruct t, t'. unfold erase, Task.set_result. simpl. intros [=]. subst. auto 10. Qed.

Lemma erase_length l l' : map erase l' = map erase l -> length l' = length l.
Proof. intros H. apply (f_equal (@length _)) in H. now rewrite !length_map in H. Qed.

Lemma cons_eq_inv {A} (a b : A) l l' : a :: l = b :: l' -> a = b /\ l = l'.
Proof. intros [= -> ->]. auto. Qed.

Lemma find_by_title_erase l l' d :
  map erase l' = map erase l ->
  option_map erase (find_by_title l' d) = option_map erase (find_by_title l d).
Proof.
  unfold find_by_title. revert l'.
  induction l as [|x l IH]; intros [|x' l']; simpl; try discriminate; [reflexivity|].
  intros H. apply cons_eq_inv in H as [Hx Hl].
  pose proof (erase_fields _ _ Hx) as (_ & Ht & _). rewrite Ht.
  destruct (String.eqb (Task.title x) d); simpl; [congruence|auto].
Qed.

Section WithNetwork.

Context {W : Type}.

Implicit Types (st : State W).

(** What the dispatcher may do to the state between two points of a
    pass: tasks change in their result only, the registry and the set
    of tracked identifiers stay, a tracking entry changes in its status
    only and only to [assigned], [in_progress] or [completed], and the
    log of calls grows. *)
Record Pass st st' : Prop := {
  p_tasks : map erase (tasks st') = map erase (tasks st);
  p_agents : agents st' = agents st;
  p_keys : PyDict.keys (task_status st') = PyDict.keys (task_status st);
  p_waiting : (waiting (task_status st') <= waiting (task_status st))%nat;
  p_entries : forall id tr',
    PyDict.get (task_status st') id = Some tr' ->
    PyDict.get (task_status st) id = Some tr' \/
    exists tr, PyDict.get (task_status st) id = Some tr /\
      Tracking.assigned_agent tr' = Tracking.assigned_agent tr /\
      (Tracking.status tr' = assigned \/ Tracking.status tr' = in_progress \/
       Tracking.status tr' = completed);
  p_sent : exists new, sent st' = sent st ++ new
}.

Lemma Pass_refl st : Pass st st.
Proof.
  constructor; auto. exists []. now rewrite app_nil_r.
Qed.

Lemma Pass_trans st1 st2 st3 : Pass st1 st2 -> Pass st2 st3 -> Pass st1 st3.
Proof.
  intros [T1 A1 K1 W1 E1 [n1 S1]] [T2 A2 K2 W2 E2 [n2 S2]]. constructor.
  - congruence.
  - congruence.
  - congruence.
  - lia.
  - intros id tr3 H3. destruct (E2 id tr3 H3) as [H2|(tr2 & H2 & Ha & Hs)].
    + auto.
    + destruct (E1 id tr2 H2) as [H1|(tr1 & H1 & Ha1 & Hs1)].
      * right. exists tr2. auto.
      * right. exists tr1. split; [assumption|]. split; [congruence|assumption].
  - exists (n1 ++ n2). rewrite S2, S1. now rewrite app_assoc.
Qed.

Lemma Pass_record_call r st : Pass st (record_call r st).
Proof. constructor; simpl; auto. exists [r]. reflexivity. Qed.

Lemma Pass_with_world w st : Pass st (with_world w st).
Proof. constructor; simpl; auto. exists []. now rewrite app_nil_r. Qed.

Lemma Pass_set_task_result r v st : Pass st (set_task_result r v st).
Proof.
  constructor; simpl; auto.
  - apply erase_update_nth.
  - exists []. now rewrite app_nil_r.
Qed.

(** [set_status] on a tracked identifier returns. *)
Lemma set_status_Done id s st tr :
  PyDict.get (task_status st) id = Some tr ->
  set_status id s st =
  Done (with_task_status
          (PyDict.set (task_status st) id (Tracking.set_status s tr)) st).
Proof. intros H. unfold set_status. now rewrite H. Qed.

Lemma Pass_set_status id s st tr :
  PyDict.get (task_status st) id = Some tr ->
  s = assigned \/ s = in_progress \/ s = completed ->
  Pass st (with_task_status
             (PyDict.set (task_status st) id (Tracking.set_status s tr)) st).
Proof.
  intros Hget Hs. constructor; simpl; auto.
  - apply keys_set_present. eapply get_Some_keys; eauto.
  - pose proof (waiting_set _ _ _ (Tracking.set_status s tr) Hget) as Hw.
    assert (Hns : is_not_started (Tracking.set_status s tr) = false).
    { unfold is_not_started. simpl. destruct Hs as [->|[->| ->]]; reflexivity. }
    rewrite Hns in Hw. destruct (is_not_started tr); lia.
  - intros k tr'. rewrite get_set. destruct (String.eqb id k) eqn:Ek.
    + apply String.eqb_eq in Ek. subst k. intros [= <-]. right. exists tr. auto.
    + auto.
  - exists []. now rewrite app_nil_r.
Qed.

(** Entries tracked as [completed] stay so. *)
Definition Keeps st st' : Prop :=
  forall id, tracked (task_status st) id completed ->
             tracked (task_status st') id completed.

(** The same, but for the identifier [x]. *)
Definition KeepsExcept (x : string) st st' : Prop :=
  forall id, id <> x -> tracked (task_status st) id completed ->
             tracked (task_status st') id completed.

(** Every tracking entry is [not_started] or [assigned], but for the
    identifiers in [X]. *)
Definition Settled (X : list string) st : Prop :=
  forall id tr, PyDict.get (task_status st) id = Some tr ->
    In id X \/ Tracking.status tr = not_started \/ Tracking.status tr = assigned.

(** Between [st] and [st'] the calls [new] of [send_task_to_agent] were
    made, and only tracking entries of tasks among them have changed. *)
Definition Writes st st' (new : list nat) : Prop :=
  sent st' = sent st ++ new /\
  forall id, PyDict.get (task_status st') id <> PyDict.get (task_status st) id ->
    exists r t, In r new /\ nth_error (tasks st) r = Some t /\ Task.id t = id.

Lemma entry_eq_dec (a b : option Tracking.t) : {a = b} + {a <> b}.
Proof. repeat decide equality. Qed.

Lemma Keeps_refl st : Keeps st st.
Proof. intros id H. exact H. Qed.

Lemma Keeps_trans st1 st2 st3 : Keeps st1 st2 -> Keeps st2 st3 -> Keeps st1 st3.
Proof. intros H1 H2 id H. auto. Qed.

Lemma Writes_refl st : Writes st st [].
Proof. split; [now rewrite app_nil_r|]. intros id H. congruence. Qed.

Lemma Writes_trans st1 st2 st3 n1 n2 :
  map erase (tasks st2) = map erase (tasks st1) ->
  Writes st1 st2 n1 -> Writes st2 st3 n2 -> Writes st1 st3 (n1 ++ n2).
Proof.
  intros He [S1 W1] [S2 W2]. split.
  - rewrite S2, S1. now rewrite app_assoc.
  - intros id Hne.
    destruct (entry_eq_dec (PyDict.get (task_status st3) id) (PyDict.get (task_status st2) id))
      as [Heq|Hne2].
    + rewrite Heq in Hne. destruct (W1 id Hne) as (r & t & Hr & Ht & Hid).
      exists r, t. split; [apply in_or_app; now left|auto].
    + destruct (W2 id Hne2) as (r & t2 & Hr & Ht & Hid).
      destruct (erase_nth_error _ _ _ _ He Ht) as (t & Ht1 & Het).
      exists r, t. split; [apply in_or_app; now right|]. split; [assumption|].
      apply erase_fields in Het as (Hi & _). congruence.
Qed.

Lemma tracked_functional ts id s s' : tracked ts id s -> tracked ts id s' -> s = s'.
Proof. intros (tr & H1 & <-) (tr' & H2 & <-). congruence. Qed.

(** A state that differs from [st] in the world and in one more call. *)
Lemma send_end_untouched r st stX task :
  nth_error (tasks st) r = Some task ->
  tasks stX = tasks st -> task_status stX = task_status st ->
  agents stX = agents st -> sent stX = sent st ++ [r] ->
  Pass st stX /\ Writes st stX [r] /\ KeepsExcept (Task.id task) st stX /\
  (forall X, Settled X st -> Settled (Task.id task :: X) stX).
Proof.
  intros Hn HT HS HA Hsent. split; [|split; [|split]].
  - constructor; try congruence.
    + rewrite HS. lia.
    + intros id tr'. rewrite HS. auto.
    + eauto.
  - split; [assumption|]. intros id Hne. rewrite HS in Hne. congruence.
  - intros id _. now rewrite HS.
  - intros X HX id tr. rewrite HS. intros Hg.
    destruct (HX id tr Hg) as [H|H]; [left; now right|now right].
Qed.

(** A state that differs from [st] in the world, in one more call and
    in the status of the task called. *)
Lemma send_end_status r st stX task tr s :
  nth_error (tasks st) r = Some task ->
  PyDict.get (task_status st) (Task.id task) = Some tr ->
  s = in_progress \/ s = completed ->
  map erase (tasks stX) = map erase (tasks st) ->
  task_status stX
    = PyDict.set (task_status st) (Task.id task) (Tracking.set_status s tr) ->
  agents stX = agents st -> sent stX = sent st ++ [r] ->
  Pass st stX /\ Writes st stX [r] /\ KeepsExcept (Task.id task) st stX /\
  (forall X, Settled X st -> Settled (Task.id task :: X) stX).
Proof.
  intros Hn Hget Hs HT HS HA Hsent.
  assert (HP : Pass st (with_task_status
             (PyDict.set (task_status st) (Task.id task) (Tracking.set_status s tr)) st)).
  { apply Pass_set_status; [assumption|tauto]. }
  destruct HP as [_ _ PK PW PE _]. simpl in *.
  split; [|split; [|split]].
  - constructor; try congruence; rewrite ?HS; auto. eauto.
  - split; [assumption|]. intros id Hne. exists r, task.
    split; [now left|]. split; [assumption|].
    destruct (string_dec (Task.id task) id) as [Heq|Hneq]; [assumption|].
    rewrite HS, get_set_other in Hne by assumption. congruence.
  - intros id Hne (tr0 & H0 & Hc). exists tr0. rewrite HS, get_set_other by congruence. auto.
  - intros X HX id tr0. rewrite HS, get_set.
    destruct (String.eqb (Task.id task) id) eqn:Eid.
    + apply String.eqb_eq in Eid. left. now left.
    + intros Hg. destruct (HX id tr0 Hg) as [H|H]; [left; now right|now right].
Qed.

Lemma NoDup_ids_inj (l : list Task.t) r r' t t' :
  NoDup (map Task.id l) ->
  nth_error l r = Some t -> nth_error l r' = Some t' ->
  Task.id t = Task.id t' -> r = r'.
Proof.
  intros Hnd Hr Hr' Hid.
  apply (proj1 (NoDup_nth_error (map Task.id l)) Hnd).
  - rewrite length_map. apply nth_error_Some. congruence.
  - rewrite !nth_error_map, Hr, Hr'. simpl. congruence.
Qed.

Lemma NoDup_ids_erase (l l' : list Task.t) :
  map erase l' = map erase l -> NoDup (map Task.id l) -> NoDup (map Task.id l').
Proof.
  intros He Hnd.
  assert (Hmap : map Task.id l' = map Task.id l).
  { assert (H : forall m, map Task.id m = map Task.id (map erase m)).
    { intros m. rewrite map_map. apply map_ext. intros []. reflexivity. }
    rewrite (H l'), (H l). congruence. }
  now rewrite Hmap.
Qed.

(** Eligibility survives a stretch of a pass that keeps the completed
    entries. *)
Lemma can_assign_task_Keeps st st' t t' :
  map erase (tasks st') = map erase (tasks st) ->
  Keeps st st' -> erase t' = erase t ->
  can_assign_task (tasks st) (task_status st) t = true ->
  can_assign_task (tasks st') (task_status st') t' = true.
Proof.
  intros He HK Ht. unfold can_assign_task.
  apply erase_fields in Ht as (_ & _ & _ & -> & _).
  induction (Task.dependencies t) as [|d deps IH]; simpl; [reflexivity|].
  pose proof (find_by_title_erase _ _ d He) as Hf.
  destruct (find_by_title (tasks st) d) as [u|], (find_by_title (tasks st') d) as [u'|];
    simpl in Hf; try discriminate; [|exact IH].
  assert (Hid : Task.id u' = Task.id u).
  { assert (Hu : erase u' = erase u) by congruence. now apply erase_fields in Hu. }
  rewrite Hid.
  destruct (Status_eqb (status_or_default (task_status st) (Task.id u)) completed) eqn:Es;
    [|discriminate].
  apply Status_eqb_eq in Es. intros H.
  assert (Htr : tracked (task_status st) (Task.id u) completed).
  { unfold status_or_default in Es.
    destruct (PyDict.get (task_status st) (Task.id u)) as [tr|] eqn:Eg; [|discriminate].
    exists tr. auto. }
  apply HK in Htr as (tr' & Hg' & Hs'). unfold status_or_default. rewrite Hg', Hs'. simpl.
  now apply IH.
Qed.

(** What a call of [send_task_to_agent] on task [r] comes to. *)
Definition send_result (send : string -> nat -> State W -> Outcome (State W))
  (a : string) (r : nat) st (task : Task.t) : Prop :=
  exists st' new,
    send a r st = Done st' /\ Pass st st' /\ Writes st st' (r :: new) /\
    KeepsExcept (Task.id task) st st' /\
    (forall X, Settled X st -> Settled (Task.id task :: X) st').

(** The loop of [check_and_assign_waiting_tasks], for a [send] that
    returns on every task tracked as [not_started] while at most [fuel]
    entries are: the loop returns, and every task that was tracked as
    [not_started] and eligible when the loop began has been sent. *)
Lemma waiting_loop_spec send (fuel : nat) :
  (forall a r st task,
     nth_error (tasks st) r = Some task ->
     (waiting (task_status st) <= fuel)%nat ->
     tracked (task_status st) (Task.id task) not_started ->
     send_result send a r st task) ->
  forall refs st,
    (forall r, In r refs -> (r < length (tasks st))%nat) ->
    (waiting (task_status st) <= fuel)%nat ->
    exists st' new,
      waiting_loop send refs st = Done st' /\ Pass st st' /\
      Writes st st' new /\ Keeps st st' /\
      (forall X, Settled X st -> Settled X st') /\
      (NoDup (map Task.id (tasks st)) ->
       forall r task, In r refs -> nth_error (tasks st) r = Some task ->
         waiting_ready st task = true -> In r new).
Proof.
  intros Hsend. induction refs as [|r rest IH]; intros st Hvalid Hfuel.
  - exists st, []. simpl. split; [reflexivity|]. split; [apply Pass_refl|].
    split; [apply Writes_refl|]. split; [apply Keeps_refl|]. split; [auto|].
    intros _ r task [].
  - assert (Hr : (r < length (tasks st))%nat) by (apply Hvalid; now left).
    destruct (nth_error (tasks st) r) as [task|] eqn:Etask;
      [|apply nth_error_None in Etask; lia].
    cbn [waiting_loop]. unfold deref. rewrite Etask. cbn [lift].
    destruct (waiting_ready st task) eqn:Eready.
    + (* the task is sent, then marked assigned *)
      pose proof Eready as Hready. unfold waiting_ready in Hready.
      apply andb_true_iff in Hready as [Hns Hcan].
      destruct (PyDict.get (task_status st) (Task.id task)) as [tr|] eqn:Etr; [|discriminate].
      assert (Htracked : tracked (task_status st) (Task.id task) not_started).
      { exists tr. split; [assumption|]. now apply Status_eqb_eq. }
      destruct (Hsend (Task.agent task) r st task Etask Hfuel Htracked)
        as (st1 & new1 & Hrun1 & HP1 & HW1 & HK1 & HSet1).
      rewrite Hrun1. cbn [and_then].
      assert (Hkey : exists tr1, PyDict.get (task_status st1) (Task.id task) = Some tr1).
      { apply keys_get. rewrite (p_keys _ _ HP1). eapply get_Some_keys; eauto. }
      destruct Hkey as [tr1 Etr1]. rewrite (set_status_Done _ _ _ _ Etr1). cbn [and_then].
      set (st2 := with_task_status _ st1).
      assert (HP12 : Pass st1 st2) by (apply Pass_set_status; auto).
      assert (HP2 : Pass st st2) by (eapply Pass_trans; eauto).
      assert (HW2 : Writes st st2 (r :: new1)).
      { destruct HW1 as [HS1 HW1]. split; [exact HS1|]. intros id Hne.
        destruct (string_dec (Task.id task) id) as [<-|Hneq].
        - exists r, task. split; [now left|auto].
        - apply HW1. unfold st2 in Hne. simpl in Hne.
          now rewrite get_set_other in Hne by assumption. }
      assert (HK2 : Keeps st st2).
      { intros id Hc. assert (Hneq : id <> Task.id task).
        { intros ->. pose proof (tracked_functional _ _ _ _ Hc Htracked). discriminate. }
        destruct (HK1 id Hneq Hc) as (tr0 & H0 & Hs0). exists tr0. unfold st2. simpl.
        rewrite get_set_other by congruence. auto. }
      assert (HSet2 : forall X, Settled X st -> Settled X st2).
      { intros X HX id tr2. unfold st2. simpl. rewrite get_set.
        destruct (String.eqb (Task.id task) id) eqn:Eid.
        - intros [= <-]. right. right. reflexivity.
        - intros Hg. destruct (HSet1 X HX id tr2 Hg) as [[<-|Hin]|H]; auto.
          now rewrite String.eqb_refl in Eid. }
      destruct (IH st2) as (st' & new2 & Hrun & HP & HW & HK & HSet & Hall).
      * intros r0 H0. rewrite (erase_length _ _ (p_tasks _ _ HP2)). apply Hvalid. now right.
      * pose proof (p_waiting _ _ HP2). lia.
      * exists st', ((r :: new1) ++ new2). split; [exact Hrun|].
        split; [eapply Pass_trans; eauto|].
        split; [apply (Writes_trans st st2 st' (r :: new1) new2 (p_tasks _ _ HP2) HW2 HW)|].
        split; [eapply Keeps_trans; eauto|]. split; [auto|].
        intros Hnd r0 task0 [<-|Hin] Hn0 Hready0; [now left|].
        destruct (entry_eq_dec (PyDict.get (task_status st2) (Task.id task0))
                    (PyDict.get (task_status st) (Task.id task0))) as [Heq|Hne].
        -- apply in_or_app. right.
           assert (Hlen : (r0 < length (tasks st2))%nat).
           { rewrite (erase_length _ _ (p_tasks _ _ HP2)). apply nth_error_Some. congruence. }
           destruct (nth_error (tasks st2) r0) as [task0'|] eqn:E0;
             [|apply nth_error_None in E0; lia].
           destruct (erase_nth_error _ _ _ _ (p_tasks _ _ HP2) E0) as (t0 & Ht0 & He0).
           assert (t0 = task0) by congruence. subst t0.
           apply (Hall (NoDup_ids_erase _ _ (p_tasks _ _ HP2) Hnd) r0 task0' Hin E0).
           unfold waiting_ready in *. apply andb_true_iff in Hready0 as [Hns0 Hcan0].
           pose proof (erase_fields _ _ He0) as (Hid0 & _). rewrite <- Hid0, Heq.
           apply andb_true_iff. split; [assumption|].
           apply (can_assign_task_Keeps st st2 task0 task0' (p_tasks _ _ HP2) HK2);
             [symmetry; exact He0|exact Hcan0].
        -- destruct HW2 as [_ HW2]. destruct (HW2 _ Hne) as (r' & t' & Hr' & Ht' & Hid').
           assert (r' = r0) by (eapply NoDup_ids_inj; eauto). subst r'.
           apply in_or_app. now left.
    + (* the task is skipped *)
      destruct (IH st) as (st' & new & Hrun & HP & HW & HK & HSet & Hall).
      * intros r0 H0. apply Hvalid. now right.
      * assumption.
      * exists st', new. repeat (split; [assumption|]).
        intros Hnd r0 task0 [<-|Hin] Hn0 Hready0; [|eauto].
        assert (task0 = task) by congruence. subst. congruence.
Qed.

Definition ready_fuel (fuel : nat) st (task : Task.t) : Prop :=
  (waiting (task_status st) < fuel)%nat \/
  ((waiting (task_status st) <= fuel)%nat /\
   tracked (task_status st) (Task.id task) not_started).

Context (net : Network W).

(** [send_task_to_agent] returns, whatever the worker answers, when the
    fuel covers the entries that are still tracked as [not_started]. *)
Lemma send_task_to_agent_spec fuel : forall a r st task,
  nth_error (tasks st) r = Some task ->
  ready_fuel fuel st task ->
  send_result (send_task_to_agent net fuel) a r st task.
Proof.
  induction fuel as [|fuel IH]; intros a r st task Hn Hfuel.
  { exfalso. destruct Hfuel as [H|[H (tr & Htr & Hs)]]; [lia|].
    assert (0 < waiting (task_status st))%nat; [|lia].
    eapply waiting_pos; eauto. unfold is_not_started. now rewrite Hs. }
  unfold send_result. cbn [send_task_to_agent].
  set (st0 := record_call r st).
  assert (H0 : Pass st st0 /\ Writes st st0 [r] /\ KeepsExcept (Task.id task) st st0 /\
                (forall X, Settled X st -> Settled (Task.id task :: X) st0)).
  { now apply send_end_untouched. }
  destruct (PyDict.get (agents st0) a) as [port|].
  2:{ exists st0, []. split; [reflexivity|exact H0]. }
  unfold deref. change (tasks st0) with (tasks st). rewrite Hn. cbn [lift].
  destruct (post_task net port (task_data_of task) (world st0)) as [reply w].
  set (st1 := with_world w st0).
  assert (H1 : Pass st st1 /\ Writes st st1 [r] /\ KeepsExcept (Task.id task) st st1 /\
                (forall X, Settled X st -> Settled (Task.id task :: X) st1)).
  { now apply send_end_untouched. }
  destruct reply as [e|code body].
  { exists st1, []. split; [reflexivity|exact H1]. }
  destruct (code =? 200).
  2:{ exists st1, []. split; [reflexivity|exact H1]. }
  destruct body as [result|].
  2:{ exists st1, []. split; [reflexivity|exact H1]. }
  unfold set_status at 1. change (task_status st1) with (task_status st).
  destruct (PyDict.get (task_status st) (Task.id task)) as [tr|] eqn:Etr.
  2:{ exists st1, []. split; [reflexivity|exact H1]. }
  cbn [and_then].
  set (st2 := with_task_status _ st1).
  assert (H2 : Pass st st2 /\ Writes st st2 [r] /\ KeepsExcept (Task.id task) st st2 /\
                (forall X, Settled X st -> Settled (Task.id task :: X) st2)).
  { eapply send_end_status with (s := in_progress); eauto. }
  destruct result as [| | | | |fields];
    try (exists st2, []; split; [reflexivity|exact H2]).
  cbn [json_get lift].
  destruct (json_is_str (PyDict.get fields "status") "completed").
  2:{ exists st2, []. split; [reflexivity|exact H2]. }
  assert (Etr2 : PyDict.get (task_status st2) (Task.id task)
                 = Some (Tracking.set_status in_progress tr)).
  { unfold st2. simpl. apply get_set_same. }
  rewrite (set_status_Done _ _ _ _ Etr2). cbn [and_then json_get_default json_get bind lift].
  set (v := match PyDict.get fields "result" with Some v => v | None => JStr "" end).
  set (st4 := set_task_result r v _).
  assert (Hts4 : task_status st4 =
                 PyDict.set (task_status st) (Task.id task) (Tracking.set_status completed tr)).
  { unfold st4, st2. simpl. clear. induction (task_status st) as [|[k x] d IHd]; simpl.
    - now rewrite String.eqb_refl.
    - destruct (String.eqb k (Task.id task)) eqn:Ek; simpl; rewrite Ek; [reflexivity|].
      now rewrite IHd. }
  assert (H4 : Pass st st4 /\ Writes st st4 [r] /\ KeepsExcept (Task.id task) st st4 /\
                (forall X, Settled X st -> Settled (Task.id task :: X) st4)).
  { eapply send_end_status with (s := completed); eauto.
    unfold st4. simpl. apply erase_update_nth. }
  destruct H4 as (HP4 & HW4 & HK4 & HSet4).
  assert (Hw4 : (waiting (task_status st4) <= fuel)%nat).
  { pose proof (waiting_set _ _ _ (Tracking.set_status completed tr) Etr) as Hw.
    rewrite <- Hts4 in Hw. change (is_not_started (Tracking.set_status completed tr))
      with false in Hw.
    destruct Hfuel as [Hlt|[Hle (tr' & Htr' & Hs)]].
    - destruct (is_not_started tr); lia.
    - assert (tr' = tr) by congruence. subst tr'.
      assert (Hns : is_not_started tr = true) by (unfold is_not_started; now rewrite Hs).
      rewrite Hns in Hw. lia. }
  destruct (waiting_loop_spec (send_task_to_agent net fuel) fuel) with
    (refs := seq 0 (length (tasks st4))) (st := st4)
    as (st5 & new & Hrun & HP5 & HW5 & HK5 & HSet5 & _).
  - intros a' r' st' task' Hn' Hle' Htr'. apply IH; [assumption|]. right. auto.
  - intros r' Hr'. apply in_seq in Hr'. lia.
  - assumption.
  - rewrite Hrun. exists st5, new. split; [reflexivity|].
    split; [eapply Pass_trans; eauto|]. split; [|split].
    + apply (Writes_trans st st4 st5 [r] new (p_tasks _ _ HP4) HW4 HW5).
    + intros id Hne Hc. apply HK5. now apply HK4.
    + intros X HX. apply HSet5. now apply HSet4.
Qed.

(** [check_and_assign_waiting_tasks] returns when the fuel covers the
    entries tracked as [not_started], and it sends every task that is
    tracked as [not_started] and eligible when it is called. *)
Lemma check_and_assign_waiting_tasks_spec fuel st :
  (waiting (task_status st) <= fuel)%nat ->
  exists st' new,
    check_and_assign_waiting_tasks net fuel st = Done st' /\ Pass st st' /\
    Writes st st' new /\ Keeps st st' /\
    (forall X, Settled X st -> Settled X st') /\
    (NoDup (map Task.id (tasks st)) ->
     forall r task, nth_error (tasks st) r = Some task ->
       waiting_ready st task = true -> In r new).
Proof.
  intros Hfuel. unfold check_and_assign_waiting_tasks.
  destruct (waiting_loop_spec (send_task_to_agent net fuel) fuel) with
    (refs := seq 0 (length (tasks st))) (st := st)
    as (st' & new & Hrun & HP & HW & HK & HSet & Hall).
  - intros a r st0 task Hn Hle Htr. apply send_task_to_agent_spec; [assumption|]. right. auto.
  - intros r Hr. apply in_seq in Hr. lia.
  - assumption.
  - exists st', new. repeat (split; [assumption|]).
    intros Hnd r task Hn Hready. apply (Hall Hnd r task); auto.
    apply in_seq. split; [lia|]. simpl. apply nth_error_Some. congruence.
Qed.

End WithNetwork.

End DispatchFacts.

(** ** Theorems on the dispatcher *)

Module DispatchTheorems.

Import TaskManager PyDictFacts ResolutionFacts DispatchFacts.

Section WithNetwork.

Context {W : Type} (net : Network W).

Implicit Types (st : State W).

Lemma init_tracking_keys refs : forall st st' k,
  init_tracking refs st = Done st' ->
  In k (PyDict.keys (task_status st)) -> In k (PyDict.keys (task_status st')).
Proof.
  induction refs as [|r rest IH]; intros st st' k; simpl.
  - intros [= <-]. auto.
  - destruct (deref (tasks st) r) as [t| |]; simpl; try discriminate.
    intros Hrun Hk. apply (IH _ _ _ Hrun). simpl. apply In_keys_set. now right.
Qed.

(** The first loop of [assign_tasks]: every task of the schedule gets an
    entry, the entries written are [not_started], nothing else moves. *)
Lemma init_tracking_spec refs : forall st,
  (forall r, In r refs -> (r < length (tasks st))%nat) ->
  exists st',
    init_tracking refs st = Done st' /\
    tasks st' = tasks st /\ agents st' = agents st /\ sent st' = sent st /\
    (length (task_status st') <= length (task_status st) + length refs)%nat /\
    (forall r t, In r refs -> nth_error (tasks st) r = Some t ->
       In (Task.id t) (PyDict.keys (task_status st'))) /\
    (forall id tr', PyDict.get (task_status st') id = Some tr' ->
       Tracking.status tr' = not_started \/ PyDict.get (task_status st) id = Some tr').
Proof.
  induction refs as [|r rest IH]; intros st Hvalid; simpl.
  - exists st. repeat (split; [solve [auto]|]). split; [lia|]. split; [intros r t []|auto].
  - assert (Hr : (r < length (tasks st))%nat) by (apply Hvalid; now left).
    destruct (nth_error (tasks st) r) as [task|] eqn:Etask;
      [|apply nth_error_None in Etask; lia].
    unfold deref. rewrite Etask. cbn [lift].
    set (st1 := with_task_status _ st).
    destruct (IH st1) as (st' & Hrun & HT & HA & HS & Hlen & Hkeys & Hent).
    { intros r0 H0. apply Hvalid. now right. }
    exists st'. split; [exact Hrun|]. repeat (split; [assumption|]). split; [|split].
    + unfold st1 in Hlen. simpl in Hlen.
      pose proof (length_set (task_status st) (Task.id task)
                    (Tracking.mk not_started (Task.agent task))). lia.
    + intros r0 t [<-|Hin] Hn; [|now apply (Hkeys r0)].
      assert (t = task) by congruence. subst t.
      apply (init_tracking_keys _ _ _ _ Hrun). unfold st1. simpl.
      apply In_keys_set. now left.
    + intros id tr' Hg. destruct (Hent id tr' Hg) as [Hns|Hg1]; [now left|].
      unfold st1 in Hg1. simpl in Hg1. rewrite get_set in Hg1.
      destruct (String.eqb (Task.id task) id); [|now right].
      inversion Hg1. now left.
Qed.

(** The second loop of [assign_tasks] returns when every task of the
    schedule is tracked and the fuel exceeds the entries tracked as
    [not_started]; it leaves every entry [not_started] or [assigned] if
    it finds them so. *)
Lemma assign_loop_spec fuel refs : forall st,
  (forall r, In r refs -> (r < length (tasks st))%nat) ->
  (forall r t, In r refs -> nth_error (tasks st) r = Some t ->
     In (Task.id t) (PyDict.keys (task_status st))) ->
  (waiting (task_status st) < fuel)%nat ->
  exists st',
    assign_loop (send_task_to_agent net fuel) refs st = Done st' /\ Pass st st' /\
    (Settled [] st -> Settled [] st').
Proof.
  induction refs as [|r rest IH]; intros st Hvalid Hkeys Hfuel; simpl.
  - exists st. split; [reflexivity|]. split; [apply Pass_refl|auto].
  - assert (Hr : (r < length (tasks st))%nat) by (apply Hvalid; now left).
    destruct (nth_error (tasks st) r) as [task|] eqn:Etask;
      [|apply nth_error_None in Etask; lia].
    unfold deref. rewrite Etask. cbn [lift].
    assert (Hrest : forall st2, Pass st st2 -> (Settled [] st -> Settled [] st2) ->
      exists st', assign_loop (send_task_to_agent net fuel) rest st2 = Done st' /\
                  Pass st st' /\ (Settled [] st -> Settled [] st')).
    { intros st2 HP2 HS2. destruct (IH st2) as (st' & Hrun & HP & HS).
      - intros r0 H0. rewrite (erase_length _ _ (p_tasks _ _ HP2)). apply Hvalid. now right.
      - intros r0 t0 H0 Hn0. rewrite (p_keys _ _ HP2).
        destruct (erase_nth_error _ _ _ _ (p_tasks _ _ HP2) Hn0) as (t & Ht & He).
        apply erase_fields in He as (<- & _). apply (Hkeys r0); [now right|assumption].
      - pose proof (p_waiting _ _ HP2). lia.
      - exists st'. split; [exact Hrun|]. split; [eapply Pass_trans; eauto|auto]. }
    destruct (can_assign_task (tasks st) (task_status st) task).
    + destruct (send_task_to_agent_spec net fuel (Task.agent task) r st task Etask)
        as (st1 & new & Hrun1 & HP1 & _ & _ & HSet1); [now left|].
      rewrite Hrun1. cbn [and_then].
      assert (Hkey : exists tr1, PyDict.get (task_status st1) (Task.id task) = Some tr1).
      { apply keys_get. rewrite (p_keys _ _ HP1). apply (Hkeys r); [now left|assumption]. }
      destruct Hkey as [tr1 Etr1]. rewrite (set_status_Done _ _ _ _ Etr1). cbn [and_then].
      apply Hrest.
      * eapply Pass_trans; [exact HP1|]. apply Pass_set_status; auto.
      * intros HX id tr2. simpl. rewrite get_set.
        destruct (String.eqb (Task.id task) id) eqn:Eid.
        -- intros [= <-]. right. right. reflexivity.
        -- intros Hg. destruct (HSet1 [] HX id tr2 Hg) as [[<-|[]]|H]; auto.
           now rewrite String.eqb_refl in Eid.
    + apply Hrest; [apply Pass_refl|auto].
Qed.

(** [assign_tasks] returns: no exception leaves it, whatever the
    workers answer. No entry is tracked as [failed] afterwards that was
    not before, and if every entry was [not_started] or [assigned]
    before, every entry is so afterwards. *)
Lemma assign_tasks_spec st :
  exists st',
    assign_tasks net st = Done st' /\
    map erase (tasks st') = map erase (tasks st) /\
    (forall id, tracked (task_status st') id failed -> tracked (task_status st) id failed) /\
    (Settled [] st -> Settled [] st').
Proof.
  unfold assign_tasks, assign_tasks_with.
  destruct (tasks st) as [|t0 ts0] eqn:Etasks.
  { exists st. rewrite Etasks. auto. }
  rewrite <- Etasks.
  destruct (SchedulerTheorems.sort_tasks_by_dependencies_refs (tasks st))
    as (sorted & Hsort & Hvalid & Hlen).
  rewrite Hsort. cbn [lift]. rewrite Forall_forall in Hvalid.
  destruct (init_tracking_spec sorted st Hvalid)
    as (st1 & Hrun1 & HT1 & HA1 & HS1 & Hlen1 & Hkeys1 & Hent1).
  rewrite Hrun1. cbn [and_then].
  destruct (assign_loop_spec (S (length (task_status st) + length (tasks st))) sorted st1)
    as (st' & Hrun & HP & HSet).
  - intros r Hr. rewrite HT1. now apply Hvalid.
  - intros r t Hr Hn. rewrite HT1 in Hn. now apply (Hkeys1 r).
  - pose proof (waiting_le_length (task_status st1)). lia.
  - exists st'. split; [exact Hrun|]. split; [rewrite (p_tasks _ _ HP); now rewrite HT1|].
    split.
    + intros id (tr' & Hg & Hs).
      destruct (p_entries _ _ HP id tr' Hg) as [Hg1|(tr & _ & _ & Hs')].
      * destruct (Hent1 id tr' Hg1) as [Hns|Hg0]; [congruence|]. exists tr'. auto.
      * rewrite Hs in Hs'. destruct Hs' as [Hs'|[Hs'|Hs']]; discriminate.
    + intros HX. apply HSet. intros id tr Hg.
      destruct (Hent1 id tr Hg) as [Hns|Hg0]; [auto|]. now apply HX.
Qed.

(** *** Cascade *)

(** [result.get("result", "")] *)
Definition result_of (fields : list (string * Json)) : Json :=
  match PyDict.get fields "result" with Some v => v | None => JStr "" end.

(** The state in which [send_task_to_agent] has just recorded the
    synchronous completion of task [r], before it cascades. *)
Definition completed_state (r : nat) (task : Task.t) (tr : Tracking.t)
  (v : Json) (w : W) st : State W :=
  set_task_result r v
    (with_task_status
       (PyDict.set (task_status st) (Task.id task) (Tracking.set_status completed tr))
       (with_world w (record_call r st))).

Lemma set_set {V} (d : PyDict.t V) k v v' :
  PyDict.set (PyDict.set d k v) k v' = PyDict.set d k v'.
Proof.
  induction d as [|[k0 x] d IH]; simpl.
  - now rewrite String.eqb_refl.
  - destruct (String.eqb k0 k) eqn:Ek; simpl; rewrite Ek; [reflexivity|]. now rewrite IH.
Qed.

(** On a synchronous completion, [send_task_to_agent] is the cascade run
    from the state in which the completion is recorded. *)
Lemma send_completed_eq fuel a r st task port w fields tr :
  nth_error (tasks st) r = Some task ->
  PyDict.get (agents st) a = Some port ->
  post_task net port (task_data_of task) (world st)
    = (Answers 200 (Some (JObj fields)), w) ->
  json_is_str (PyDict.get fields "status") "completed" = true ->
  PyDict.get (task_status st) (Task.id task) = Some tr ->
  send_task_to_agent net (S fuel) a r st =
  catch (check_and_assign_waiting_tasks net fuel
           (completed_state r task tr (result_of fields) w st)).
Proof.
  intros Hn Ha Hpost Hs Htr. cbn [send_task_to_agent].
  change (agents (record_call r st)) with (agents st). rewrite Ha.
  unfold deref. change (tasks (record_call r st)) with (tasks st). rewrite Hn. cbn [lift].
  change (world (record_call r st)) with (world st). rewrite Hpost.
  change (200 =? 200) with true. cbn iota.
  unfold set_status at 1.
  change (task_status (with_world w (record_call r st))) with (task_status st).
  rewrite Htr. cbn [and_then json_get lift]. rewrite Hs.
  unfold set_status at 1. cbn [task_status with_task_status].
  rewrite get_set_same. cbn [and_then json_get_default json_get bind lift].
  rewrite set_set. reflexivity.
Qed.

Lemma waiting_completed_state r task tr v w st fuel :
  PyDict.get (task_status st) (Task.id task) = Some tr ->
  ready_fuel (S fuel) st task ->
  (waiting (task_status (completed_state r task tr v w st)) <= fuel)%nat.
Proof.
  intros Htr Hfuel. simpl.
  pose proof (waiting_set _ _ _ (Tracking.set_status completed tr) Htr) as Hw.
  change (is_not_started (Tracking.set_status completed tr)) with false in Hw.
  destruct Hfuel as [Hlt|[Hle (tr' & Htr' & Hs)]].
  - destruct (is_not_started tr); lia.
  - assert (tr' = tr) by congruence. subst tr'.
    assert (Hns : is_not_started tr = true) by (unfold is_not_started; now rewrite Hs).
    rewrite Hns in Hw. lia.
Qed.

(** C4. When the worker answers the submission of a task with HTTP 200
    and status "completed", [send_task_to_agent] records the completion
    and, before it returns, calls [send_task_to_agent] on every task
    that at that moment is tracked as [not_started] and whose
    dependency titles that resolve are all tracked as [completed].
    Task identifiers are distinct, as [parse_tasks_markdown] makes them;
    the fuel only bounds the depth of the nested calls, and
    [ready_fuel] is what [assign_tasks] and the cascade provide at each
    of their calls. *)
Theorem cascade_assigns_ready_tasks fuel a r st task port w fields tr :
  nth_error (tasks st) r = Some task ->
  PyDict.get (agents st) a = Some port ->
  post_task net port (task_data_of task) (world st)
    = (Answers 200 (Some (JObj fields)), w) ->
  json_is_str (PyDict.get fields "status") "completed" = true ->
  PyDict.get (task_status st) (Task.id task) = Some tr ->
  NoDup (map Task.id (tasks st)) ->
  ready_fuel (S fuel) st task ->
  let st_c := completed_state r task tr (result_of fields) w st in
  exists st' new,
    send_task_to_agent net (S fuel) a r st = Done st' /\
    sent st' = sent st ++ r :: new /\
    tracked (task_status st_c) (Task.id task) completed /\
    forall r' task',
      nth_error (tasks st_c) r' = Some task' ->
      tracked (task_status st_c) (Task.id task') not_started ->
      (forall dep i dt, In dep (Task.dependencies task') ->
         first_with_title (tasks st_c) dep i dt ->
         tracked (task_status st_c) (Task.id dt) completed) ->
      In r' new.
Proof.
  intros Hn Ha Hpost Hs Htr Hnd Hfuel st_c.
  rewrite (send_completed_eq fuel a r st task port w fields tr Hn Ha Hpost Hs Htr).
  fold st_c.
  destruct (check_and_assign_waiting_tasks_spec net fuel st_c)
    as (st' & new & Hrun & HP & [Hsent _] & _ & _ & Hall).
  { now apply waiting_completed_state. }
  rewrite Hrun. exists st', new. split; [reflexivity|]. split.
  { rewrite Hsent. unfold st_c. simpl. now rewrite <- app_assoc. }
  split.
  { exists (Tracking.set_status completed tr). split; [|reflexivity].
    unfold st_c. simpl. apply get_set_same. }
  intros r' task' Hn' (tr' & Hg' & Hs') Hdeps.
  apply (Hall) with (task := task'); [|assumption|].
  - unfold st_c. simpl. eapply NoDup_ids_erase; [|exact Hnd]. apply erase_update_nth.
  - unfold waiting_ready. rewrite Hg', Hs'. cbn [Status_eqb andb].
    apply SchedulerTheorems.can_assign_task_first. intros dep i dt Hin Hfirst.
    destruct (Hdeps dep i dt Hin Hfirst) as (trd & Hgd & Hsd).
    unfold status_or_default. now rewrite Hgd.
Qed.

(** *** Transport failures *)

(** The submission of task [r] to [a] fails at transport level: the
    worker is not registered, the request raises, or the response is not
    a 200. *)
Definition transport_fails (a : string) (r : nat) st : Prop :=
  PyDict.get (agents st) a = None \/
  exists port task reply w,
    PyDict.get (agents st) a = Some port /\
    nth_error (tasks st) r = Some task /\
    post_task net port (task_data_of task) (world st) = (reply, w) /\
    match reply with
    | Fails _ => True
    | Answers code _ => code <> 200
    end.

(** C8. A submission that fails at transport level returns without an
    exception and leaves every tracking entry and every task as it was.
    The dispatch passes [assign_tasks] and
    [check_and_assign_waiting_tasks] return whatever the workers answer,
    and no entry is tracked as [failed] after a pass that was not
    tracked so before it. *)
Theorem transport_failure_keeps_status :
  (forall fuel a r st, transport_fails a r st ->
     exists st',
       send_task_to_agent net (S fuel) a r st = Done st' /\
       task_status st' = task_status st /\ tasks st' = tasks st) /\
  (forall st, exists st',
     assign_tasks net st = Done st' /\
     forall id, tracked (task_status st') id failed ->
                tracked (task_status st) id failed) /\
  (forall fuel st, (waiting (task_status st) <= fuel)%nat ->
     exists st',
       check_and_assign_waiting_tasks net fuel st = Done st' /\
       forall id, tracked (task_status st') id failed ->
                  tracked (task_status st) id failed).
Proof.
  split; [|split].
  - intros fuel a r st [Hnone|(port & task & reply & w & Ha & Hn & Hpost & Hfail)];
      cbn [send_task_to_agent]; change (agents (record_call r st)) with (agents st).
    + rewrite Hnone. eexists. split; [reflexivity|]. auto.
    + rewrite Ha. unfold deref. change (tasks (record_call r st)) with (tasks st).
      rewrite Hn. cbn [lift]. change (world (record_call r st)) with (world st).
      rewrite Hpost. destruct reply as [e|code body].
      * eexists. split; [reflexivity|]. auto.
      * apply Z.eqb_neq in Hfail. rewrite Hfail. eexists. split; [reflexivity|]. auto.
  - intros st. destruct (assign_tasks_spec st) as (st' & Hrun & _ & Hfailed & _). eauto.
  - intros fuel st Hfuel.
    destruct (check_and_assign_waiting_tasks_spec net fuel st Hfuel)
      as (st' & new & Hrun & HP & _).
    exists st'. split; [exact Hrun|]. intros id (tr' & Hg & Hs).
    destruct (p_entries _ _ HP id tr' Hg) as [Hg1|(tr & _ & _ & Hs')].
    + exists tr'. auto.
    + rewrite Hs in Hs'. destruct Hs' as [Hs'|[Hs'|Hs']]; discriminate.
Qed.

End WithNetwork.

(** *** Concrete runs *)

(** A world without state in which every submission gets the same
    reply; the poller's requests are not used. *)
Definition replies (reply : Reply) : Network unit :=
  mkNetwork unit (fun _ _ w => (reply, w))
            (fun _ w => (Fails (ClientError "unused"), w))
            (fun _ w => (Fails (ClientError "unused"), w)).

(** The response of a worker that ran the task within the request. *)
Definition completes (text : string) : Reply :=
  Answers 200 (Some (JObj [("status", JStr "completed"); ("result", JStr text)])).

(** A manager as [__init__] leaves it, with its tasks loaded. *)
Definition fresh (tasks : list Task.t) (agents : PyDict.t Z) : State unit :=
  mkState tasks PyDict.empty agents tt [].

Definition one_task : list Task.t := [task "task_1" "T" "developer" 1 []].

Definition registry : PyDict.t Z := [("developer", 8001); ("qa", 8002)].

(** C1 (Scenario D of the design document), on the code: one task, whose
    worker answers the submission with HTTP 200, status "completed" and
    result "ok". [send_task_to_agent] tracks the task as [completed],
    but [assign_tasks] then overwrites the entry: when the pass returns
    the task is tracked as [assigned]. Its result is "ok". In general,
    whatever the tasks and whatever the workers answer, when
    [assign_tasks] returns on a manager that tracked nothing before,
    every entry is [not_started] or [assigned]: none is [completed]. *)
Theorem sync_completion_is_overwritten :
  (exists st',
     assign_tasks (replies (completes "ok")) (fresh one_task registry) = Done st' /\
     PyDict.get (task_status st') "task_1" = Some (Tracking.mk assigned "developer") /\
     map Task.result (tasks st') = [JStr "ok"] /\
     sent st' = [0%nat]) /\
  (forall (W : Type) (net : Network W) (st : State W),
     task_status st = PyDict.empty ->
     exists st',
       assign_tasks net st = Done st' /\
       forall id tr, PyDict.get (task_status st') id = Some tr ->
         Tracking.status tr = not_started \/ Tracking.status tr = assigned).
Proof.
  split.
  - eexists. split; [reflexivity|]. repeat split.
  - intros W net st Hfresh.
    destruct (assign_tasks_spec net st) as (st' & Hrun & _ & _ & HSet).
    exists st'. split; [exact Hrun|]. intros id tr Hg.
    destruct (HSet) with (id := id) (tr := tr) as [[]|H]; auto.
    intros id0 tr0. rewrite Hfresh. discriminate.
Qed.

(** [send_task_to_agent] on its own, as the test of the repository
    calls it, does leave the task tracked as [completed]. *)
Example send_task_to_agent_completed :
  exists st',
    send_task_to_agent (replies (completes "Task completed")) 1 "developer" 0
      (mkState one_task [("task_1", Tracking.mk not_started "developer")] registry tt [])
      = Done st' /\
    PyDict.get (task_status st') "task_1" = Some (Tracking.mk completed "developer") /\
    map Task.result (tasks st') = [JStr "Task completed"].
Proof. eexists. split; [reflexivity|]. repeat split. Qed.

(** Submissions that fail at transport level, from a state in which the
    task is tracked as [not_started]: an unregistered worker, a request
    that raises, a response with status 500. The entry stays
    [not_started] through [send_task_to_agent]. *)
Example failed_submissions :
  let tracked_one (a : string) :=
    mkState [task "task_1" "T" a 1 []]
      [("task_1", Tracking.mk not_started a)] registry tt [] in
  let status_after (o : Outcome (State unit)) :=
    match o with
    | Done st' => option_map Tracking.status (PyDict.get (task_status st') "task_1")
    | _ => None
    end in
  status_after (send_task_to_agent (replies (completes "ok")) 1 "nobody" 0
                  (tracked_one "nobody")) = Some not_started /\
  status_after (send_task_to_agent (replies (Fails (ClientError "refused"))) 1
                  "developer" 0 (tracked_one "developer")) = Some not_started /\
  status_after (send_task_to_agent
                  (replies (Answers 500 (Some (JObj [("status", JStr "failed")])))) 1
                  "developer" 0 (tracked_one "developer")) = Some not_started.
Proof. repeat split. Qed.

(** The same three failures under [assign_tasks]: the pass returns and
    the task ends as [assigned]. *)
Example failed_submissions_assigned :
  let status_after (o : Outcome (State unit)) :=
    match o with
    | Done st' => option_map Tracking.status (PyDict.get (task_status st') "task_1")
    | _ => None
    end in
  status_after (assign_tasks (replies (completes "ok"))
                  (fresh [task "task_1" "T" "nobody" 1 []] registry)) = Some assigned /\
  status_after (assign_tasks (replies (Fails (ClientError "refused")))
                  (fresh one_task registry)) = Some assigned /\
  status_after (assign_tasks
                  (replies (Answers 500 (Some (JObj [("status", JStr "failed")]))))
                  (fresh one_task registry)) = Some assigned.
Proof. repeat split. Qed.

(** Task [B] waits for task [A]; both are tracked as [not_started]. *)
Definition two_tasks : list Task.t :=
  [ task "task_1" "A" "developer" 1 [];
    task "task_2" "B" "qa" 1 ["A"] ].

Definition two_tracked : State unit :=
  mkState two_tasks
    [ ("task_1", Tracking.mk not_started "developer");
      ("task_2", Tracking.mk not_started "qa") ]
    registry tt [].

(** The cascade on [two_tracked]: the completion of [A] sends [B]. *)
Lemma cascade_assigns_ready_tasks_witness :
  let st_c :=
    completed_state 0 (task "task_1" "A" "developer" 1 [])
      (Tracking.mk not_started "developer") (JStr "ok") tt two_tracked in
  exists st' new,
    send_task_to_agent (replies (completes "ok")) 3 "developer" 0 two_tracked
      = Done st' /\
    sent st' = sent two_tracked ++ 0%nat :: new /\
    tracked (task_status st_c) "task_1" completed /\
    forall r' task',
      nth_error (tasks st_c) r' = Some task' ->
      tracked (task_status st_c) (Task.id task') not_started ->
      (forall dep i dt, In dep (Task.dependencies task') ->
         first_with_title (tasks st_c) dep i dt ->
         tracked (task_status st_c) (Task.id dt) completed) ->
      In r' new.
Proof.
  apply (cascade_assigns_ready_tasks (replies (completes "ok")) 2 "developer" 0
           two_tracked (task "task_1" "A" "developer" 1 []) 8001 tt
           [("status", JStr "completed"); ("result", JStr "ok")]
           (Tracking.mk not_started "developer")).
  - reflexivity.
  - reflexivity.
  - reflexivity.
  - reflexivity.
  - reflexivity.
  - simpl. constructor.
    + simpl. intros [H|[]]. discriminate H.
    + constructor; [intros []|constructor].
  - left. unfold waiting. simpl. lia.
Defined.

End DispatchTheorems.

(** ** The completion poller *)

Module PollerFacts.

Import TaskManager PyDictFacts DispatchFacts.

(** [result] is an entry of a result log for the task [id]:
    [result.get("task", {}).get("id") == id]. *)
Definition entry_for (id : string) (result : Json) : Prop :=
  exists tk i,
    json_get_default result "task" (JObj []) = Ok tk /\
    json_get tk "id" = Ok i /\ json_is_str i id = true.

Lemma json_get_not_Stuck j k : json_get j k <> Stuck.
Proof. destruct j; discriminate. Qed.

Lemma json_get_default_not_Stuck j k d : json_get_default j k d <> Stuck.
Proof. destruct j; discriminate. Qed.

Lemma json_iter_not_Stuck j : json_iter j <> Stuck.
Proof. destruct j; discriminate. Qed.

Section WithNetwork.

Context {W : Type} (net : Network W).

Implicit Types (st : State W).

(** The one change the poller makes: the entry of [id] becomes
    [completed] and the task behind [r] gets the result [v]. *)
Definition completes_task (r : nat) (id : string) (v : Json) st st' : Prop :=
  exists tr,
    PyDict.get (task_status st) id = Some tr /\
    task_status st' = PyDict.set (task_status st) id (Tracking.set_status completed tr) /\
    tasks st' = update_nth r (Task.set_result v) (tasks st).

(** Where a computation ends, whether it returns or raises. *)
Definition ends (o : Outcome (State W)) st' : Prop :=
  o = Done st' \/ exists e, o = Raised e st'.

Lemma ends_Done st : ends (Done st) st.
Proof. now left. Qed.

Lemma ends_Raised e st : ends (Raised e st) st.
Proof. right. now exists e. Qed.

(** The search of the log changes nothing, or it completes the task with
    the result of the first entry for it. *)
Lemma find_result_spec items r id : forall st,
  exists st',
    ends (find_result items r id st) st' /\
    agents st' = agents st /\ sent st' = sent st /\ world st' = world st /\
    ((tasks st' = tasks st /\ task_status st' = task_status st) \/
     exists before result after v,
       items = before ++ result :: after /\
       Forall (fun x => ~ entry_for id x) before /\
       entry_for id result /\
       json_get_default result "result" (JStr "") = Ok v /\
       completes_task r id v st st').
Proof.
  induction items as [|result rest IH]; intros st; cbn [find_result].
  - exists st. split; [apply ends_Done|]. auto 6.
  - assert (Hstay : forall e, exists st',
      ends (Raised e st) st' /\
      agents st' = agents st /\ sent st' = sent st /\ world st' = world st /\
      ((tasks st' = tasks st /\ task_status st' = task_status st) \/
       exists before result0 after v,
         result :: rest = before ++ result0 :: after /\
         Forall (fun x => ~ entry_for id x) before /\
         entry_for id result0 /\
         json_get_default result0 "result" (JStr "") = Ok v /\
         completes_task r id v st st')).
    { intros e. exists st. split; [apply ends_Raised|]. auto 6. }
    destruct (json_get_default result "task" (JObj [])) as [tk|e|] eqn:Etk.
    2:{ apply Hstay. }
    2:{ now apply json_get_default_not_Stuck in Etk. }
    cbn [lift].
    destruct (json_get tk "id") as [i|e|] eqn:Ei.
    2:{ apply Hstay. }
    2:{ now apply json_get_not_Stuck in Ei. }
    cbn [lift].
    destruct (json_is_str i id) eqn:Eis.
    + unfold set_status.
      destruct (PyDict.get (task_status st) id) as [tr|] eqn:Etr; cbn [and_then].
      2:{ apply Hstay. }
      destruct (json_get_default result "result" (JStr "")) as [v|e|] eqn:Ev.
      * cbn [lift]. eexists. split; [apply ends_Done|].
        split; [reflexivity|]. split; [reflexivity|]. split; [reflexivity|].
        right. exists [], result, rest, v. split; [reflexivity|]. split; [constructor|].
        split; [exists tk, i; auto|]. split; [assumption|].
        exists tr. simpl. auto.
      * exfalso. unfold json_get_default, json_get, bind in Etk, Ev.
        destruct result; try discriminate Etk; discriminate Ev.
      * now apply json_get_default_not_Stuck in Ev.
    + destruct (IH st) as (st' & Hends & HA & HS & HW & Hch).
      exists st'. split; [exact Hends|]. repeat (split; [assumption|]).
      destruct Hch as [Hsame|(before & res & after & v & -> & Hb & He & Hv & Hc)]; [now left|].
      right. exists (result :: before), res, after, v. split; [reflexivity|].
      split; [|auto]. constructor; [|assumption].
      intros (tk' & i' & Htk' & Hi' & His').
      rewrite Etk in Htk'. inversion Htk'; subst tk'.
      rewrite Ei in Hi'. inversion Hi'; subst i'. congruence.
Qed.

(** One task polled: the world moves; besides that nothing changes, or
    the task is completed with the result of the first entry for it in
    the result log that its worker returned. *)
Lemma poll_task_spec r task port st :
  exists st',
    ends (poll_task net r task port st) st' /\
    agents st' = agents st /\ sent st' = sent st /\
    ((tasks st' = tasks st /\ task_status st' = task_status st) \/
     exists w1 result_data w2 results items before result after v,
       get_results net port w1 = (Answers 200 (Some result_data), w2) /\
       json_get_default result_data "results" (JArr []) = Ok results /\
       json_iter results = Ok items /\
       items = before ++ result :: after /\
       Forall (fun x => ~ entry_for (Task.id task) x) before /\
       entry_for (Task.id task) result /\
       json_get_default result "result" (JStr "") = Ok v /\
       completes_task r (Task.id task) v st st').
Proof.
  unfold poll_task.
  destruct (get_status net port (world st)) as [reply w].
  set (st1 := with_world w st).
  assert (Hsame : forall o, ends o st1 ->
    exists st', ends o st' /\ agents st' = agents st /\ sent st' = sent st /\
      ((tasks st' = tasks st /\ task_status st' = task_status st) \/
       exists w1 result_data w2 results items before result after v,
         get_results net port w1 = (Answers 200 (Some result_data), w2) /\
         json_get_default result_data "results" (JArr []) = Ok results /\
         json_iter results = Ok items /\
         items = before ++ result :: after /\
         Forall (fun x => ~ entry_for (Task.id task) x) before /\
         entry_for (Task.id task) result /\
         json_get_default result "result" (JStr "") = Ok v /\
         completes_task r (Task.id task) v st st')).
  { intros o Ho. exists st1. split; [exact Ho|]. auto 6. }
  destruct reply as [e|code body]; [apply Hsame, ends_Raised|].
  destruct (code =? 200); [|apply Hsame, ends_Done].
  destruct body as [status_data|]; [|apply Hsame, ends_Raised].
  destruct (json_get status_data "current_task") as [current_task|e|] eqn:Ect;
    [|apply Hsame, ends_Raised|now apply json_get_not_Stuck in Ect].
  cbn [lift].
  destruct (worker_idle status_data current_task) as [idle|e|] eqn:Eidle;
    [|apply Hsame, ends_Raised|].
  2:{ exfalso. unfold worker_idle in Eidle. destruct (truthy current_task); [|discriminate].
      destruct status_data; discriminate. }
  cbn [lift]. destruct idle; [|apply Hsame, ends_Done].
  destruct (get_results net port (world st1)) as [reply2 w2] eqn:Eres.
  set (st2 := with_world w2 st1).
  assert (Hsame2 : forall o, ends o st2 ->
    exists st', ends o st' /\ agents st' = agents st /\ sent st' = sent st /\
      ((tasks st' = tasks st /\ task_status st' = task_status st) \/
       exists w1 result_data w2 results items before result after v,
         get_results net port w1 = (Answers 200 (Some result_data), w2) /\
         json_get_default result_data "results" (JArr []) = Ok results /\
         json_iter results = Ok items /\
         items = before ++ result :: after /\
         Forall (fun x => ~ entry_for (Task.id task) x) before /\
         entry_for (Task.id task) result /\
         json_get_default result "result" (JStr "") = Ok v /\
         completes_task r (Task.id task) v st st')).
  { intros o Ho. exists st2. split; [exact Ho|]. auto 6. }
  destruct reply2 as [e|code2 body2]; [apply Hsame2, ends_Raised|].
  destruct (code2 =? 200) eqn:Ecode; [|apply Hsame2, ends_Done].
  apply Z.eqb_eq in Ecode. subst code2.
  destruct body2 as [result_data|]; [|apply Hsame2, ends_Raised].
  destruct (json_get_default result_data "results" (JArr [])) as [results|e|] eqn:Eresults;
    [|apply Hsame2, ends_Raised|now apply json_get_default_not_Stuck in Eresults].
  cbn [lift].
  destruct (json_iter results) as [items|e|] eqn:Eitems;
    [|apply Hsame2, ends_Raised|now apply json_iter_not_Stuck in Eitems].
  cbn [lift].
  destruct (find_result_spec items r (Task.id task) st2)
    as (st' & Hends & HA & HS & HW & Hch).
  exists st'. split; [exact Hends|]. split; [exact HA|]. split; [exact HS|].
  destruct Hch as [Hsm|(before & result & after & v & Hit & Hb & He & Hv & Hc)]; [now left|].
  right. exists (world st1), result_data, w2, results, items, before, result, after, v.
  repeat (split; [assumption|]). exact Hc.
Qed.

(** What a pass of the poller may have done between its start [st0] and
    a later point [st]: the registry, the call log, the number of tasks
    and the tracked identifiers are the same; a tracking entry is the
    same, or it was [in_progress] and is now [completed]; a task is the
    same, or it was tracked as [in_progress], is now tracked as
    [completed] and differs in its result only. *)
Record Polled st0 st : Prop := {
  q_agents : agents st = agents st0;
  q_sent : sent st = sent st0;
  q_length : length (tasks st) = length (tasks st0);
  q_keys : PyDict.keys (task_status st) = PyDict.keys (task_status st0);
  q_entries : forall id tr',
    PyDict.get (task_status st) id = Some tr' ->
    PyDict.get (task_status st0) id = Some tr' \/
    exists tr, PyDict.get (task_status st0) id = Some tr /\
      Tracking.status tr = in_progress /\ tr' = Tracking.set_status completed tr;
  q_tasks : forall r t',
    nth_error (tasks st) r = Some t' ->
    exists t, nth_error (tasks st0) r = Some t /\
      (t' = t \/
       (tracked (task_status st0) (Task.id t) in_progress /\
        tracked (task_status st) (Task.id t) completed /\
        exists v, t' = Task.set_result v t))
}.

Lemma Polled_refl st : Polled st st.
Proof. constructor; auto. intros r t' H. exists t'. auto. Qed.

Lemma nth_error_update_nth {A} (f : A -> A) (l : list A) r r' :
  nth_error (update_nth r f l) r' =
  if Nat.eqb r r' then option_map f (nth_error l r') else nth_error l r'.
Proof.
  revert r r'. induction l as [|x l IH]; intros [|r] [|r']; simpl; try reflexivity.
  - destruct (Nat.eqb r r'); reflexivity.
  - apply IH.
Qed.

Lemma length_update_nth {A} (f : A -> A) (l : list A) r :
  length (update_nth r f l) = length l.
Proof. revert r. induction l as [|x l IH]; intros [|r]; simpl; auto. Qed.

(** A state that differs from [st] in the world only. *)
Lemma Polled_same st0 st st' :
  Polled st0 st -> agents st' = agents st -> sent st' = sent st ->
  tasks st' = tasks st -> task_status st' = task_status st -> Polled st0 st'.
Proof.
  intros [QA QS QL QK QE QT] HA HS HT HTS.
  constructor; rewrite ?HA, ?HS, ?HT, ?HTS; auto.
Qed.

(** The poller's one change, made to a task tracked as [in_progress]. *)
Lemma Polled_completes st0 st st' r task v :
  Polled st0 st -> agents st' = agents st -> sent st' = sent st ->
  nth_error (tasks st) r = Some task ->
  tracked (task_status st) (Task.id task) in_progress ->
  completes_task r (Task.id task) v st st' -> Polled st0 st'.
Proof.
  intros [QA QS QL QK QE QT] HA HS Hn (tr0 & Hg0 & Hip) (tr & Hg & HTS & HT).
  assert (tr0 = tr) by congruence. subst tr0.
  constructor; rewrite ?HA, ?HS, ?HT, ?HTS; auto.
  - now rewrite length_update_nth.
  - rewrite keys_set_present; [assumption|]. eapply get_Some_keys; eauto.
  - intros id tr'. rewrite get_set. destruct (String.eqb (Task.id task) id) eqn:Eid.
    + apply String.eqb_eq in Eid. subst id. intros [= <-].
      destruct (QE _ _ Hg) as [H0|(tr1 & H1 & _ & ->)].
      * right. exists tr. auto.
      * simpl in Hip. discriminate.
    + apply QE.
  - intros r' t'. rewrite nth_error_update_nth.
    assert (Hkeep : forall t, tracked (task_status st) (Task.id t) completed ->
              tracked (PyDict.set (task_status st) (Task.id task)
                         (Tracking.set_status completed tr)) (Task.id t) completed).
    { intros t (trc & Hgc & Hsc). unfold tracked. rewrite get_set.
      destruct (String.eqb (Task.id task) (Task.id t)); eauto. }
    destruct (Nat.eqb r r') eqn:Er.
    + apply Nat.eqb_eq in Er. subst r'. rewrite Hn. simpl. intros [= <-].
      destruct (QT r task Hn) as (t & Ht & [->|(Hip0 & Hc & v0 & ->)]).
      * exists t. split; [assumption|]. right. split; [|split].
        -- destruct (QE _ _ Hg) as [H0|(tr1 & H1 & _ & ->)].
           ++ exists tr. auto.
           ++ simpl in Hip. discriminate.
        -- exists (Tracking.set_status completed tr). split; [apply get_set_same|reflexivity].
        -- eauto.
      * exists t. split; [assumption|]. right. split; [assumption|]. split.
        -- apply (Hkeep (Task.set_result v0 t)). exact Hc.
        -- exists v. reflexivity.
    + intros Hn'. destruct (QT r' t' Hn') as (t & Ht & [->|(Hip0 & Hc & v0 & ->)]).
      * exists t. auto.
      * exists t. split; [assumption|]. right. split; [assumption|]. split; [|eauto].
        now apply Hkeep.
Qed.

Lemma poll_loop_spec st0 refs : forall st,
  Polled st0 st ->
  (forall r, In r refs -> (r < length (tasks st))%nat) ->
  exists st', poll_loop net refs st = Done st' /\ Polled st0 st'.
Proof.
  induction refs as [|r rest IH]; intros st HQ Hvalid; cbn [poll_loop].
  - exists st. auto.
  - assert (Hr : (r < length (tasks st))%nat) by (apply Hvalid; now left).
    destruct (nth_error (tasks st) r) as [task|] eqn:Etask;
      [|apply nth_error_None in Etask; lia].
    unfold deref. rewrite Etask. cbn [lift].
    assert (Hskip : exists st', poll_loop net rest st = Done st' /\ Polled st0 st').
    { apply IH; [assumption|]. intros r0 H0. apply Hvalid. now right. }
    destruct (tracked_in_progress st task) eqn:Eip; [|exact Hskip].
    destruct (PyDict.get (agents st) (Task.agent task)) as [port|]; [|exact Hskip].
    destruct (poll_task_spec r task port st) as (st1 & Hends & HA & HS & Hch).
    assert (HQ1 : Polled st0 st1).
    { destruct Hch as [[HT HTS]|(w1 & rd & w2 & rs & items & before & result & after & v
                                 & _ & _ & _ & _ & _ & _ & _ & Hc)].
      - eapply Polled_same; eauto.
      - apply (Polled_completes st0 st st1 r task v HQ HA HS Etask); [|exact Hc].
        unfold tracked_in_progress in Eip.
        destruct (PyDict.get (task_status st) (Task.id task)) as [tr|] eqn:Etr; [|discriminate].
        exists tr. split; [exact Etr|]. now apply ResolutionFacts.Status_eqb_eq. }
    assert (Hcatch : catch (poll_task net r task port st) = Done st1).
    { destruct Hends as [->|[e ->]]; reflexivity. }
    rewrite Hcatch. cbn [and_then]. apply IH; [assumption|].
    intros r0 H0. rewrite (q_length _ _ HQ1), <- (q_length _ _ HQ). apply Hvalid. now right.
Qed.

(** C10. A pass of [update_task_status] returns and, whatever the
    workers answer, leaves the task list, the registry and the tracked
    identifiers as they were. A tracking entry is unchanged unless it
    was [in_progress], and then its only change is its status, to
    [completed]; a task is unchanged unless it was tracked as
    [in_progress], and then its only change is its result. When one
    task is polled, the change is made only with the result text of the
    first entry for that task in the result log its worker returned.
    So tasks tracked as [not_started], [assigned] or [completed] are
    never advanced by polling. *)
Theorem update_task_status_frame :
  (forall st, exists st', update_task_status net st = Done st' /\ Polled st st') /\
  (forall r task port st, exists st',
     ends (poll_task net r task port st) st' /\
     agents st' = agents st /\ sent st' = sent st /\
     ((tasks st' = tasks st /\ task_status st' = task_status st) \/
      exists w1 result_data w2 results items before result after v,
        get_results net port w1 = (Answers 200 (Some result_data), w2) /\
        json_get_default result_data "results" (JArr []) = Ok results /\
        json_iter results = Ok items /\
        items = before ++ result :: after /\
        Forall (fun x => ~ entry_for (Task.id task) x) before /\
        entry_for (Task.id task) result /\
        json_get_default result "result" (JStr "") = Ok v /\
        completes_task r (Task.id task) v st st')).
Proof.
  split.
  - intros st. unfold update_task_status. apply poll_loop_spec; [apply Polled_refl|].
    intros r Hr. apply in_seq in Hr. lia.
  - intros. apply poll_task_spec.
Qed.

End WithNetwork.

(** A worker that is idle and whose log holds the result of [task_1]. *)
Definition idle_worker : Network unit :=
  mkNetwork unit
    (fun _ _ w => (Fails (ClientError "unused"), w))
    (fun _ w =>
       (Answers 200 (Some (JObj [("status", JStr "idle"); ("current_task", JNull)])), w))
    (fun _ w =>
       (Answers 200
          (Some (JObj [("agent", JStr "developer");
                       ("results",
                        JArr [JObj [("task", JObj [("id", JStr "task_1")]);
                                    ("result", JStr "done");
                                    ("status", JStr "completed")]])])), w)).

(** A pass over four tasks, one in each status: only the one tracked as
    [in_progress] is advanced. *)
Example update_task_status_run :
  let four_tasks :=
    [ task "task_0" "Z" "developer" 1 []; task "task_1" "A" "developer" 1 [];
      task "task_2" "B" "developer" 1 []; task "task_3" "C" "developer" 1 [] ] in
  let st :=
    mkState four_tasks
      [ ("task_0", Tracking.mk not_started "developer");
        ("task_1", Tracking.mk in_progress "developer");
        ("task_2", Tracking.mk assigned "developer");
        ("task_3", Tracking.mk completed "developer") ]
      [("developer", 8001)] tt [] in
  exists st',
    update_task_status idle_worker st = Done st' /\
    map (fun kv => Tracking.status (snd kv)) (task_status st')
      = [not_started; completed; assigned; completed] /\
    map Task.result (tasks st') = [JNull; JStr "done"; JNull; JNull].
Proof. eexists. split; [reflexivity|]. split; reflexivity. Qed.

End PollerFacts.

(** ** The worker's task endpoint *)

Module SubAgentTheorems.

Import SubAgent.

Section WithTool.

Context {W : Type} (tool : Tool W).

(** The error response of [execute_task]. *)
Definition failed_response (e : Exn) : Z * Json :=
  (500, JObj [("status", JStr "failed"); ("error", JStr (str_exn tool e))]).

(** The success response of [execute_task]. *)
Definition completed_response (result : string) : Z * Json :=
  (200, JObj [("status", JStr "completed"); ("result", JStr result)]).

(** The worker once it has taken [task_data] as its current task. *)
Definition working_on (task_data : Json) (a : t) : t :=
  mk (name a) (role a) task_data (task_results a) "working".

(** The execution of a submission raises [e] inside the worker:
    [request.json()] raises, the payload is not an object, or
    [process_task] raises. The world is [w'] afterwards. *)
Definition raises (request : option Json) (a : t) (w : W) (e : Exn) (w' : W)
  : Prop :=
  (request = None /\ e = JSONDecodeError /\ w' = w) \/
  (exists task_data, request = Some task_data /\
     (forall fields, task_data <> JObj fields) /\ e = AttributeError /\ w' = w) \/
  (exists fields, request = Some (JObj fields) /\
     process_task tool (working_on (JObj fields) a) (JObj fields) w = (inr e, w')).

(** The execution of a submission succeeds with text [result]. *)
Definition succeeds (request : option Json) (a : t) (w : W)
  (task_data : Json) (result : string) (w' : W) : Prop :=
  exists fields, task_data = JObj fields /\ request = Some task_data /\
    process_task tool (working_on task_data a) task_data w = (inl result, w').

(** Every submission either raises or succeeds. *)
Lemma raises_or_succeeds request a w :
  (exists e w', raises request a w e w') \/
  (exists task_data result w', succeeds request a w task_data result w').
Proof.
  destruct request as [task_data|].
  - destruct task_data as [| | | | |fields];
      try (left; exists AttributeError, w; right; left; eexists; split; [reflexivity|];
           split; [discriminate|auto]).
    destruct (process_task tool (working_on (JObj fields) a) (JObj fields) w)
      as [[result|e] w'] eqn:Ep.
    + right. exists (JObj fields), result, w', fields. auto.
    + left. exists e, w'. right. right. exists fields. auto.
  - left. exists JSONDecodeError, w. left. auto.
Qed.

Lemma execute_task_raises request a w e w' :
  raises request a w e w' ->
  exists a',
    execute_task tool request a w = (failed_response e, a', w') /\
    task_results a' = task_results a /\ status a' = "error".
Proof.
  unfold execute_task, execute_task_body, failed_response.
  intros [(-> & -> & ->)|[(task_data & -> & Hno & -> & ->)|(fields & -> & Hp)]].
  - eexists. split; [reflexivity|]. auto.
  - destruct task_data as [| | | | |fields]; try (eexists; split; [reflexivity|]; now auto).
    now destruct (Hno fields).
  - unfold working_on in Hp. rewrite Hp. eexists. split; [reflexivity|]. auto.
Qed.

Lemma execute_task_succeeds request a w task_data result w' :
  succeeds request a w task_data result w' ->
  exists a',
    execute_task tool request a w = (completed_response result, a', w') /\
    task_results a' =
      task_results a ++ [ResultEntry.mk task_data result "completed"] /\
    status a' = "idle" /\ current_task a' = JNull.
Proof.
  unfold execute_task, execute_task_body, completed_response.
  intros (fields & -> & -> & Hp). unfold working_on in Hp. rewrite Hp.
  eexists. split; [reflexivity|]. auto.
Qed.

Lemma serve_log requests : forall a w,
  Forall (fun entry => ResultEntry.status entry = "completed") (task_results a) ->
  Forall (fun entry => ResultEntry.status entry = "completed")
    (task_results (snd (fst (serve tool requests a w)))).
Proof.
  induction requests as [|request rest IH]; intros a w Hlog; cbn [serve].
  - exact Hlog.
  - destruct (execute_task tool request a w) as [[response a1] w1] eqn:E1.
    specialize (IH a1 w1).
    destruct (serve tool rest a1 w1) as [[responses a2] w2]. simpl in *. apply IH.
    destruct (raises_or_succeeds request a w) as [(e & w' & Hr)|(td & res & w' & Hs)].
    + apply execute_task_raises in Hr as (a' & Hrun & Hlog' & _).
      rewrite E1 in Hrun. inversion Hrun; subst. now rewrite Hlog'.
    + apply execute_task_succeeds in Hs as (a' & Hrun & Hlog' & _).
      rewrite E1 in Hrun. inversion Hrun; subst. rewrite Hlog'.
      apply Forall_app. split; [assumption|]. constructor; [reflexivity|constructor].
Qed.

(** C9. When the execution of a submission raises inside the worker,
    [execute_task] answers HTTP 500 with status "failed" and leaves the
    result log as it was. An entry is appended only when the execution
    succeeds, and it has status "completed"; so the log of a worker that
    served any sequence of requests holds only entries with status
    "completed". *)
Theorem failed_execution_is_not_logged :
  (forall request a w e w',
     raises request a w e w' ->
     exists a',
       execute_task tool request a w
         = ((500, JObj [("status", JStr "failed"); ("error", JStr (str_exn tool e))]),
            a', w') /\
       task_results a' = task_results a) /\
  (forall request a w response a' w',
     execute_task tool request a w = (response, a', w') ->
     task_results a' = task_results a \/
     exists task_data result,
       succeeds request a w task_data result w' /\
       response = (200, JObj [("status", JStr "completed"); ("result", JStr result)]) /\
       task_results a' =
         task_results a ++ [ResultEntry.mk task_data result "completed"]) /\
  (forall requests name role w,
     Forall (fun entry => ResultEntry.status entry = "completed")
       (task_results (snd (fst (serve tool requests (init name role) w))))).
Proof.
  split; [|split].
  - intros request a w e w' Hr.
    destruct (execute_task_raises _ _ _ _ _ Hr) as (a' & Hrun & Hlog & _). eauto.
  - intros request a w response a' w' Hrun.
    destruct (raises_or_succeeds request a w) as [(e & w1 & Hr)|(td & res & w1 & Hs)].
    + apply execute_task_raises in Hr as (a1 & Hrun1 & Hlog & _).
      rewrite Hrun in Hrun1. inversion Hrun1; subst. now left.
    + pose proof Hs as Hs'.
      apply execute_task_succeeds in Hs as (a1 & Hrun1 & Hlog & _).
      rewrite Hrun in Hrun1. inversion Hrun1; subst. right. exists td, res. auto.
  - intros requests name role w. apply serve_log. constructor.
Qed.

End WithTool.

(** A tool whose result file cannot be written for the task [bad]. *)
Definition flaky_tool : Tool unit :=
  mkTool unit
    (fun _ _ w => ("output", w))
    (fun _ task _ w =>
       (match json_get_default task "id" JNull with
        | Ok (JStr "bad") => Some (OSError "disk full")
        | _ => None
        end, w))
    (fun e => match e with OSError msg => msg | _ => "error" end).

(** A worker that serves a good task, a bad one and a body that is not
    JSON: one entry in the log, for the good task. *)
Example serve_run :
  serve flaky_tool
    [ Some (JObj [("id", JStr "task_1"); ("title", JStr "T")]);
      Some (JObj [("id", JStr "bad")]);
      None ]
    (init "developer" "code_implementation") tt
  = ([ (200, JObj [("status", JStr "completed"); ("result", JStr "output")]);
       (500, JObj [("status", JStr "failed"); ("error", JStr "disk full")]);
       (500, JObj [("status", JStr "failed"); ("error", JStr "error")]) ],
     mk "developer" "code_implementation" (JObj [("id", JStr "bad")])
       [ResultEntry.mk (JObj [("id", JStr "task_1"); ("title", JStr "T")])
          "output" "completed"]
       "error",
     tt).
Proof. reflexivity. Qed.

End SubAgentTheorems.

(** ** The task-list parser *)

Module ParserTheorems.

Import TaskManager.

Lemma rep_inv {R} (c : ascii -> bool) (k : list ascii -> option R) input :
  forall cs r, Regex.rep c k input = Some (cs, r) ->
  Forall (fun a => c a = true) cs /\
  exists rest, k rest = Some r /\ (length rest <= length input)%nat.
Proof.
  induction input as [|a input IH]; intros cs r; simpl.
  - destruct (k []) as [r0|] eqn:Ek; simpl; [|discriminate].
    intros [= <- <-]. split; [constructor|eauto].
  - assert (Hstop : option_map (fun r0 => (@nil ascii, r0)) (k (a :: input)) = Some (cs, r) ->
                    Forall (fun a => c a = true) cs /\
                    exists rest, k rest = Some r /\ (length rest <= S (length input))%nat).
    { destruct (k (a :: input)) as [r0|] eqn:Ek; simpl; [|discriminate].
      intros [= <- <-]. split; [constructor|]. exists (a :: input). auto. }
    destruct (c a) eqn:Eca; [|exact Hstop].
    destruct (Regex.rep c k input) as [[cs' r']|] eqn:Erep; [|exact Hstop].
    intros [= <- <-]. destruct (IH cs' r' eq_refl) as [Hcs (rest & Hk & Hlen)].
    split; [constructor; assumption|]. exists rest. split; [exact Hk|lia].
Qed.

Lemma rep1_inv {R} (c : ascii -> bool) (k : list ascii -> option R) input cs r :
  Regex.rep1 c k input = Some (cs, r) ->
  Forall (fun a => c a = true) cs /\
  exists rest, k rest = Some r /\ (length rest < length input)%nat.
Proof.
  unfold Regex.rep1. destruct input as [|a input]; [discriminate|].
  destruct (c a) eqn:Eca; [|discriminate].
  destruct (Regex.rep c k input) as [[cs' r']|] eqn:Erep; [|discriminate].
  intros [= <- <-]. apply rep_inv in Erep as [Hcs (rest & Hk & Hlen)].
  split; [constructor; assumption|]. exists rest. split; [exact Hk|simpl; lia].
Qed.

Lemma search_inv re input m :
  Regex.search re input = Some m ->
  exists suffix, Regex.match_here re suffix = Some m /\
                 (length suffix <= length input)%nat.
Proof.
  induction input as [|a input IH]; simpl.
  - destruct (Regex.match_here re []) eqn:E; [|discriminate]. intros [= <-]. eauto.
  - destruct (Regex.match_here re (a :: input)) eqn:E.
    + intros [= <-]. exists (a :: input). auto.
    + intros H. destruct (IH H) as (suffix & Hm & Hlen). exists suffix. split; [exact Hm|lia].
Qed.

Lemma strip_prefix_length p : forall input rest,
  Regex.strip_prefix p input = Some rest ->
  length input = (length p + length rest)%nat.
Proof.
  induction p as [|a p IH]; intros [|b input] rest; simpl; try discriminate.
  - intros [= <-]. reflexivity.
  - intros [= <-]. reflexivity.
  - destruct (Ascii.eqb a b); [|discriminate]. intros H. apply IH in H. lia.
Qed.

(** A match leaves a suffix of the input. *)
Lemma match_here_length re : forall input g rest,
  Regex.match_here re input = Some (g, rest) -> (length rest <= length input)%nat.
Proof.
  induction re as [|item re IH]; intros input g rest; cbn [Regex.match_here].
  - intros [= _ <-]. lia.
  - destruct item as [s|c|c].
    + destruct (Regex.strip_prefix _ input) as [r1|] eqn:Ep; [|discriminate].
      intros H. apply IH in H. apply strip_prefix_length in Ep. lia.
    + destruct (Regex.rep c _ input) as [[cs m]|] eqn:Er; [|discriminate].
      simpl. intros [= ->]. apply rep_inv in Er as [_ (r1 & Hk & Hlen)].
      apply IH in Hk. lia.
    + destruct (Regex.rep1 c _ input) as [[cs [groups r0]]|] eqn:Er; [|discriminate].
      intros [= _ <-]. apply rep1_inv in Er as [_ (r1 & Hk & Hlen)].
      apply IH in Hk. lia.
Qed.

(** A match of [task_pattern] is not empty. *)
Lemma task_pattern_consumes input g rest :
  Regex.search task_pattern input = Some (g, rest) ->
  (length rest < length input)%nat.
Proof.
  intros H. apply search_inv in H as (suffix & Hm & Hlen).
  unfold task_pattern in Hm. cbn [Regex.match_here] in Hm.
  destruct (Regex.strip_prefix _ suffix) as [r1|] eqn:Ep; [|discriminate].
  apply strip_prefix_length in Ep. simpl in Ep.
  assert (Hle : (length rest <= length r1)%nat).
  { revert Hm. apply (match_here_length
      [ Regex.Capture (Regex.none_of "*"); Regex.Lit "** - ";
        Regex.Capture (Regex.none_of "("); Regex.Lit "(";
        Regex.Capture (Regex.none_of ")"); Regex.Lit ")" ]). }
  lia.
Qed.

(** The fuel of [finditer] is enough: more fuel finds the same matches. *)
Lemma finditer_from_fuel re :
  (forall input g rest, Regex.search re input = Some (g, rest) ->
     (length rest < length input)%nat) ->
  forall fuel fuel' input,
    (length input < fuel)%nat -> (length input < fuel')%nat ->
    Regex.finditer_from fuel re input = Regex.finditer_from fuel' re input.
Proof.
  intros Hre. induction fuel as [|fuel IH]; intros [|fuel'] input H H'; try lia.
  simpl. destruct (Regex.search re input) as [[g rest]|] eqn:Es; [|reflexivity].
  apply Hre in Es. f_equal. apply IH; lia.
Qed.

Lemma parse_tasks_markdown_fuel content fuel :
  (length (list_ascii_of_string content) < fuel)%nat ->
  parse_tasks_markdown content =
  parse_matches (Regex.finditer_from fuel task_pattern (list_ascii_of_string content)) [].
Proof.
  intros H. unfold parse_tasks_markdown, Regex.finditer. f_equal.
  apply (finditer_from_fuel task_pattern task_pattern_consumes); [lia|exact H].
Qed.

(** The group that [deps_pattern] captures holds no comma. *)
Lemma deps_pattern_group input g rest :
  Regex.search deps_pattern input = Some (g, rest) ->
  exists cs, g = [string_of_list_ascii cs] /\
             Forall (fun a => Regex.none_of ",)" a = true) cs.
Proof.
  intros H. apply search_inv in H as (suffix & H & _).
  unfold deps_pattern in H. cbn [Regex.match_here] in H.
  destruct (Regex.strip_prefix _ suffix) as [r1|]; [|discriminate].
  destruct (Regex.rep Regex.is_space _ r1) as [[ws m]|] eqn:Erep; [|discriminate].
  simpl in H. inversion H; subst m. clear H.
  apply rep_inv in Erep as [_ (r2 & Hk & _)].
  destruct (Regex.rep1 (Regex.none_of ",)") _ r2) as [[cs [groups rest']]|] eqn:E1;
    [|discriminate].
  inversion Hk; subst. apply rep1_inv in E1 as [Hcs (r3 & Hk3 & _)].
  simpl in Hk3. inversion Hk3; subst. eauto.
Qed.

Lemma lstrip_Forall (P : ascii -> Prop) l : Forall P l -> Forall P (Str.lstrip l).
Proof.
  induction 1 as [|a l Ha Hl IH]; simpl; [constructor|].
  destruct (Regex.is_space a); [exact IH|now constructor].
Qed.

Lemma strip_Forall (P : ascii -> Prop) cs :
  Forall P cs ->
  Forall P (list_ascii_of_string (Str.strip (string_of_list_ascii cs))).
Proof.
  intros H. unfold Str.strip. rewrite !list_ascii_of_string_of_list_ascii.
  apply Forall_rev, lstrip_Forall, Forall_rev, lstrip_Forall, H.
Qed.

Lemma split_from_no_sep sep s : forall cur,
  Forall (fun a => Ascii.eqb a sep = false) s ->
  length (Str.split_from sep cur s) = 1%nat.
Proof.
  induction s as [|a s IH]; intros cur H; simpl; [reflexivity|].
  inversion H; subst. rewrite H2. now apply IH.
Qed.

(** Whatever a match holds, the task built from it has at most one
    dependency. *)
Lemma parse_match_dependencies count groups :
  (length (Task.dependencies (parse_match count groups)) <= 1)%nat.
Proof.
  unfold parse_match. cbn [Task.dependencies].
  destruct (Regex.search deps_pattern _) as [[g rest]|] eqn:Es; [|simpl; lia].
  apply deps_pattern_group in Es as (cs & -> & Hcs).
  destruct (negb _ && negb _); [|simpl; lia].
  rewrite length_map. unfold Str.split. rewrite split_from_no_sep; [lia|].
  change (Regex.group [string_of_list_ascii cs] 1) with (string_of_list_ascii cs).
  apply strip_Forall. eapply Forall_impl; [|exact Hcs].
  intros a Ha. unfold Regex.none_of in Ha. simpl in Ha.
  destruct (Ascii.eqb a ","); [discriminate|reflexivity].
Qed.

Lemma parse_matches_Forall (P : Task.t -> Prop) ms :
  (forall count groups, P (parse_match count groups)) ->
  forall tasks, Forall P tasks -> Forall P (parse_matches ms tasks).
Proof.
  intros HP. induction ms as [|groups ms IH]; intros tasks Ht; simpl; [exact Ht|].
  apply IH. apply Forall_app. split; [exact Ht|]. constructor; [apply HP|constructor].
Qed.

(** The line of the task list that the composer itself generates for
    the integration task. *)
Definition integration_line : string :=
  "- [ ] **integration** - Integrate all components (Priority: 6, Agent: developer, Dependencies: feature_implementation, ui_design)".

(** C7, on the code: the line above names two dependencies, and the
    task parsed from it has only the first; in general no parsed task
    has more than one dependency, because the group [[^,)]+] of the
    pattern stops at the first comma, before [split(',')] is reached. *)
Theorem parse_keeps_first_dependency_only :
  parse_tasks_markdown integration_line =
    [ Task.mk "task_1" "integration" "Integrate all components" "developer" 6
        ["feature_implementation"] not_started JNull ] /\
  forall content,
    Forall (fun t => (length (Task.dependencies t) <= 1)%nat)
      (parse_tasks_markdown content).
Proof.
  split; [reflexivity|].
  intros content. unfold parse_tasks_markdown.
  apply parse_matches_Forall; [apply parse_match_dependencies|constructor].
Qed.

Definition nl : string := String (ascii_of_nat 10) EmptyString.

(** The input of the repository's test of the parser. *)
Definition test_markdown : string :=
  nl ++ "        # Task List" ++ nl ++ "        " ++ nl
  ++ "        ## Development Tasks" ++ nl
  ++ "        - [ ] **setup_project** - Setup project structure (Priority: 1, Agent: developer)" ++ nl
  ++ "        - [ ] **implement_api** - Implement REST API (Priority: 2, Agent: developer, Dependencies: setup_project)" ++ nl
  ++ "        - [ ] **create_tests** - Create unit tests (Priority: 3, Agent: qa, Dependencies: implement_api)" ++ nl
  ++ "        ".

Example test_parse_tasks_markdown :
  parse_tasks_markdown test_markdown =
    [ Task.mk "task_1" "setup_project" "Setup project structure" "developer" 1
        [] not_started JNull;
      Task.mk "task_2" "implement_api" "Implement REST API" "developer" 2
        ["setup_project"] not_started JNull;
      Task.mk "task_3" "create_tests" "Create unit tests" "qa" 3
        ["implement_api"] not_started JNull ].
Proof. reflexivity. Qed.

(** The defaults: priority 5, agent [developer], no dependencies for a
    missing field, for [none] and for an empty value. *)
Example parse_defaults :
  parse_tasks_markdown
    ("- [ ] **a** - First (Agent: qa)" ++ nl
     ++ "- [ ] **b** - Second (Priority: 2)" ++ nl
     ++ "- [ ] **c** - Third (Priority: 3, Agent: qa, Dependencies: none)" ++ nl
     ++ "- [ ] **d** - Fourth (Priority: 4, Agent: qa, Dependencies: )")
  = [ Task.mk "task_1" "a" "First" "qa" 5 [] not_started JNull;
      Task.mk "task_2" "b" "Second" "developer" 2 [] not_started JNull;
      Task.mk "task_3" "c" "Third" "qa" 3 [] not_started JNull;
      Task.mk "task_4" "d" "Fourth" "qa" 4 [] not_started JNull ].
Proof. reflexivity. Qed.

End ParserTheorems.

(** ** More on the task-list parser *)

Module ParserProperties.

Import TaskManager ParserTheorems.

(** *** Text helpers *)

Lemma lstrip_length l : (length (Str.lstrip l) <= length l)%nat.
Proof.
  induction l as [|c l IH]; simpl; [lia|].
  destruct (Regex.is_space c); simpl; lia.
Qed.

Lemma lstrip_suffix l : exists pre, l = pre ++ Str.lstrip l.
Proof.
  induction l as [|c l [pre IH]]; simpl.
  - now exists [].
  - destruct (Regex.is_space c).
    + exists (c :: pre). simpl. now rewrite <- IH.
    + now exists [].
Qed.

Lemma lstrip_idem l : Str.lstrip (Str.lstrip l) = Str.lstrip l.
Proof.
  induction l as [|c l IH]; simpl; [reflexivity|].
  destruct (Regex.is_space c) eqn:E; [exact IH|]. simpl. now rewrite E.
Qed.

Lemma lstrip_prefix_fixed r q :
  Str.lstrip (r ++ q) = r ++ q -> Str.lstrip r = r.
Proof.
  destruct r as [|c r]; [reflexivity|]. simpl.
  destruct (Regex.is_space c); [|reflexivity].
  intros H. pose proof (lstrip_length (r ++ q)) as Hl. rewrite H in Hl.
  simpl in Hl. lia.
Qed.

(** The characters that [strip] leaves start and end with no blank. *)
Lemma strip_core l :
  let r := rev (Str.lstrip (rev (Str.lstrip l))) in
  Str.lstrip r = r /\ Str.lstrip (rev r) = rev r.
Proof.
  intros r. unfold r. split.
  - destruct (lstrip_suffix (rev (Str.lstrip l))) as [pre Hpre].
    apply (lstrip_prefix_fixed _ (rev pre)).
    rewrite <- rev_app_distr, <- Hpre, rev_involutive. apply lstrip_idem.
  - rewrite rev_involutive. apply lstrip_idem.
Qed.

(** [strip] is idempotent. *)
Lemma strip_idem s : Str.strip (Str.strip s) = Str.strip s.
Proof.
  unfold Str.strip. rewrite list_ascii_of_string_of_list_ascii.
  destruct (strip_core (list_ascii_of_string s)) as [H1 H2].
  rewrite H1, H2. now rewrite rev_involutive.
Qed.

Lemma split_from_no_sep_eq sep s : forall cur,
  Forall (fun a => Ascii.eqb a sep = false) s ->
  Str.split_from sep cur s = [string_of_list_ascii (rev cur ++ s)].
Proof.
  induction s as [|a s IH]; intros cur H; simpl.
  - now rewrite app_nil_r.
  - inversion H; subst. rewrite H2. rewrite IH by assumption.
    simpl. now rewrite <- app_assoc.
Qed.

(** [int(str(n))] is [n]. *)
Lemma int_of_digits_acc fuel : forall n acc,
  (n < fuel)%nat ->
  fold_left (fun a c => 10 * a + (Z.of_nat (nat_of_ascii c) - 48))
    (Str.digits_of_nat fuel n acc) 0
  = fold_left (fun a c => 10 * a + (Z.of_nat (nat_of_ascii c) - 48))
      acc (Z.of_nat n).
Proof.
  induction fuel as [|fuel IH]; intros n acc Hn; [lia|].
  cbn [Str.digits_of_nat].
  assert (Hd : Z.of_nat (nat_of_ascii (ascii_of_nat (48 + n mod 10))) - 48
               = Z.of_nat (n mod 10)).
  { rewrite nat_ascii_embedding.
    - lia.
    - pose proof (Nat.mod_upper_bound n 10). lia. }
  destruct (n <? 10)%nat eqn:E.
  - apply Nat.ltb_lt in E. cbn [fold_left]. rewrite Hd.
    rewrite Nat.mod_small by assumption. f_equal.
  - apply Nat.ltb_ge in E. rewrite IH.
    + cbn [fold_left]. rewrite Hd. f_equal.
      pose proof (Nat.div_mod_eq n 10). lia.
    + pose proof (Nat.div_lt n 10). lia.
Qed.

Lemma int_of_digits_str_of_nat n :
  Str.int_of_digits (Str.str_of_nat n) = Z.of_nat n.
Proof.
  unfold Str.int_of_digits, Str.str_of_nat.
  rewrite list_ascii_of_string_of_list_ascii.
  rewrite int_of_digits_acc by lia. reflexivity.
Qed.

Lemma str_of_nat_inj n m : Str.str_of_nat n = Str.str_of_nat m -> n = m.
Proof.
  intros H. apply (f_equal Str.int_of_digits) in H.
  rewrite !int_of_digits_str_of_nat in H. lia.
Qed.

(** *** What the patterns capture *)

Lemma rep1_nonempty {R} (c : ascii -> bool) (k : list ascii -> option R) input cs r :
  Regex.rep1 c k input = Some (cs, r) -> cs <> [].
Proof.
  unfold Regex.rep1. destruct input as [|a input]; [discriminate|].
  destruct (c a); [|discriminate].
  destruct (Regex.rep c k input) as [[cs' r']|]; [|discriminate].
  intros [= <- _]. discriminate.
Qed.

(** A pattern [lit\s*(c+)] captures a non-empty run of [c]. *)
Lemma lit_many_capture_group lit c0 c input g rest :
  Regex.search [Regex.Lit lit; Regex.Many c0; Regex.Capture c] input
    = Some (g, rest) ->
  exists cs, g = [string_of_list_ascii cs] /\
             Forall (fun a => c a = true) cs /\ cs <> [].
Proof.
  intros H. apply search_inv in H as (suffix & H & _).
  cbn [Regex.match_here] in H.
  destruct (Regex.strip_prefix _ suffix) as [r1|]; [|discriminate].
  destruct (Regex.rep c0 _ r1) as [[ws m]|] eqn:Erep; [|discriminate].
  simpl in H. inversion H; subst m. clear H.
  apply rep_inv in Erep as [_ (r2 & Hk & _)].
  destruct (Regex.rep1 c _ r2) as [[cs [groups rest']]|] eqn:E1; [|discriminate].
  inversion Hk; subst. pose proof (rep1_nonempty _ _ _ _ _ E1) as Hne.
  apply rep1_inv in E1 as [Hcs (r3 & Hk3 & _)].
  simpl in Hk3. inversion Hk3; subst. eauto.
Qed.

(** The three groups of a match of [task_pattern]. *)
Definition task_groups (g : list string) : Prop :=
  exists c1 c2 c3,
    g = [string_of_list_ascii c1; string_of_list_ascii c2; string_of_list_ascii c3] /\
    Forall (fun a => Regex.none_of "*" a = true) c1 /\
    Forall (fun a => Regex.none_of "(" a = true) c2 /\
    Forall (fun a => Regex.none_of ")" a = true) c3.

Lemma task_pattern_groups input g rest :
  Regex.search task_pattern input = Some (g, rest) -> task_groups g.
Proof.
  intros H. apply search_inv in H as (suffix & H & _).
  unfold task_pattern in H. cbn [Regex.match_here] in H.
  destruct (Regex.strip_prefix _ suffix) as [r1|]; [|discriminate].
  destruct (Regex.rep1 (Regex.none_of "*") _ r1) as [[c1 [g1 rest1]]|] eqn:E1;
    [|discriminate].
  inversion H; subst. clear H.
  apply rep1_inv in E1 as [H1 (r2 & Hk2 & _)].
  destruct (Regex.strip_prefix _ r2) as [r3|]; [|discriminate].
  destruct (Regex.rep1 (Regex.none_of "(") _ r3) as [[c2 [g2 rest2]]|] eqn:E2;
    [|discriminate].
  inversion Hk2; subst. clear Hk2.
  apply rep1_inv in E2 as [H2 (r4 & Hk4 & _)].
  destruct (Regex.strip_prefix _ r4) as [r5|]; [|discriminate].
  destruct (Regex.rep1 (Regex.none_of ")") _ r5) as [[c3 [g3 rest3]]|] eqn:E3;
    [|discriminate].
  inversion Hk4; subst. clear Hk4.
  apply rep1_inv in E3 as [H3 (r6 & Hk6 & _)].
  destruct (Regex.strip_prefix _ r6) as [r7|]; [|discriminate].
  inversion Hk6; subst. exists c1, c2, c3. auto.
Qed.

Lemma finditer_from_Forall (Q : list string -> Prop) re :
  (forall input g rest, Regex.search re input = Some (g, rest) -> Q g) ->
  forall fuel input, Forall Q (Regex.finditer_from fuel re input).
Proof.
  intros HQ. induction fuel as [|fuel IH]; intros input; simpl; [constructor|].
  destruct (Regex.search re input) as [[g rest]|] eqn:E; [|constructor].
  constructor; [eapply HQ; eauto|apply IH].
Qed.

Lemma parse_matches_Forall_on (Q : list string -> Prop) (P : Task.t -> Prop) ms :
  (forall count groups, Q groups -> P (parse_match count groups)) ->
  Forall Q ms ->
  forall tasks, Forall P tasks -> Forall P (parse_matches ms tasks).
Proof.
  intros HP HQ. induction HQ as [|groups ms Hg HQ IH]; intros tasks Ht; simpl;
    [exact Ht|].
  apply IH. apply Forall_app. split; [exact Ht|].
  constructor; [now apply HP|constructor].
Qed.

Lemma NoDup_map_injective {A B} (f : A -> B) l :
  (forall x y, f x = f y -> x = y) -> NoDup l -> NoDup (map f l).
Proof.
  intros Hf. induction 1 as [|x l Hx Hl IH]; simpl; constructor; [|exact IH].
  intros Hin. apply in_map_iff in Hin as (y & Hy & Hin). apply Hf in Hy. now subst.
Qed.

(** The identifiers that the loop hands out. *)
Lemma parse_matches_ids ms : forall tasks,
  map Task.id (parse_matches ms tasks)
  = map Task.id tasks
    ++ map (fun i => ("task_" ++ Str.str_of_nat (i + 1))%string)
         (seq (length tasks) (length ms)).
Proof.
  induction ms as [|groups ms IH]; intros tasks; simpl.
  - now rewrite app_nil_r.
  - rewrite IH. rewrite map_app, length_app. cbn [map length Nat.add].
    rewrite <- app_assoc. cbn [app]. f_equal. f_equal.
    replace (length tasks + 1)%nat with (S (length tasks)) by lia. reflexivity.
Qed.

Lemma parse_matches_length ms : forall tasks,
  length (parse_matches ms tasks) = (length tasks + length ms)%nat.
Proof.
  induction ms as [|groups ms IH]; intros tasks; simpl; [lia|].
  rewrite IH, length_app. simpl. lia.
Qed.

(** A pattern that begins with a literal finds nothing where the
    literal alone finds nothing. *)
Lemma search_literal_None lit re input :
  Regex.search [Regex.Lit lit] input = None ->
  Regex.search (Regex.Lit lit :: re) input = None.
Proof.
  induction input as [|a input IH]; cbn [Regex.search Regex.match_here].
  - destruct (Regex.strip_prefix _ []); [discriminate|reflexivity].
  - destruct (Regex.strip_prefix _ (a :: input)); [discriminate|]. exact IH.
Qed.

(** The numeric value of a run of digits is not negative. *)
Lemma int_of_digits_nonneg cs :
  Forall (fun a => Regex.is_digit a = true) cs ->
  0 <= Str.int_of_digits (string_of_list_ascii cs).
Proof.
  intros H. unfold Str.int_of_digits. rewrite list_ascii_of_string_of_list_ascii.
  assert (Hacc : forall acc, 0 <= acc ->
            0 <= fold_left (fun a c => 10 * a + (Z.of_nat (nat_of_ascii c) - 48)) cs acc).
  { induction H as [|c cs Hc Hcs IH]; intros acc Hacc; cbn [fold_left]; [assumption|].
    apply IH. unfold Regex.is_digit in Hc. cbv zeta in Hc.
    apply andb_true_iff in Hc as [Hc _]. apply Nat.leb_le in Hc. lia. }
  apply Hacc. lia.
Qed.

(** *** Text below 128 *)

(** Every character of the text is below 128. *)
Definition ascii_text (s : string) : bool :=
  forallb (fun c => (nat_of_ascii c <? 128)%nat) (list_ascii_of_string s).

Definition low (c : ascii) : Prop := (nat_of_ascii c < 128)%nat.

(** A blank below 128, as [str.isspace] has it: tab, line feed,
    vertical tab, form feed, carriage return, the four separators 28 to
    31 and the space. *)
Definition blank (c : ascii) : Prop :=
  In (nat_of_ascii c) [9; 10; 11; 12; 13; 28; 29; 30; 31; 32]%nat.

(** A digit, a letter or the underscore. *)
Definition word_character (c : ascii) : Prop :=
  let n := nat_of_ascii c in
  (48 <= n <= 57 \/ 65 <= n <= 90 \/ 97 <= n <= 122 \/ n = 95)%nat.

(** No blank at the start and none at the end. *)
Definition no_blank_ends (s : string) : Prop :=
  forall c l,
    list_ascii_of_string s = c :: l \/ list_ascii_of_string s = l ++ [c] ->
    ~ blank c.

Lemma ascii_text_low s : ascii_text s = true <-> Forall low (list_ascii_of_string s).
Proof.
  unfold ascii_text. rewrite forallb_forall, Forall_forall.
  split; intros H c Hc; apply H in Hc; unfold low in *; now apply Nat.ltb_lt.
Qed.

Lemma ascii_text_of_list cs : Forall low cs -> ascii_text (string_of_list_ascii cs) = true.
Proof. intros H. apply ascii_text_low. now rewrite list_ascii_of_string_of_list_ascii. Qed.

Lemma is_space_blank c : Regex.is_space c = true <-> blank c.
Proof.
  unfold Regex.is_space, blank. cbv zeta.
  rewrite orb_true_iff, !andb_true_iff, !Nat.leb_le. simpl. lia.
Qed.

Lemma is_word_word_character c : Regex.is_word c = true <-> word_character c.
Proof.
  unfold Regex.is_word, word_character. cbv zeta.
  rewrite !orb_true_iff, !andb_true_iff, !Nat.leb_le, Nat.eqb_eq. lia.
Qed.

Lemma none_of_spec s c :
  Regex.none_of s c = true <-> ~ In c (list_ascii_of_string s).
Proof.
  unfold Regex.none_of. rewrite negb_true_iff. split.
  - intros H Hin. assert (Hex : existsb (Ascii.eqb c) (list_ascii_of_string s) = true).
    { apply existsb_exists. exists c. split; [assumption|apply Ascii.eqb_refl]. }
    congruence.
  - intros H. destruct (existsb _ _) eqn:E; [|reflexivity].
    apply existsb_exists in E as (x & Hx & Heq). apply Ascii.eqb_eq in Heq. now subst.
Qed.

Lemma lstrip_fixed_head c l : Str.lstrip (c :: l) = c :: l -> Regex.is_space c = false.
Proof.
  simpl. destruct (Regex.is_space c); [|reflexivity].
  intros H. pose proof (lstrip_length l) as Hl. rewrite H in Hl. simpl in Hl. lia.
Qed.

(** What [strip] returns has no blank at either end. *)
Lemma strip_no_blank_ends s : no_blank_ends (Str.strip s).
Proof.
  intros c l H. rewrite <- is_space_blank.
  unfold Str.strip in H. rewrite list_ascii_of_string_of_list_ascii in H.
  destruct (strip_core (list_ascii_of_string s)) as [H1 H2]. cbv zeta in H1, H2.
  destruct H as [H|H]; rewrite H in H1, H2.
  - rewrite (lstrip_fixed_head _ _ H1). discriminate.
  - rewrite rev_app_distr in H2. simpl in H2.
    rewrite (lstrip_fixed_head _ _ H2). discriminate.
Qed.

(** *** A match holds characters of the input only *)

Lemma strip_prefix_Forall (P : ascii -> Prop) p : forall input rest,
  Regex.strip_prefix p input = Some rest -> Forall P input -> Forall P rest.
Proof.
  induction p as [|a p IH]; intros [|b input] rest; simpl; try discriminate.
  - intros [= <-]. auto.
  - intros [= <-]. auto.
  - destruct (Ascii.eqb a b); [|discriminate]. intros H HP.
    inversion HP; subst. eauto.
Qed.

Lemma rep_Forall (P : ascii -> Prop) {R} (c : ascii -> bool)
  (k : list ascii -> option R) input :
  forall cs r, Regex.rep c k input = Some (cs, r) -> Forall P input ->
  Forall P cs /\ exists rest, k rest = Some r /\ Forall P rest.
Proof.
  induction input as [|a input IH]; intros cs r; simpl.
  - destruct (k []) as [r0|] eqn:Ek; simpl; [|discriminate].
    intros [= <- <-] _. split; [constructor|]. exists []. auto.
  - assert (Hstop : option_map (fun r0 => (@nil ascii, r0)) (k (a :: input)) = Some (cs, r) ->
                    Forall P (a :: input) ->
                    Forall P cs /\ exists rest, k rest = Some r /\ Forall P rest).
    { destruct (k (a :: input)) as [r0|] eqn:Ek; simpl; [|discriminate].
      intros [= <- <-] HP. split; [constructor|]. exists (a :: input). auto. }
    destruct (c a) eqn:Eca; [|exact Hstop].
    destruct (Regex.rep c k input) as [[cs' r']|] eqn:Erep; [|exact Hstop].
    intros [= <- <-] HP. inversion HP; subst.
    destruct (IH cs' r' eq_refl) as [Hcs (rest & Hk & Hrest)]; [assumption|].
    split; [now constructor|]. eauto.
Qed.

Lemma rep1_Forall (P : ascii -> Prop) {R} (c : ascii -> bool)
  (k : list ascii -> option R) input cs r :
  Regex.rep1 c k input = Some (cs, r) -> Forall P input ->
  Forall P cs /\ exists rest, k rest = Some r /\ Forall P rest.
Proof.
  unfold Regex.rep1. destruct input as [|a input]; [discriminate|].
  destruct (c a) eqn:Eca; [|discriminate].
  destruct (Regex.rep c k input) as [[cs' r']|] eqn:Erep; [|discriminate].
  intros [= <- <-] HP. inversion HP; subst.
  destruct (rep_Forall P c k input cs' r' Erep) as [Hcs (rest & Hk & Hrest)];
    [assumption|].
  split; [now constructor|]. eauto.
Qed.

(** The groups of a match. *)
Definition groups_in (P : ascii -> Prop) (g : list string) : Prop :=
  Forall (fun s => Forall P (list_ascii_of_string s)) g.

Lemma match_here_Forall (P : ascii -> Prop) re : forall input g rest,
  Regex.match_here re input = Some (g, rest) -> Forall P input ->
  groups_in P g /\ Forall P rest.
Proof.
  induction re as [|item re IH]; intros input g rest; cbn [Regex.match_here].
  - intros [= <- <-] HP. split; [constructor|assumption].
  - destruct item as [s|c|c].
    + destruct (Regex.strip_prefix _ input) as [r1|] eqn:Ep; [|discriminate].
      intros H HP. apply (IH r1); [assumption|].
      eapply strip_prefix_Forall; eauto.
    + destruct (Regex.rep c _ input) as [[cs m]|] eqn:Er; [|discriminate].
      simpl. intros [= ->] HP.
      destruct (rep_Forall P _ _ _ _ _ Er HP) as [_ (r1 & Hk & Hr1)]. eauto.
    + destruct (Regex.rep1 c _ input) as [[cs [groups r0]]|] eqn:Er; [|discriminate].
      intros [= <- <-] HP.
      destruct (rep1_Forall P _ _ _ _ _ Er HP) as [Hcs (r1 & Hk & Hr1)].
      destruct (IH _ _ _ Hk Hr1) as [Hg Hrest].
      split; [|assumption]. constructor; [|assumption].
      now rewrite list_ascii_of_string_of_list_ascii.
Qed.

Lemma search_Forall (P : ascii -> Prop) re input : forall g rest,
  Regex.search re input = Some (g, rest) -> Forall P input ->
  groups_in P g /\ Forall P rest.
Proof.
  induction input as [|a input IH]; intros g rest; simpl.
  - destruct (Regex.match_here re []) as [m|] eqn:E; [|discriminate].
    intros [= ->] HP. eapply match_here_Forall; eauto.
  - destruct (Regex.match_here re (a :: input)) as [m|] eqn:E.
    + intros [= ->] HP. eapply match_here_Forall; eauto.
    + intros H HP. inversion HP; subst. eauto.
Qed.

Lemma finditer_from_Forall_in (P : ascii -> Prop) (Q : list string -> Prop) re :
  (forall input g rest, Regex.search re input = Some (g, rest) -> Q g) ->
  forall fuel input, Forall P input ->
    Forall (fun g => Q g /\ groups_in P g) (Regex.finditer_from fuel re input).
Proof.
  intros HQ. induction fuel as [|fuel IH]; intros input HP; simpl; [constructor|].
  destruct (Regex.search re input) as [[g rest]|] eqn:E; [|constructor].
  destruct (search_Forall P re input g rest E HP) as [Hg Hrest].
  constructor; [split; [eapply HQ; eauto|assumption]|now apply IH].
Qed.

(** *** The fields of a parsed task *)

(** The fields of a task that do not depend on the shape of the
    match. *)
Definition well_formed (t : Task.t) : Prop :=
  Task.status t = not_started /\ Task.result t = JNull /\
  0 <= Task.priority t /\
  Task.agent t <> "" /\
  Forall word_character (list_ascii_of_string (Task.agent t)).

Lemma parse_match_well_formed count groups : well_formed (parse_match count groups).
Proof.
  unfold well_formed, parse_match.
  cbn [Task.status Task.result Task.priority Task.agent].
  split; [reflexivity|]. split; [reflexivity|]. split; [|].
  - destruct (Regex.search priority_pattern _) as [[g rest]|] eqn:E; [|lia].
    apply lit_many_capture_group in E as (cs & -> & Hcs & _).
    now apply int_of_digits_nonneg.
  - destruct (Regex.search agent_pattern _) as [[g rest]|] eqn:E.
    + apply lit_many_capture_group in E as (cs & -> & Hcs & Hne).
      change (Regex.group [string_of_list_ascii cs] 1) with (string_of_list_ascii cs).
      rewrite list_ascii_of_string_of_list_ascii. split.
      * intros H. apply (f_equal list_ascii_of_string) in H.
        rewrite list_ascii_of_string_of_list_ascii in H. simpl in H. contradiction.
      * eapply Forall_impl; [|exact Hcs]. intros a. apply is_word_word_character.
    + split; [discriminate|].
      apply Forall_impl with (P := fun a => Regex.is_word a = true);
        [intros a; apply is_word_word_character|].
      repeat (constructor; [reflexivity|]). constructor.
Qed.

(** A dependency entry as the parser can produce it. *)
Definition clean_dependency (d : string) : Prop :=
  d <> "" /\ d <> "none" /\ no_blank_ends d /\
  ~ In ","%char (list_ascii_of_string d) /\
  ~ In ")"%char (list_ascii_of_string d) /\
  ascii_text d = true.

Lemma Forall_none_of s cs c :
  Forall (fun a => Regex.none_of s a = true) cs ->
  In c (list_ascii_of_string s) -> ~ In c cs.
Proof.
  intros H Hc Hin. rewrite Forall_forall in H. apply H in Hin.
  apply none_of_spec in Hin. contradiction.
Qed.

Lemma parse_match_clean_dependencies count groups :
  groups_in low groups ->
  Forall clean_dependency (Task.dependencies (parse_match count groups)).
Proof.
  intros Hlow. unfold parse_match. cbn [Task.dependencies].
  set (metadata := list_ascii_of_string (Str.strip (Regex.group groups 3))).
  assert (Hmeta : Forall low metadata).
  { assert (Hg3 : Forall low (list_ascii_of_string (Regex.group groups 3))).
    { unfold Regex.group.
      destruct (nth_in_or_default (3 - 1) groups ""%string) as [Hin|Hd];
        [|rewrite Hd; constructor].
      unfold groups_in in Hlow. rewrite Forall_forall in Hlow. now apply Hlow. }
    unfold metadata. rewrite <- (string_of_list_ascii_of_string (Regex.group groups 3)).
    now apply strip_Forall. }
  destruct (Regex.search deps_pattern metadata) as [[g rest]|] eqn:Es; [|constructor].
  destruct (search_Forall low _ _ _ _ Es Hmeta) as [Hg _].
  apply lit_many_capture_group in Es as (cs & -> & Hcs & _).
  change (Regex.group [string_of_list_ascii cs] 1) with (string_of_list_ascii cs).
  inversion Hg as [|s0 g0 Hcs_low _]; subst.
  rewrite list_ascii_of_string_of_list_ascii in Hcs_low.
  set (deps_str := Str.strip (string_of_list_ascii cs)).
  assert (Hclean : Forall (fun a => Regex.none_of ",)" a = true)
                     (list_ascii_of_string deps_str)).
  { now apply strip_Forall. }
  assert (Hdlow : Forall low (list_ascii_of_string deps_str)).
  { now apply strip_Forall. }
  destruct (negb (String.eqb deps_str "") && negb (String.eqb deps_str "none")) eqn:E;
    [|constructor].
  apply andb_true_iff in E as [E1 E2].
  apply negb_true_iff, String.eqb_neq in E1. apply negb_true_iff, String.eqb_neq in E2.
  unfold Str.split. rewrite split_from_no_sep_eq.
  - simpl. rewrite string_of_list_ascii_of_string.
    assert (Hs : Str.strip deps_str = deps_str) by apply strip_idem.
    constructor; [|constructor]. rewrite Hs.
    split; [assumption|]. split; [assumption|].
    split; [rewrite <- Hs; apply strip_no_blank_ends|].
    split; [apply (Forall_none_of ",)"); [assumption|simpl; auto]|].
    split; [apply (Forall_none_of ",)"); [assumption|simpl; auto]|].
    now apply ascii_text_low.
  - eapply Forall_impl; [|exact Hclean].
    intros a Ha. unfold Regex.none_of in Ha. simpl in Ha.
    destruct (Ascii.eqb a ","); [discriminate|reflexivity].
Qed.

(** The title and the description of a task built from a match of
    [task_pattern]. *)
Definition clean_text (t : Task.t) : Prop :=
  no_blank_ends (Task.title t) /\
  ~ In "*"%char (list_ascii_of_string (Task.title t)) /\
  ascii_text (Task.title t) = true /\
  no_blank_ends (Task.description t) /\
  ~ In "("%char (list_ascii_of_string (Task.description t)) /\
  ascii_text (Task.description t) = true.

Lemma parse_match_clean_text count groups :
  task_groups groups -> groups_in low groups ->
  clean_text (parse_match count groups).
Proof.
  intros (c1 & c2 & c3 & -> & H1 & H2 & _) Hlow.
  inversion Hlow as [|s1 g1 L1 Hlow1]; subst.
  inversion Hlow1 as [|s2 g2 L2 _]; subst.
  rewrite list_ascii_of_string_of_list_ascii in L1, L2.
  unfold clean_text, parse_match. cbn [Task.title Task.description].
  change (Regex.group [string_of_list_ascii c1; string_of_list_ascii c2;
                       string_of_list_ascii c3] 1) with (string_of_list_ascii c1).
  change (Regex.group [string_of_list_ascii c1; string_of_list_ascii c2;
                       string_of_list_ascii c3] 2) with (string_of_list_ascii c2).
  split; [apply strip_no_blank_ends|].
  split; [apply (Forall_none_of "*"); [now apply strip_Forall|simpl; auto]|].
  split; [apply ascii_text_low; now apply strip_Forall|].
  split; [apply strip_no_blank_ends|].
  split; [apply (Forall_none_of "("); [now apply strip_Forall|simpl; auto]|].
  apply ascii_text_low. now apply strip_Forall.
Qed.

(** X1. The identifiers of the parsed tasks are [task_1], [task_2], ...
    in the order of the matches, whatever the text holds; so no two
    parsed tasks share an identifier. *)
Theorem parse_tasks_markdown_ids content :
  map Task.id (parse_tasks_markdown content)
  = map (fun i => ("task_" ++ Str.str_of_nat (i + 1))%string)
      (seq 0 (length (parse_tasks_markdown content))) /\
  NoDup (map Task.id (parse_tasks_markdown content)).
Proof.
  unfold parse_tasks_markdown.
  set (ms := Regex.finditer task_pattern content).
  assert (Hids : map Task.id (parse_matches ms [])
                 = map (fun i => ("task_" ++ Str.str_of_nat (i + 1))%string)
                     (seq 0 (length (parse_matches ms [])))).
  { rewrite parse_matches_ids, parse_matches_length. reflexivity. }
  split; [exact Hids|]. rewrite Hids.
  apply NoDup_map_injective; [|apply seq_NoDup].
  intros i j H. simpl in H. injection H as H. apply str_of_nat_inj in H. lia.
Qed.

(** X2. On a text of characters below 128, every parsed task starts
    [not_started] with no result, has a priority that is not negative,
    and an agent name that is a non-empty run of digits, letters and
    underscores. *)
Theorem parse_tasks_markdown_well_formed content :
  ascii_text content = true ->
  Forall well_formed (parse_tasks_markdown content).
Proof.
  intros _. unfold parse_tasks_markdown.
  apply parse_matches_Forall; [apply parse_match_well_formed|constructor].
Qed.

(** X3. On a text of characters below 128, the title and the
    description of a parsed task have no blank at either end and hold
    characters below 128 only; the title holds no asterisk and the
    description no opening parenthesis. A dependency entry of a parsed
    task is never empty and never the word [none], has no blank at
    either end, holds neither a comma nor a closing parenthesis, and
    holds characters below 128 only. *)
Theorem parse_tasks_markdown_clean content :
  ascii_text content = true ->
  Forall (fun t => clean_text t /\ Forall clean_dependency (Task.dependencies t))
    (parse_tasks_markdown content).
Proof.
  intros Hlow. apply ascii_text_low in Hlow.
  unfold parse_tasks_markdown, Regex.finditer.
  apply parse_matches_Forall_on
    with (Q := fun g => task_groups g /\ groups_in low g).
  - intros count groups [Hg Hl]. split.
    + now apply parse_match_clean_text.
    + now apply parse_match_clean_dependencies.
  - apply finditer_from_Forall_in; [apply task_pattern_groups|assumption].
  - constructor.
Qed.

(** X4. A text in which the marker of an open item with a bold title,
    [- [ ] **], does not occur yields no task: ticked items and items
    without a bold title are not read. *)
Theorem parse_tasks_markdown_needs_marker content :
  Regex.search [Regex.Lit "- [ ] **"] (list_ascii_of_string content) = None ->
  parse_tasks_markdown content = [].
Proof.
  intros H. unfold parse_tasks_markdown, Regex.finditer. cbn [Regex.finditer_from].
  unfold task_pattern. rewrite (search_literal_None _ _ _ H). reflexivity.
Qed.

Lemma parse_tasks_markdown_needs_marker_witness :
  parse_tasks_markdown
    "- [x] **done** - A ticked item (Priority: 1)  - [ ] plain - No bold title (Agent: qa)"
  = [].
Proof. apply parse_tasks_markdown_needs_marker. reflexivity. Defined.

(** An item with blanks around its title, its description and its
    dependency. *)
Definition padded_item : string :=
  "- [ ] **  build  ** -   Build the thing   ( Priority: 07 , Agent: qa_2, Dependencies:  set up  , x)".

Lemma parse_tasks_markdown_well_formed_witness :
  Forall well_formed (parse_tasks_markdown padded_item).
Proof. apply parse_tasks_markdown_well_formed. reflexivity. Defined.

Lemma parse_tasks_markdown_clean_witness :
  Forall (fun t => clean_text t /\ Forall clean_dependency (Task.dependencies t))
    (parse_tasks_markdown padded_item).
Proof. apply parse_tasks_markdown_clean. reflexivity. Defined.

(** The task parsed from [padded_item]. *)
Example parse_padded_item :
  parse_tasks_markdown padded_item =
    [ Task.mk "task_1" "build" "Build the thing" "qa_2" 7 ["set up"]
        not_started JNull ].
Proof. reflexivity. Qed.

End ParserProperties.

(** ** More on the scheduler *)

Module SchedulerProperties.

Import TaskManager PyDictFacts ResolutionFacts GraphFacts SortFacts.
Import SchedulerFacts SchedulerTheorems.

(** A task titled [p] is in the schedule [out]. *)
Definition scheduled (tasks : list Task.t) (out : list nat) (p : string) : Prop :=
  exists r t, In r out /\ nth_error tasks r = Some t /\ Task.title t = p.

(** The schedule, as the sequence [P] of the titles popped: the titles
    are distinct, every reference of the schedule is the last task with
    the title at its position, the sources of the edges into a title
    come before it, and a title that is left out has a dependency that
    is left out. *)
Lemma schedule_titles tasks :
  exists P out,
    sort_tasks_by_dependencies tasks = Ok out /\
    Forall2 (fun p r => exists t, last_with_title tasks p r t) P out /\
    NoDup P /\
    (forall i t, nth_error P i = Some t -> forall s, depends tasks s t ->
       exists j, (j < i)%nat /\ nth_error P j = Some s) /\
    (forall k, resolves tasks k -> ~ In k P ->
       exists s, ~ In s P /\ depends tasks s k).
Proof.
  destruct (sort_tasks_by_dependencies_run tasks) as (P & out & ind & K & Hrun & HF & HK & HI).
  exists P, out. split; [exact Hrun|]. split; [|split; [|split]].
  - clear - HF. induction HF as [|p r P out Hpr HF IH]; constructor; [|exact IH].
    now apply task_map_of_last.
  - pose proof (inv_nodup _ _ _ _ _ HI) as H. now rewrite app_nil_r in H.
  - intros i t Hi s Hdep. apply depends_edges in Hdep.
    exact (inv_topo _ _ _ _ _ HI i t Hi s Hdep).
  - intros k Hk HkP. apply HK in Hk.
    exact (unpopped_has_unpopped_dependency tasks K ind P k HI Hk HkP).
Qed.

Lemma scheduled_In tasks P out p :
  Forall2 (fun p r => exists t, last_with_title tasks p r t) P out ->
  scheduled tasks out p <-> In p P.
Proof.
  intros HF. split.
  - intros (r & t & Hr & Ht & Hp). apply In_nth_error in Hr as [j Hj].
    destruct (Forall2_nth_error_l _ _ _ HF j r Hj) as (p' & Hp' & t' & Hn & Htitle & _).
    assert (t' = t) by congruence. subst t'.
    apply nth_error_In in Hp'. congruence.
  - intros Hp. apply In_nth_error in Hp as [j Hj].
    destruct (Forall2_nth_error_r _ _ _ HF j p Hj) as (r & Hr & t & Hn & Htitle & _).
    exists r, t. split; [eapply nth_error_In; eauto|auto].
Qed.

(** In a sequence that respects the edges, a title comes after every
    title it depends on through a chain of dependencies. *)
Lemma chain_comes_before tasks P :
  (forall i t, nth_error P i = Some t -> forall s, depends tasks s t ->
     exists j, (j < i)%nat /\ nth_error P j = Some s) ->
  forall s t, clos_trans string (depends tasks) s t ->
  forall i, nth_error P i = Some t -> exists j, (j < i)%nat /\ nth_error P j = Some s.
Proof.
  intros HT s t Hst. induction Hst as [s t Hd|s u t _ IH1 _ IH2]; intros i Hi.
  - eapply HT; eauto.
  - destruct (IH2 i Hi) as (j & Hj & Hu). destruct (IH1 j Hu) as (k & Hk & Hs).
    exists k. split; [lia|assumption].
Qed.

(** X5. The schedule never holds a task twice, never holds two tasks
    with the same title, and is no longer than the task list; this
    holds for every task list, with cycles and repeated titles too. *)
Theorem schedule_has_no_duplicates tasks :
  exists out,
    sort_tasks_by_dependencies tasks = Ok out /\
    NoDup out /\
    (forall j j' r r' t t',
       nth_error out j = Some r -> nth_error out j' = Some r' ->
       nth_error tasks r = Some t -> nth_error tasks r' = Some t' ->
       Task.title t = Task.title t' -> j = j') /\
    (length out <= length tasks)%nat.
Proof.
  destruct (schedule_titles tasks) as (P & out & Hrun & HF & Hnd & _ & _).
  exists out. split; [exact Hrun|].
  assert (Htitles : forall j j' r r' t t',
            nth_error out j = Some r -> nth_error out j' = Some r' ->
            nth_error tasks r = Some t -> nth_error tasks r' = Some t' ->
            Task.title t = Task.title t' -> j = j').
  { intros j j' r r' t t' Hj Hj' Ht Ht' Heq.
    destruct (Forall2_nth_error_l _ _ _ HF j r Hj) as (p & Hp & u & Hu & Htu & _).
    destruct (Forall2_nth_error_l _ _ _ HF j' r' Hj') as (p' & Hp' & u' & Hu' & Htu' & _).
    assert (u = t) by congruence. assert (u' = t') by congruence. subst u u'.
    apply (proj1 (NoDup_nth_error P) Hnd).
    - apply nth_error_Some. congruence.
    - congruence. }
  split; [|split; [exact Htitles|]].
  - apply NoDup_nth_error. intros j j' Hlt Heq.
    destruct (nth_error out j) as [r|] eqn:Hj; [|apply nth_error_None in Hj; lia].
    symmetry in Heq.
    destruct (Forall2_nth_error_l _ _ _ HF j r Hj) as (p & _ & t & Ht & _).
    exact (Htitles j j' r r t t Hj Heq Ht Ht eq_refl).
  - destruct (sort_tasks_by_dependencies_refs tasks) as (out' & Hrun' & _ & Hlen).
    assert (out' = out) by congruence. now subst.
Qed.

(** X6. Which titles are scheduled: a title is in the schedule exactly
    when it is the title of a task and every title it depends on, among
    those that are titles of tasks, is in the schedule too. So a task is
    left out as soon as one of its dependencies is left out. *)
Theorem scheduled_iff_dependencies_scheduled tasks :
  exists out,
    sort_tasks_by_dependencies tasks = Ok out /\
    forall p,
      scheduled tasks out p <->
      (resolves tasks p /\ forall s, depends tasks s p -> scheduled tasks out s).
Proof.
  destruct (schedule_titles tasks) as (P & out & Hrun & HF & Hnd & Htopo & Hleft).
  exists out. split; [exact Hrun|]. intros p. split.
  - intros Hp. split.
    + destruct Hp as (r & t & _ & Ht & Htitle). exists t.
      split; [eapply nth_error_In; eauto|assumption].
    + intros s Hdep. apply (scheduled_In tasks P out) in Hp; [|assumption].
      apply In_nth_error in Hp as [i Hi].
      destruct (Htopo i p Hi s Hdep) as (j & _ & Hj).
      apply (scheduled_In tasks P out); [assumption|]. eapply nth_error_In; eauto.
  - intros [Hres Hdeps]. apply (scheduled_In tasks P out); [assumption|].
    destruct (in_dec string_dec p P) as [Hin|Hnin]; [assumption|]. exfalso.
    destruct (Hleft p Hres Hnin) as (s & HsP & Hdep).
    apply HsP. apply (scheduled_In tasks P out); [assumption|]. now apply Hdeps.
Qed.

(** X7. A task on a dependency cycle is never scheduled: a title that
    depends on itself, directly or through other titles, is the title
    of no task of the schedule. *)
Theorem cyclic_tasks_are_not_scheduled tasks :
  exists out,
    sort_tasks_by_dependencies tasks = Ok out /\
    forall p, clos_trans string (depends tasks) p p -> ~ scheduled tasks out p.
Proof.
  destruct (schedule_titles tasks) as (P & out & Hrun & HF & Hnd & Htopo & _).
  exists out. split; [exact Hrun|]. intros p Hcycle Hp.
  apply (scheduled_In tasks P out) in Hp; [|assumption].
  apply In_nth_error in Hp as [i Hi].
  destruct (chain_comes_before tasks P Htopo p p Hcycle i Hi) as (j & Hlt & Hj).
  assert (i = j); [|lia].
  apply (proj1 (NoDup_nth_error P) Hnd).
  - apply nth_error_Some. congruence.
  - congruence.
Qed.

End SchedulerProperties.

(** ** More on the dispatcher: the log of submissions *)

Module DispatchTrace.

Import TaskManager PyDictFacts ResolutionFacts DispatchFacts.

Lemma erase_sym_nth (l l' : list Task.t) r t :
  map erase l' = map erase l -> nth_error l r = Some t ->
  exists t', nth_error l' r = Some t' /\ erase t' = erase t.
Proof.
  intros He Hn. symmetry in He. now apply (erase_nth_error l' l r t He).
Qed.

Lemma can_assign_deps_In tasks ts deps : forall dep dt,
  can_assign_deps tasks ts deps = true -> In dep deps ->
  find_by_title tasks dep = Some dt ->
  status_or_default ts (Task.id dt) = completed.
Proof.
  induction deps as [|d deps IH]; intros dep dt Hcan Hin Hf; [destruct Hin|].
  simpl in Hcan. destruct Hin as [->|Hin].
  - rewrite Hf in Hcan.
    destruct (Status_eqb _ completed) eqn:E; [|discriminate].
    now apply Status_eqb_eq.
  - destruct (find_by_title tasks d) as [dt0|].
    + destruct (Status_eqb _ completed); [|discriminate]. now apply (IH dep).
    + now apply (IH dep).
Qed.

(** A task none of whose dependency titles is the title of a task is
    eligible in every state. *)
Lemma can_assign_deps_unresolved tasks ts deps :
  (forall dep, In dep deps -> find_by_title tasks dep = None) ->
  can_assign_deps tasks ts deps = true.
Proof.
  induction deps as [|d deps IH]; intros H; simpl; [reflexivity|].
  rewrite (H d) by now left. apply IH. intros dep Hd. apply H. now right.
Qed.

Lemma snoc_split {A} (l l1 l2 : list A) (r x : A) :
  l ++ [r] = l1 ++ x :: l2 ->
  (l2 = [] /\ l1 = l /\ x = r) \/ exists l2', l2 = l2' ++ [r] /\ l = l1 ++ x :: l2'.
Proof.
  intros H. destruct l2 as [|b l2].
  - left. apply app_inj_tail in H as [-> ->]. auto.
  - right. destruct (exists_last (l := b :: l2)) as (l2' & a & E); [discriminate|].
    rewrite E in *. exists l2'.
    replace (l1 ++ x :: l2' ++ [a]) with ((l1 ++ x :: l2') ++ [a]) in H
      by (rewrite <- app_assoc; reflexivity).
    apply app_inj_tail in H as [-> ->]. auto.
Qed.

(** In the log [log] of submissions, a task comes after a task that
    carries the identifier of each of its dependencies; the dependency
    of a title is the first task with that title. *)
Definition respects (tasks : list Task.t) (log : list nat) : Prop :=
  forall l1 r l2 t dep dt,
    log = l1 ++ r :: l2 -> nth_error tasks r = Some t ->
    In dep (Task.dependencies t) -> find_by_title tasks dep = Some dt ->
    exists r' t', In r' l1 /\ nth_error tasks r' = Some t' /\
                  Task.id t' = Task.id dt.

Lemma respects_erase l l' log :
  map erase l' = map erase l -> respects l log -> respects l' log.
Proof.
  intros He H l1 r l2 t' dep dt' Hlog Hn Hdep Hf.
  destruct (erase_nth_error _ _ _ _ He Hn) as (t & Ht & Het).
  pose proof (erase_fields _ _ Het) as (_ & _ & _ & Hdeps & _).
  pose proof (find_by_title_erase l l' dep He) as Hfe. rewrite Hf in Hfe.
  destruct (find_by_title l dep) as [dt|] eqn:Hfl; [|discriminate].
  simpl in Hfe. assert (Hdt : erase dt' = erase dt) by congruence.
  apply erase_fields in Hdt as (Hid & _).
  destruct (H l1 r l2 t dep dt Hlog Ht) as (r' & u & Hr' & Hu & Hidu);
    [congruence|assumption|].
  destruct (erase_sym_nth _ _ _ _ He Hu) as (u' & Hu' & Heu).
  apply erase_fields in Heu as (Hidu' & _).
  exists r', u'. split; [assumption|]. split; [assumption|congruence].
Qed.

Section WithNetwork.

Context {W : Type}.

Implicit Types (st : State W).

(** A task that carries the identifier [id] has been submitted. *)
Definition was_sent st (id : string) : Prop :=
  exists r t, In r (sent st) /\ nth_error (tasks st) r = Some t /\ Task.id t = id.

(** What holds of the log between two turns of the loops of a pass:
    an entry that is no longer [not_started] belongs to a task that was
    submitted, the log respects the dependencies, and the entry of a
    task that was submitted is no longer [not_started], but for the
    identifiers in [X] (the task being submitted). *)
Record Trace (X : list string) st : Prop := {
  t_started : forall id tr,
    PyDict.get (task_status st) id = Some tr ->
    Tracking.status tr <> not_started -> was_sent st id;
  t_respects : respects (tasks st) (sent st);
  t_marked : forall r t,
    In r (sent st) -> nth_error (tasks st) r = Some t ->
    In (Task.id t) X \/
    exists tr, PyDict.get (task_status st) (Task.id t) = Some tr /\
               Tracking.status tr <> not_started
}.

(** From [st] to [st'] the tasks keep all but their results, the log
    and the set of tracked identifiers only grow or stay. *)
Record Grows st st' : Prop := {
  g_tasks : map erase (tasks st') = map erase (tasks st);
  g_sent : forall x, In x (sent st) -> In x (sent st');
  g_keys : PyDict.keys (task_status st') = PyDict.keys (task_status st)
}.

Lemma Grows_refl st : Grows st st.
Proof. constructor; auto. Qed.

Lemma Grows_trans st1 st2 st3 : Grows st1 st2 -> Grows st2 st3 -> Grows st1 st3.
Proof.
  intros [T1 S1 K1] [T2 S2 K2]. constructor; [congruence|auto|congruence].
Qed.

Lemma was_sent_Grows st st' id :
  map erase (tasks st') = map erase (tasks st) ->
  (forall x, In x (sent st) -> In x (sent st')) ->
  was_sent st id -> was_sent st' id.
Proof.
  intros He Hs (r & t & Hr & Ht & Hid).
  destruct (erase_sym_nth _ _ _ _ He Ht) as (t' & Ht' & Het).
  apply erase_fields in Het as (Hid' & _).
  exists r, t'. split; [auto|]. split; [assumption|congruence].
Qed.

Lemma Trace_weaken X st : Trace [] st -> Trace X st.
Proof.
  intros [H1 H2 H3]. constructor; auto.
  intros r t Hr Ht. destruct (H3 r t Hr Ht) as [[]|H]. now right.
Qed.

(** A state that differs from [st] in the world and in results. *)
Lemma Trace_frame X st st' :
  map erase (tasks st') = map erase (tasks st) ->
  task_status st' = task_status st -> sent st' = sent st ->
  Trace X st -> Trace X st'.
Proof.
  intros He Hts Hs [H1 H2 H3]. constructor.
  - intros id tr Hg Hne. rewrite Hts in Hg.
    apply (was_sent_Grows st st'); [assumption|intros x; now rewrite Hs|eauto].
  - rewrite Hs. eapply respects_erase; eauto.
  - intros r t' Hr Ht'. rewrite Hs in Hr.
    destruct (erase_nth_error _ _ _ _ He Ht') as (t & Ht & Het).
    apply erase_fields in Het as (Hid & _). rewrite Hts, <- Hid. eauto.
Qed.

(** The call is entered in the log when the task is eligible. *)
Lemma Trace_record_call r st task :
  nth_error (tasks st) r = Some task -> Trace [] st ->
  can_assign_task (tasks st) (task_status st) task = true ->
  Trace [Task.id task] (record_call r st).
Proof.
  intros Hn [H1 H2 H3] Hcan. constructor; simpl.
  - intros id tr Hg Hne. destruct (H1 id tr Hg Hne) as (r' & t' & Hr' & Ht' & Hid).
    exists r', t'. simpl. split; [apply in_or_app; now left|auto].
  - intros l1 x l2 t dep dt Hlog Hx Hdep Hf.
    apply snoc_split in Hlog as [(-> & -> & ->)|(l2' & -> & Hlog)].
    + assert (t = task) by congruence. subst t.
      pose proof (can_assign_deps_In _ _ _ dep dt Hcan Hdep Hf) as Hc.
      unfold status_or_default in Hc.
      destruct (PyDict.get (task_status st) (Task.id dt)) as [tr|] eqn:Etr;
        [|discriminate].
      destruct (H1 _ tr Etr) as (r' & t' & Hr' & Ht' & Hid); [congruence|].
      exists r', t'. auto.
    + exact (H2 l1 x l2' t dep dt Hlog Hx Hdep Hf).
  - intros x t Hx Ht. apply in_app_or in Hx as [Hx|[<-|[]]].
    + destruct (H3 x t Hx Ht) as [[]|H]. now right.
    + left. left. congruence.
Qed.

(** The entry of a submitted task is given a status other than
    [not_started]. *)
Lemma Trace_set_status X st id tr s :
  Trace X st -> (forall x, In x X -> x = id) ->
  PyDict.get (task_status st) id = Some tr -> s <> not_started ->
  was_sent st id ->
  Trace []
    (with_task_status (PyDict.set (task_status st) id (Tracking.set_status s tr)) st).
Proof.
  intros [H1 H2 H3] HX Hget Hs Hsent. constructor; simpl.
  - intros k tr'. rewrite get_set. destruct (String.eqb id k) eqn:Ek.
    + apply String.eqb_eq in Ek. subst k. intros _ _. exact Hsent.
    + intros Hg Hne. exact (H1 k tr' Hg Hne).
  - exact H2.
  - intros r t Hr Ht. right. rewrite get_set.
    destruct (String.eqb id (Task.id t)) eqn:Ek.
    + eexists. split; [reflexivity|]. exact Hs.
    + destruct (H3 r t Hr Ht) as [Hin|H]; [|exact H].
      apply HX in Hin. subst id. now rewrite String.eqb_refl in Ek.
Qed.

Lemma Grows_set_status st id tr s :
  PyDict.get (task_status st) id = Some tr ->
  Grows st
    (with_task_status (PyDict.set (task_status st) id (Tracking.set_status s tr)) st).
Proof.
  intros Hget. constructor; simpl; auto.
  apply keys_set_present. eapply get_Some_keys; eauto.
Qed.

(** What a call of [send] on an eligible task, made between two turns,
    comes to: it does not raise, and when it returns the call is in the
    log and the log is in order. *)
Definition send_ok (send : string -> nat -> State W -> Outcome (State W)) : Prop :=
  forall a r st task,
    nth_error (tasks st) r = Some task -> Trace [] st ->
    can_assign_task (tasks st) (task_status st) task = true ->
    match send a r st with
    | Done st' => Trace [Task.id task] st' /\ In r (sent st') /\ Grows st st'
    | Raised _ _ => False
    | Stalled => True
    end.

(** The turn of a loop after the call: the entry of the task becomes
    [assigned]. *)
Lemma turn_end r st st1 task tr1 :
  nth_error (tasks st) r = Some task ->
  Trace [Task.id task] st1 -> In r (sent st1) -> Grows st st1 ->
  PyDict.get (task_status st1) (Task.id task) = Some tr1 ->
  let st2 := with_task_status
      (PyDict.set (task_status st1) (Task.id task) (Tracking.set_status assigned tr1))
      st1 in
  Trace [] st2 /\ Grows st st2 /\ In r (sent st2).
Proof.
  intros Hn HT Hr HG Hget st2. split; [|split].
  - apply (Trace_set_status [Task.id task] st1 (Task.id task) tr1 assigned HT);
      [|exact Hget|discriminate|].
    + intros x [<-|[]]. reflexivity.
    + destruct (erase_sym_nth _ _ _ _ (g_tasks _ _ HG) Hn) as (t1 & Ht1 & Het).
      apply erase_fields in Het as (Hid & _). exists r, t1. auto.
  - eapply Grows_trans; [exact HG|]. now apply Grows_set_status.
  - exact Hr.
Qed.

Lemma waiting_loop_trace send :
  send_ok send ->
  forall refs st, Trace [] st ->
    match waiting_loop send refs st with
    | Done st' => Trace [] st' /\ Grows st st'
    | Raised _ _ => False
    | Stalled => True
    end.
Proof.
  intros Hsend. induction refs as [|r rest IH]; intros st HT; cbn [waiting_loop].
  - split; [assumption|apply Grows_refl].
  - unfold deref. destruct (nth_error (tasks st) r) as [task|] eqn:Etask; cbn [lift];
      [|exact I].
    destruct (waiting_ready st task) eqn:Eready; [|now apply IH].
    unfold waiting_ready in Eready. apply andb_true_iff in Eready as [Hns Hcan].
    destruct (PyDict.get (task_status st) (Task.id task)) as [tr|] eqn:Etr; [|discriminate].
    pose proof (Hsend (Task.agent task) r st task Etask HT Hcan) as Hs.
    destruct (send (Task.agent task) r st) as [st1|e st1|]; cbn [and_then];
      [|exact Hs|exact I].
    destruct Hs as (HT1 & Hr1 & HG1).
    assert (Hkey : exists tr1, PyDict.get (task_status st1) (Task.id task) = Some tr1).
    { apply keys_get. rewrite (g_keys _ _ HG1). eapply get_Some_keys; eauto. }
    destruct Hkey as [tr1 Etr1]. rewrite (set_status_Done _ _ _ _ Etr1). cbn [and_then].
    destruct (turn_end r st st1 task tr1 Etask HT1 Hr1 HG1 Etr1) as (HT2 & HG2 & _).
    specialize (IH _ HT2).
    destruct (waiting_loop send rest _) as [st'|e st'|]; [|exact IH|exact I].
    destruct IH as [HT' HG']. split; [assumption|]. eapply Grows_trans; eauto.
Qed.

(** The second loop of [assign_tasks], on tasks that are all tracked.
    A task of the schedule that is eligible in every state is in the
    log when the loop returns. *)
Lemma assign_loop_trace send :
  send_ok send ->
  forall refs st, Trace [] st ->
    (forall r t, In r refs -> nth_error (tasks st) r = Some t ->
       In (Task.id t) (PyDict.keys (task_status st))) ->
    match assign_loop send refs st with
    | Done st' =>
        Trace [] st' /\ Grows st st' /\
        forall r t, In r refs -> nth_error (tasks st) r = Some t ->
          (forall dep, In dep (Task.dependencies t) ->
             find_by_title (tasks st) dep = None) ->
          In r (sent st')
    | Raised _ _ => False
    | Stalled => True
    end.
Proof.
  intros Hsend. induction refs as [|r rest IH]; intros st HT Hkeys; cbn [assign_loop].
  - split; [assumption|]. split; [apply Grows_refl|]. intros r t [].
  - unfold deref. destruct (nth_error (tasks st) r) as [task|] eqn:Etask; cbn [lift];
      [|exact I].
    assert (Hrest : forall st2, Trace [] st2 -> Grows st st2 ->
              (can_assign_task (tasks st) (task_status st) task = true -> In r (sent st2)) ->
              match assign_loop send rest st2 with
              | Done st' =>
                  Trace [] st' /\ Grows st st' /\
                  (can_assign_task (tasks st) (task_status st) task = true -> In r (sent st')) /\
                  forall r0 t, In r0 rest -> nth_error (tasks st) r0 = Some t ->
                    (forall dep, In dep (Task.dependencies t) ->
                       find_by_title (tasks st) dep = None) ->
                    In r0 (sent st')
              | Raised _ _ => False
              | Stalled => True
              end).
    { intros st2 HT2 HG2 Hr2. specialize (IH st2 HT2).
      destruct (assign_loop send rest st2) as [st'|e st'|]; [|apply IH|exact I].
      - destruct IH as (HT' & HG' & Hall).
        + intros r0 t0 H0 Hn0. rewrite (g_keys _ _ HG2).
          destruct (erase_nth_error _ _ _ _ (g_tasks _ _ HG2) Hn0) as (t & Ht & Het).
          apply erase_fields in Het as (<- & _). apply (Hkeys r0); [now right|assumption].
        + split; [assumption|]. split; [eapply Grows_trans; eauto|]. split.
          * intros Hc. apply (g_sent _ _ HG'). auto.
          * intros r0 t H0 Hn0 Hdeps.
            destruct (erase_sym_nth _ _ _ _ (g_tasks _ _ HG2) Hn0) as (t2 & Ht2 & Het).
            apply (Hall r0 t2 H0 Ht2). intros dep Hdep.
            pose proof (erase_fields _ _ Het) as (_ & _ & _ & Hd & _).
            rewrite Hd in Hdep. specialize (Hdeps dep Hdep).
            pose proof (find_by_title_erase _ _ dep (g_tasks _ _ HG2)) as Hfe.
            rewrite Hdeps in Hfe. now destruct (find_by_title (tasks st2) dep).
      - intros r0 t0 H0 Hn0. rewrite (g_keys _ _ HG2).
        destruct (erase_nth_error _ _ _ _ (g_tasks _ _ HG2) Hn0) as (t & Ht & Het).
        apply erase_fields in Het as (<- & _). apply (Hkeys r0); [now right|assumption]. }
    assert (Hfinish : forall o : Outcome (State W),
              match o with
              | Done st' =>
                  Trace [] st' /\ Grows st st' /\
                  (can_assign_task (tasks st) (task_status st) task = true -> In r (sent st')) /\
                  forall r0 t, In r0 rest -> nth_error (tasks st) r0 = Some t ->
                    (forall dep, In dep (Task.dependencies t) ->
                       find_by_title (tasks st) dep = None) ->
                    In r0 (sent st')
              | Raised _ _ => False
              | Stalled => True
              end ->
              match o with
              | Done st' =>
                  Trace [] st' /\ Grows st st' /\
                  forall r0 t, In r0 (r :: rest) -> nth_error (tasks st) r0 = Some t ->
                    (forall dep, In dep (Task.dependencies t) ->
                       find_by_title (tasks st) dep = None) ->
                    In r0 (sent st')
              | Raised _ _ => False
              | Stalled => True
              end).
    { intros [st'|e st'|]; auto. intros (HT' & HG' & Hr' & Hall).
      split; [assumption|]. split; [assumption|].
      intros r0 t [<-|H0] Hn0 Hdeps; [|eauto].
      apply Hr'. assert (t = task) by congruence. subst t.
      now apply can_assign_deps_unresolved. }
    apply Hfinish.
    destruct (can_assign_task (tasks st) (task_status st) task) eqn:Ecan.
    + pose proof (Hsend (Task.agent task) r st task Etask HT Ecan) as Hs.
      destruct (send (Task.agent task) r st) as [st1|e st1|]; cbn [and_then];
        [|exact Hs|exact I].
      destruct Hs as (HT1 & Hr1 & HG1).
      assert (Hkey : exists tr1, PyDict.get (task_status st1) (Task.id task) = Some tr1).
      { apply keys_get. rewrite (g_keys _ _ HG1). apply (Hkeys r); [now left|assumption]. }
      destruct Hkey as [tr1 Etr1]. rewrite (set_status_Done _ _ _ _ Etr1). cbn [and_then].
      destruct (turn_end r st st1 task tr1 Etask HT1 Hr1 HG1 Etr1) as (HT2 & HG2 & Hr2).
      apply Hrest; auto.
    + apply Hrest; [assumption|apply Grows_refl|discriminate].
Qed.

Context (net : Network W).

(** [send_task_to_agent] keeps the log in order. *)
Lemma send_task_to_agent_trace fuel : send_ok (send_task_to_agent net fuel).
Proof.
  induction fuel as [|fuel IH]; intros a r st task Hn HT Hcan; [exact I|].
  cbn [send_task_to_agent].
  set (st0 := record_call r st).
  set (Good := fun stX : State W =>
                 Trace [Task.id task] stX /\ In r (sent stX) /\ Grows st stX).
  assert (G0 : Good st0).
  { split; [now apply Trace_record_call|]. split.
    - simpl. apply in_or_app. right. now left.
    - constructor; simpl; auto. intros x Hx. apply in_or_app. now left. }
  destruct (PyDict.get (agents st0) a) as [port|]; [|exact G0].
  unfold deref. change (tasks st0) with (tasks st). rewrite Hn. cbn [lift].
  destruct (post_task net port (task_data_of task) (world st0)) as [reply w].
  set (st1 := with_world w st0).
  assert (G1 : Good st1).
  { destruct G0 as (T0 & R0 & [GT GS GK]). split; [|split; [exact R0|]].
    - now apply (Trace_frame _ st0 st1).
    - constructor; assumption. }
  destruct reply as [e|code body]; [exact G1|].
  destruct (code =? 200); [|exact G1].
  destruct body as [result|]; [|exact G1].
  unfold set_status at 1.
  destruct (PyDict.get (task_status st1) (Task.id task)) as [tr|] eqn:Etr; [|exact G1].
  cbn [and_then].
  set (st2 := with_task_status _ st1).
  assert (Hsent1 : was_sent st1 (Task.id task)).
  { destruct G1 as (_ & R1 & _). exists r, task. auto. }
  assert (T2 : Trace [] st2).
  { destruct G1 as (T1 & _ & _).
    apply (Trace_set_status [Task.id task] st1 (Task.id task) tr in_progress T1);
      [|exact Etr|discriminate|exact Hsent1].
    intros x [<-|[]]. reflexivity. }
  assert (G2 : Good st2).
  { destruct G1 as (_ & R1 & HG1). split; [now apply Trace_weaken|]. split; [exact R1|].
    eapply Grows_trans; [exact HG1|]. now apply Grows_set_status. }
  destruct result as [| | | | |fields]; try exact G2.
  cbn [json_get lift].
  destruct (json_is_str (PyDict.get fields "status") "completed"); [|exact G2].
  assert (Etr2 : PyDict.get (task_status st2) (Task.id task)
                 = Some (Tracking.set_status in_progress tr)).
  { unfold st2. simpl. apply get_set_same. }
  rewrite (set_status_Done _ _ _ _ Etr2). cbn [and_then json_get_default json_get bind lift].
  set (st3 := with_task_status _ st2).
  set (v := match PyDict.get fields "result" with Some v => v | None => JStr "" end).
  set (st4 := set_task_result r v st3).
  assert (T3 : Trace [] st3).
  { apply (Trace_set_status [] st2 (Task.id task) _ completed T2);
      [intros x []|exact Etr2|discriminate|].
    destruct G2 as (_ & R2 & _). exists r, task. auto. }
  assert (G3 : Grows st st3).
  { destruct G2 as (_ & _ & HG2). eapply Grows_trans; [exact HG2|].
    now apply Grows_set_status. }
  assert (T4 : Trace [] st4).
  { apply (Trace_frame _ st3 st4); auto. unfold st4. simpl. apply erase_update_nth. }
  assert (G4 : Grows st st4).
  { destruct G3 as [GT GS GK]. constructor; auto.
    unfold st4. simpl. rewrite erase_update_nth. exact GT. }
  pose proof (waiting_loop_trace (send_task_to_agent net fuel) IH
                (seq 0 (length (tasks st4))) st4 T4) as Hloop.
  destruct (waiting_loop (send_task_to_agent net fuel) _ st4) as [st5|e st5|];
    cbn [catch]; [|destruct Hloop|exact I].
  destruct Hloop as [T5 G5]. split; [now apply Trace_weaken|]. split.
  - apply (g_sent _ _ G5). unfold st4, st3, st2, st1, st0. simpl.
    apply in_or_app. right. now left.
  - eapply Grows_trans; eauto.
Qed.

End WithNetwork.

End DispatchTrace.

(** ** More on the dispatcher: a pass on a fresh manager *)

Module DispatchProperties.

Import TaskManager PyDictFacts ResolutionFacts DispatchFacts DispatchTheorems.
Import DispatchTrace.

(** None of the dependency titles of [t] is the title of a task. *)
Definition independent (tasks : list Task.t) (t : Task.t) : Prop :=
  forall dep, In dep (Task.dependencies t) -> find_by_title tasks dep = None.

Lemma independent_erase l l' t t' :
  map erase l' = map erase l -> erase t' = erase t ->
  independent l t -> independent l' t'.
Proof.
  intros He Ht H dep Hdep.
  pose proof (erase_fields _ _ Ht) as (_ & _ & _ & Hd & _). rewrite Hd in Hdep.
  pose proof (find_by_title_erase l l' dep He) as Hfe. rewrite (H dep Hdep) in Hfe.
  now destruct (find_by_title l' dep).
Qed.

Lemma count_occ_app_le (l new : list nat) r :
  (count_occ Nat.eq_dec l r <= count_occ Nat.eq_dec (l ++ new) r)%nat.
Proof. rewrite count_occ_app. lia. Qed.

Lemma count_occ_app_In (l new : list nat) r :
  In r new -> (count_occ Nat.eq_dec l r < count_occ Nat.eq_dec (l ++ new) r)%nat.
Proof.
  intros H. rewrite count_occ_app. apply (count_occ_In Nat.eq_dec) in H. lia.
Qed.

Section WithNetwork.

Context {W : Type} (net : Network W).

Implicit Types (st : State W).

Lemma init_tracking_world refs : forall st st',
  init_tracking refs st = Done st' -> world st' = world st.
Proof.
  induction refs as [|r rest IH]; intros st st'; cbn [init_tracking].
  - now intros [= <-].
  - unfold deref. destruct (nth_error (tasks st) r) as [task|]; cbn [lift];
      [|discriminate].
    intros Hrun. now rewrite (IH _ _ Hrun).
Qed.

Lemma Pass_count st st' r :
  Pass st st' ->
  (count_occ Nat.eq_dec (sent st) r <= count_occ Nat.eq_dec (sent st') r)%nat.
Proof. intros [_ _ _ _ _ [new ->]]. apply count_occ_app_le. Qed.

(** [assign_tasks] as its two loops over the schedule; on an empty task
    list, which it returns on at once, both loops are empty. *)
Lemma assign_tasks_unfold st sorted :
  sort_tasks_by_dependencies (tasks st) = Ok sorted ->
  assign_tasks net st =
  and_then (init_tracking sorted st)
    (assign_loop
       (send_task_to_agent net (S (length (task_status st) + length (tasks st))))
       sorted).
Proof.
  intros H. unfold assign_tasks, assign_tasks_with.
  destruct (tasks st) as [|x xs] eqn:E.
  - cbv in H. injection H as <-. reflexivity.
  - rewrite H. reflexivity.
Qed.

(** The second loop of [assign_tasks] submits, once more at least,
    every task of its list that is eligible in every state. *)
Lemma assign_loop_counts fuel refs : forall st,
  (forall r, In r refs -> (r < length (tasks st))%nat) ->
  (forall r t, In r refs -> nth_error (tasks st) r = Some t ->
     In (Task.id t) (PyDict.keys (task_status st))) ->
  (waiting (task_status st) < fuel)%nat ->
  exists st',
    assign_loop (send_task_to_agent net fuel) refs st = Done st' /\ Pass st st' /\
    forall r t, In r refs -> nth_error (tasks st) r = Some t ->
      independent (tasks st) t ->
      (count_occ Nat.eq_dec (sent st) r < count_occ Nat.eq_dec (sent st') r)%nat.
Proof.
  induction refs as [|r rest IH]; intros st Hvalid Hkeys Hfuel; cbn [assign_loop].
  - exists st. split; [reflexivity|]. split; [apply Pass_refl|]. intros r t [].
  - assert (Hr : (r < length (tasks st))%nat) by (apply Hvalid; now left).
    destruct (nth_error (tasks st) r) as [task|] eqn:Etask;
      [|apply nth_error_None in Etask; lia].
    unfold deref. rewrite Etask. cbn [lift].
    assert (Hrest : forall st2, Pass st st2 ->
      (independent (tasks st) task ->
       (count_occ Nat.eq_dec (sent st) r < count_occ Nat.eq_dec (sent st2) r)%nat) ->
      exists st', assign_loop (send_task_to_agent net fuel) rest st2 = Done st' /\
                  Pass st st' /\
                  forall r0 t, In r0 (r :: rest) -> nth_error (tasks st) r0 = Some t ->
                    independent (tasks st) t ->
                    (count_occ Nat.eq_dec (sent st) r0
                     < count_occ Nat.eq_dec (sent st') r0)%nat).
    { intros st2 HP2 Hhead. destruct (IH st2) as (st' & Hrun & HP & Hcount).
      - intros r0 H0. rewrite (erase_length _ _ (p_tasks _ _ HP2)). apply Hvalid. now right.
      - intros r0 t0 H0 Hn0. rewrite (p_keys _ _ HP2).
        destruct (erase_nth_error _ _ _ _ (p_tasks _ _ HP2) Hn0) as (t & Ht & He).
        apply erase_fields in He as (<- & _). apply (Hkeys r0); [now right|assumption].
      - pose proof (p_waiting _ _ HP2). lia.
      - exists st'. split; [exact Hrun|]. split; [eapply Pass_trans; eauto|].
        intros r0 t [<-|H0] Hn0 Hind.
        + assert (t = task) by congruence. subst t.
          pose proof (Pass_count st2 st' r HP). specialize (Hhead Hind). lia.
        + destruct (erase_sym_nth _ _ _ _ (p_tasks _ _ HP2) Hn0) as (t2 & Ht2 & Het).
          pose proof (Hcount r0 t2 H0 Ht2
                        (independent_erase _ _ _ _ (p_tasks _ _ HP2) Het Hind)).
          pose proof (Pass_count st st2 r0 HP2). lia. }
    destruct (can_assign_task (tasks st) (task_status st) task) eqn:Ecan.
    + destruct (send_task_to_agent_spec net fuel (Task.agent task) r st task Etask)
        as (st1 & new & Hrun1 & HP1 & [HW1 _] & _ & _); [now left|].
      rewrite Hrun1. cbn [and_then].
      assert (Hkey : exists tr1, PyDict.get (task_status st1) (Task.id task) = Some tr1).
      { apply keys_get. rewrite (p_keys _ _ HP1). apply (Hkeys r); [now left|assumption]. }
      destruct Hkey as [tr1 Etr1]. rewrite (set_status_Done _ _ _ _ Etr1). cbn [and_then].
      apply Hrest.
      * eapply Pass_trans; [exact HP1|]. apply Pass_set_status; auto.
      * intros _. simpl. rewrite HW1. apply count_occ_app_In. now left.
    + apply Hrest; [apply Pass_refl|].
      intros Hind. unfold can_assign_task in Ecan.
      rewrite (can_assign_deps_unresolved _ _ _ Hind) in Ecan. discriminate.
Qed.

(** The entries that the first loop of [assign_tasks] leaves: an old
    entry, or the fresh entry of a task of the schedule. *)
Lemma init_tracking_entries refs : forall st st',
  init_tracking refs st = Done st' ->
  forall id tr', PyDict.get (task_status st') id = Some tr' ->
    PyDict.get (task_status st) id = Some tr' \/
    exists r t, In r refs /\ nth_error (tasks st) r = Some t /\ Task.id t = id /\
                tr' = Tracking.mk not_started (Task.agent t).
Proof.
  induction refs as [|r rest IH]; intros st st'; cbn [init_tracking].
  - intros [= <-]. auto.
  - unfold deref. destruct (nth_error (tasks st) r) as [task|] eqn:Etask; cbn [lift];
      [|discriminate].
    intros Hrun id tr' Hg. destruct (IH _ _ Hrun id tr' Hg) as [H|(r0 & t & H0 & Ht & Hid & Htr)].
    + simpl in H. rewrite get_set in H. destruct (String.eqb (Task.id task) id) eqn:E.
      * apply String.eqb_eq in E. right. exists r, task.
        split; [now left|]. split; [assumption|]. split; [assumption|congruence].
      * now left.
    + right. exists r0, t. split; [now right|auto].
Qed.

Lemma init_tracking_NoDup refs : forall st st',
  init_tracking refs st = Done st' ->
  NoDup (PyDict.keys (task_status st)) -> NoDup (PyDict.keys (task_status st')).
Proof.
  induction refs as [|r rest IH]; intros st st'; cbn [init_tracking].
  - intros [= <-]. auto.
  - unfold deref. destruct (nth_error (tasks st) r) as [task|]; cbn [lift];
      [|discriminate].
    intros Hrun Hnd. apply (IH _ _ Hrun). simpl. now apply NoDup_keys_set.
Qed.

(** The three stages of [assign_tasks]: the schedule, the state after
    the first loop and the state after the second. *)
Lemma assign_tasks_stages st :
  exists sorted st1 st',
    sort_tasks_by_dependencies (tasks st) = Ok sorted /\
    (forall r, In r sorted -> (r < length (tasks st))%nat) /\
    init_tracking sorted st = Done st1 /\
    tasks st1 = tasks st /\ agents st1 = agents st /\ sent st1 = sent st /\
    (forall r t, In r sorted -> nth_error (tasks st) r = Some t ->
       In (Task.id t) (PyDict.keys (task_status st1))) /\
    assign_loop
      (send_task_to_agent net (S (length (task_status st) + length (tasks st))))
      sorted st1 = Done st' /\
    Pass st1 st' /\ (Settled [] st1 -> Settled [] st') /\
    assign_tasks net st = Done st'.
Proof.
  destruct (SchedulerTheorems.sort_tasks_by_dependencies_refs (tasks st))
    as (sorted & Hsort & Hvalid & Hlen).
  rewrite Forall_forall in Hvalid.
  destruct (init_tracking_spec sorted st Hvalid)
    as (st1 & Hrun1 & HT1 & HA1 & HS1 & Hlen1 & Hkeys1 & Hent1).
  destruct (assign_loop_spec net (S (length (task_status st) + length (tasks st))) sorted st1)
    as (st' & Hrun & HP & HSet).
  - intros r Hr. rewrite HT1. now apply Hvalid.
  - intros r t Hr Hn. rewrite HT1 in Hn. now apply (Hkeys1 r).
  - pose proof (waiting_le_length (task_status st1)). lia.
  - exists sorted, st1, st'. repeat (split; [assumption|]).
    unfold assign_tasks, assign_tasks_with.
    destruct (tasks st) as [|t0 ts0] eqn:Etasks.
    + destruct sorted as [|r0 sorted]; [|simpl in Hlen; lia].
      simpl in Hrun1, Hrun. congruence.
    + rewrite Hsort. cbn [lift]. rewrite Hrun1. cbn [and_then]. exact Hrun.
Qed.

(** The stages on a manager that tracks nothing yet: after the first
    loop every entry is the fresh entry of a task of the schedule. *)
Lemma fresh_stages st :
  task_status st = [] ->
  exists sorted st1 st',
    sort_tasks_by_dependencies (tasks st) = Ok sorted /\
    tasks st1 = tasks st /\ agents st1 = agents st /\ sent st1 = sent st /\
    (forall r t, In r sorted -> nth_error (tasks st) r = Some t ->
       In (Task.id t) (PyDict.keys (task_status st1))) /\
    (forall id tr, PyDict.get (task_status st1) id = Some tr ->
       exists r t, In r sorted /\ nth_error (tasks st) r = Some t /\ Task.id t = id /\
                   tr = Tracking.mk not_started (Task.agent t)) /\
    NoDup (PyDict.keys (task_status st1)) /\
    assign_loop
      (send_task_to_agent net (S (length (task_status st) + length (tasks st))))
      sorted st1 = Done st' /\
    Pass st1 st' /\ Settled [] st' /\
    assign_tasks net st = Done st'.
Proof.
  intros Hfresh.
  destruct (assign_tasks_stages st)
    as (sorted & st1 & st' & Hsort & Hvalid & Hrun1 & HT1 & HA1 & HS1 & Hkeys1 & Hrun & HP
        & HSet & Hassign).
  pose proof (init_tracking_entries sorted st st1 Hrun1) as Hent1.
  assert (Hnew : forall id tr, PyDict.get (task_status st1) id = Some tr ->
            exists r t, In r sorted /\ nth_error (tasks st) r = Some t /\ Task.id t = id /\
                        tr = Tracking.mk not_started (Task.agent t)).
  { intros id tr Hg. destruct (Hent1 id tr Hg) as [H|H]; [|exact H].
    rewrite Hfresh in H. discriminate. }
  assert (Hnd : NoDup (PyDict.keys (task_status st1))).
  { apply (init_tracking_NoDup sorted st st1 Hrun1). rewrite Hfresh. constructor. }
  exists sorted, st1, st'. repeat (split; [assumption|]). split; [|exact Hassign].
  apply HSet. intros id tr Hg. destruct (Hnew id tr Hg) as (_ & t & _ & _ & _ & ->). auto.
Qed.

(** The tracking table after [assign_tasks] on a manager that tracks
    nothing yet. *)
Lemma fresh_tracking st :
  task_status st = [] ->
  exists sorted st',
    sort_tasks_by_dependencies (tasks st) = Ok sorted /\
    assign_tasks net st = Done st' /\
    map erase (tasks st') = map erase (tasks st) /\
    agents st' = agents st /\
    Settled [] st' /\
    (forall id, In id (PyDict.keys (task_status st')) <->
       exists r t, In r sorted /\ nth_error (tasks st) r = Some t /\ Task.id t = id) /\
    (forall id tr, PyDict.get (task_status st') id = Some tr ->
       exists r t, In r sorted /\ nth_error (tasks st) r = Some t /\ Task.id t = id /\
                   Tracking.assigned_agent tr = Task.agent t) /\
    NoDup (PyDict.keys (task_status st')).
Proof.
  intros Hfresh.
  destruct (fresh_stages st Hfresh)
    as (sorted & st1 & st' & Hsort & HT1 & HA1 & HS1 & Hkeys1 & Hnew & Hnd1 & Hrun & HP
        & HS & Hassign).
  exists sorted, st'. split; [exact Hsort|]. split; [exact Hassign|].
  split; [rewrite (p_tasks _ _ HP); now rewrite HT1|].
  split; [rewrite (p_agents _ _ HP); exact HA1|].
  split; [exact HS|]. split; [|split; [|rewrite (p_keys _ _ HP); exact Hnd1]].
  - intros id. rewrite (p_keys _ _ HP). split.
    + intros Hin. apply keys_get in Hin as [tr Hg].
      destruct (Hnew id tr Hg) as (r & t & Hr & Ht & Hid & _). eauto.
    + intros (r & t & Hr & Ht & <-). now apply (Hkeys1 r).
  - intros id tr Hg.
    assert (Hsame : exists tr1, PyDict.get (task_status st1) id = Some tr1 /\
                                Tracking.assigned_agent tr = Tracking.assigned_agent tr1).
    { destruct (p_entries _ _ HP id tr Hg) as [H|(tr1 & H & Ha & _)]; eauto. }
    destruct Hsame as (tr1 & Hg1 & Ha).
    destruct (Hnew id tr1 Hg1) as (r & t & Hr & Ht & Hid & ->).
    exists r, t. auto.
Qed.

(** The log after [assign_tasks] on a manager that tracks nothing yet
    and has submitted nothing yet. *)
Lemma fresh_pass st :
  task_status st = [] -> sent st = [] ->
  exists sorted st',
    sort_tasks_by_dependencies (tasks st) = Ok sorted /\
    assign_tasks net st = Done st' /\
    map erase (tasks st') = map erase (tasks st) /\
    Trace [] st' /\ Settled [] st' /\
    (forall r t, In r sorted -> nth_error (tasks st) r = Some t ->
       (forall dep, In dep (Task.dependencies t) ->
          find_by_title (tasks st) dep = None) ->
       In r (sent st')).
Proof.
  intros Hfresh Hlog.
  destruct (fresh_stages st Hfresh)
    as (sorted & st1 & st' & Hsort & HT1 & HA1 & HS1 & Hkeys1 & Hnew & Hnd1 & Hrun & HP
        & HS & Hassign).
  assert (HT : Trace [] st1).
  { constructor.
    - intros id tr Hg Hne. destruct (Hnew id tr Hg) as (_ & t & _ & _ & _ & ->).
      now contradiction Hne.
    - intros l1 r l2 t dep dt Hl. rewrite HS1, Hlog in Hl. now destruct l1.
    - intros r t Hr. rewrite HS1, Hlog in Hr. destruct Hr. }
  pose proof (assign_loop_trace
                (send_task_to_agent net (S (length (task_status st) + length (tasks st))))
                (send_task_to_agent_trace net _) sorted st1 HT) as Htrace.
  rewrite Hrun in Htrace. destruct Htrace as (HT' & HG' & Hsent').
  { intros r t Hr Hn. rewrite HT1 in Hn. now apply (Hkeys1 r). }
  exists sorted, st'. split; [exact Hsort|]. split; [exact Hassign|].
  split; [rewrite (p_tasks _ _ HP); now rewrite HT1|].
  split; [exact HT'|]. split; [exact HS|].
  intros r t Hr Hn. rewrite <- HT1 in Hn. rewrite <- HT1. now apply Hsent'.
Qed.

(** X8. After [assign_tasks] on a manager that tracks nothing yet, the
    tracked identifiers are exactly those of the tasks of the schedule;
    every entry is [not_started] or [assigned], never [in_progress],
    [completed] or [failed], whatever the workers answered; and its
    [assigned_agent] is the agent of a scheduled task that carries the
    identifier. The identifier of a task left out of the schedule is
    tracked only if a scheduled task carries it too. *)
Theorem assign_tasks_tracks_schedule st :
  task_status st = [] ->
  exists sorted st',
    sort_tasks_by_dependencies (tasks st) = Ok sorted /\
    assign_tasks net st = Done st' /\
    (forall id, In id (PyDict.keys (task_status st')) <->
       exists r t, In r sorted /\ nth_error (tasks st) r = Some t /\ Task.id t = id) /\
    (forall id tr, PyDict.get (task_status st') id = Some tr ->
       (Tracking.status tr = not_started \/ Tracking.status tr = assigned) /\
       exists r t, In r sorted /\ nth_error (tasks st) r = Some t /\ Task.id t = id /\
                   Tracking.assigned_agent tr = Task.agent t).
Proof.
  intros Hfresh.
  destruct (fresh_tracking st Hfresh)
    as (sorted & st' & Hsort & Hrun & _ & _ & HS & Hkeys & Hagents & _).
  exists sorted, st'. split; [exact Hsort|]. split; [exact Hrun|].
  split; [exact Hkeys|]. intros id tr Hg. split; [|now apply Hagents].
  destruct (HS id tr Hg) as [[]|H]. exact H.
Qed.

(** X9. During [assign_tasks] on a fresh manager, a task is submitted
    only after a task that carries the identifier of each of its
    dependencies has been submitted; the dependency of a title is the
    first task with that title, and titles of no task do not count. *)
Theorem dispatch_respects_dependencies st :
  task_status st = [] -> sent st = [] ->
  exists st',
    assign_tasks net st = Done st' /\
    forall l1 r l2 t dep dt,
      sent st' = l1 ++ r :: l2 -> nth_error (tasks st) r = Some t ->
      In dep (Task.dependencies t) -> find_by_title (tasks st) dep = Some dt ->
      exists r' t', In r' l1 /\ nth_error (tasks st) r' = Some t' /\
                    Task.id t' = Task.id dt.
Proof.
  intros Hfresh Hlog.
  destruct (fresh_pass st Hfresh Hlog)
    as (sorted & st' & _ & Hrun & He & HT & _).
  exists st'. split; [exact Hrun|].
  pose proof (t_respects _ _ HT) as Hres.
  symmetry in He. exact (respects_erase _ _ _ He Hres).
Qed.

(** X10. After [assign_tasks] on a fresh manager, an entry is
    [assigned] exactly when a task that carries its identifier was
    submitted, and [not_started] exactly when none was: the status says
    nothing about what the worker answered. *)
Theorem assigned_iff_submitted st :
  task_status st = [] -> sent st = [] ->
  exists st',
    assign_tasks net st = Done st' /\
    forall id tr, PyDict.get (task_status st') id = Some tr ->
      (Tracking.status tr = assigned <->
       exists r t, In r (sent st') /\ nth_error (tasks st) r = Some t /\ Task.id t = id) /\
      (Tracking.status tr = not_started <->
       ~ exists r t, In r (sent st') /\ nth_error (tasks st) r = Some t /\ Task.id t = id).
Proof.
  intros Hfresh Hlog.
  destruct (fresh_pass st Hfresh Hlog)
    as (sorted & st' & _ & Hrun & He & HT & HS & _).
  exists st'. split; [exact Hrun|]. intros id tr Hg.
  assert (Hto : Tracking.status tr <> not_started ->
                exists r t, In r (sent st') /\ nth_error (tasks st) r = Some t /\
                            Task.id t = id).
  { intros Hne. destruct (t_started _ _ HT id tr Hg Hne) as (r & t' & Hr & Ht' & Hid).
    destruct (erase_nth_error _ _ _ _ He Ht') as (t & Ht & Het).
    apply erase_fields in Het as (Hi & _). exists r, t. split; [assumption|].
    split; [assumption|congruence]. }
  assert (Hfrom : (exists r t, In r (sent st') /\ nth_error (tasks st) r = Some t /\
                               Task.id t = id) ->
                  Tracking.status tr <> not_started).
  { intros (r & t & Hr & Ht & Hid).
    destruct (erase_sym_nth _ _ _ _ He Ht) as (t' & Ht' & Het).
    apply erase_fields in Het as (Hi & _).
    destruct (t_marked _ _ HT r t' Hr Ht') as [[]|(tr' & Hg' & Hne)].
    assert (tr' = tr) by congruence. now subst. }
  destruct (HS id tr Hg) as [[]|[Hns|Has]].
  - split; split.
    + intros H. congruence.
    + intros H. apply Hfrom in H. contradiction.
    + intros _ H. apply Hfrom in H. contradiction.
    + intros _. exact Hns.
  - split; split.
    + intros _. apply Hto. congruence.
    + intros _. exact Has.
    + intros H. congruence.
    + intros H. exfalso. apply H. apply Hto. congruence.
Qed.

(** X11. [assign_tasks] on a fresh manager submits every task of the
    schedule none of whose dependency titles is the title of a task,
    whatever the other tasks do and whatever the workers answer. *)
Theorem independent_tasks_are_submitted st :
  task_status st = [] -> sent st = [] ->
  exists sorted st',
    sort_tasks_by_dependencies (tasks st) = Ok sorted /\
    assign_tasks net st = Done st' /\
    forall r t, In r sorted -> nth_error (tasks st) r = Some t ->
      (forall dep, In dep (Task.dependencies t) ->
         find_by_title (tasks st) dep = None) ->
      In r (sent st').
Proof.
  intros Hfresh Hlog.
  destruct (fresh_pass st Hfresh Hlog)
    as (sorted & st' & Hsort & Hrun & _ & _ & _ & Hsent).
  exists sorted, st'. auto.
Qed.

(** X24. A task can be submitted twice in one pass. On a fresh manager
    with distinct task identifiers, let the first task of the schedule
    be completed by its worker within the request: its completion
    submits every other scheduled task that has no dependency among the
    tasks, and the loop of [assign_tasks] then submits each of them
    again. *)
Theorem independent_task_is_submitted_twice st r0 rest t0 port w fields r1 t1 :
  task_status st = [] -> sent st = [] ->
  NoDup (map Task.id (tasks st)) ->
  sort_tasks_by_dependencies (tasks st) = Ok (r0 :: rest) ->
  nth_error (tasks st) r0 = Some t0 -> independent (tasks st) t0 ->
  PyDict.get (agents st) (Task.agent t0) = Some port ->
  post_task net port (task_data_of t0) (world st)
    = (Answers 200 (Some (JObj fields)), w) ->
  json_is_str (PyDict.get fields "status") "completed" = true ->
  In r1 rest -> nth_error (tasks st) r1 = Some t1 -> independent (tasks st) t1 ->
  exists st',
    assign_tasks net st = Done st' /\
    (2 <= count_occ Nat.eq_dec (sent st') r1)%nat.
Proof.
  intros Hfresh Hlog Hnd Hsort Hn0 Hind0 Hport Hpost Hdone Hin1 Hn1 Hind1.
  destruct (SchedulerTheorems.sort_tasks_by_dependencies_refs (tasks st))
    as (out & Hout & Hvalid & Hlen).
  assert (out = r0 :: rest) by congruence. subst out.
  rewrite Forall_forall in Hvalid.
  destruct (init_tracking_spec (r0 :: rest) st Hvalid)
    as (st1 & Hrun1 & HT1 & HA1 & HS1 & Hlen1 & Hkeys1 & Hent1).
  pose proof (init_tracking_world _ _ _ Hrun1) as HW1.
  assert (Hnew : forall id tr, PyDict.get (task_status st1) id = Some tr ->
                   Tracking.status tr = not_started).
  { intros id tr Hg. destruct (Hent1 id tr Hg) as [H|H]; [exact H|].
    rewrite Hfresh in H. discriminate. }
  set (fuel := length (tasks st)).
  assert (Hw1 : (waiting (task_status st1) <= fuel)%nat).
  { pose proof (waiting_le_length (task_status st1)). rewrite Hfresh in Hlen1.
    simpl in Hlen1. unfold fuel. simpl in Hlen. lia. }
  (* the first turn of the loop: the first task is sent and completes *)
  assert (Hkey0 : exists tr0, PyDict.get (task_status st1) (Task.id t0) = Some tr0).
  { apply keys_get. apply (Hkeys1 r0); [now left|assumption]. }
  destruct Hkey0 as [tr0 Etr0].
  rewrite <- HT1 in Hn0. rewrite <- HT1 in Hn1. rewrite <- HT1 in Hind0.
  rewrite <- HT1 in Hind1. rewrite <- HT1 in Hnd. rewrite <- HA1 in Hport.
  rewrite <- HW1 in Hpost.
  pose proof (send_completed_eq net fuel (Task.agent t0) r0 st1 t0 port w fields tr0
                Hn0 Hport Hpost Hdone Etr0) as Hsend.
  set (st_c := completed_state r0 t0 tr0 (result_of fields) w st1) in Hsend.
  destruct (check_and_assign_waiting_tasks_spec net fuel st_c)
    as (st5 & new & Hrun5 & HP5 & [Hsent5 _] & _ & _ & Hall).
  { apply waiting_completed_state; [assumption|]. left. lia. }
  rewrite Hrun5 in Hsend. cbn [catch] in Hsend.
  destruct (send_task_to_agent_spec net (S fuel) (Task.agent t0) r0 st1 t0 Hn0)
    as (st5' & new' & Hrun5' & HP15 & _); [left; lia|].
  assert (st5' = st5) by congruence. subst st5'. clear Hrun5'.
  assert (Hkey5 : exists tr5, PyDict.get (task_status st5) (Task.id t0) = Some tr5).
  { apply keys_get. rewrite (p_keys _ _ HP15). eapply get_Some_keys; eauto. }
  destruct Hkey5 as [tr5 Etr5].
  set (st2 := with_task_status
                (PyDict.set (task_status st5) (Task.id t0)
                   (Tracking.set_status assigned tr5)) st5).
  assert (HP12 : Pass st1 st2).
  { eapply Pass_trans; [exact HP15|]. apply Pass_set_status; auto. }
  destruct (assign_loop_counts (S fuel) rest st2) as (st' & Hrun & HP & Hcount).
  { intros r Hr. rewrite (erase_length _ _ (p_tasks _ _ HP12)). rewrite HT1.
    apply Hvalid. now right. }
  { intros r t Hr Hn. rewrite (p_keys _ _ HP12).
    destruct (erase_nth_error _ _ _ _ (p_tasks _ _ HP12) Hn) as (t' & Ht' & He).
    apply erase_fields in He as (<- & _). rewrite HT1 in Ht'.
    apply (Hkeys1 r); [now right|assumption]. }
  { pose proof (p_waiting _ _ HP12). lia. }
  exists st'. split.
  { rewrite (assign_tasks_unfold st _ Hsort), Hrun1. cbn [and_then].
    rewrite Hfresh. cbn [length Nat.add]. fold fuel.
    cbn [assign_loop]. unfold deref. rewrite Hn0. cbn [lift].
    unfold can_assign_task. rewrite (can_assign_deps_unresolved _ _ _ Hind0).
    rewrite Hsend. cbn [and_then]. rewrite (set_status_Done _ _ _ _ Etr5).
    cbn [and_then]. exact Hrun. }
  (* the other task was sent by the cascade, and is sent again *)
  destruct (erase_sym_nth _ _ _ _ (p_tasks _ _ HP12) Hn1) as (t2 & Ht2 & Het2).
  pose proof (Hcount r1 t2 Hin1 Ht2
                (independent_erase _ _ _ _ (p_tasks _ _ HP12) Het2 Hind1)) as Hmore.
  assert (Hone : (1 <= count_occ Nat.eq_dec (sent st2) r1)%nat).
  { apply (count_occ_In Nat.eq_dec). unfold st2. simpl. rewrite Hsent5.
    unfold st_c. simpl. rewrite HS1, Hlog. simpl.
    destruct (Nat.eq_dec r0 r1) as [Heq|Hne]; [now left|]. right.
    assert (He_c : map erase (tasks st_c) = map erase (tasks st1)).
    { unfold st_c. simpl. apply erase_update_nth. }
    destruct (erase_sym_nth _ _ _ _ He_c Hn1) as (tc & Htc & Hetc).
    apply (Hall (NoDup_ids_erase _ _ He_c Hnd) r1 tc Htc).
    assert (Hid : Task.id t1 <> Task.id t0).
    { intros Hid. apply Hne. symmetry.
      exact (NoDup_ids_inj _ _ _ _ _ Hnd Hn1 Hn0 Hid). }
    pose proof (erase_fields _ _ Hetc) as (Hidc & _).
    assert (Hkey1 : exists tr1, PyDict.get (task_status st1) (Task.id t1) = Some tr1).
    { apply keys_get. rewrite HT1 in Hn1. apply (Hkeys1 r1); [now right|assumption]. }
    destruct Hkey1 as [tr1 Etr1].
    unfold waiting_ready. unfold st_c at 1. simpl. rewrite Hidc.
    rewrite get_set_other by congruence. rewrite Etr1, (Hnew _ _ Etr1). cbn [Status_eqb andb].
    unfold can_assign_task. apply can_assign_deps_unresolved.
    exact (independent_erase _ _ _ _ He_c Hetc Hind1). }
  lia.
Qed.

End WithNetwork.

(** A fresh manager with task [B] waiting for task [A], and workers
    that complete every submission within the request. *)
Definition fresh_two : State unit := fresh two_tasks registry.

Lemma assign_tasks_tracks_schedule_witness :
  exists sorted st',
    sort_tasks_by_dependencies (tasks fresh_two) = Ok sorted /\
    assign_tasks (replies (completes "ok")) fresh_two = Done st' /\
    (forall id, In id (PyDict.keys (task_status st')) <->
       exists r t, In r sorted /\ nth_error (tasks fresh_two) r = Some t /\
                   Task.id t = id) /\
    (forall id tr, PyDict.get (task_status st') id = Some tr ->
       (Tracking.status tr = not_started \/ Tracking.status tr = assigned) /\
       exists r t, In r sorted /\ nth_error (tasks fresh_two) r = Some t /\
                   Task.id t = id /\ Tracking.assigned_agent tr = Task.agent t).
Proof.
  apply (assign_tasks_tracks_schedule (replies (completes "ok")) fresh_two);
    reflexivity.
Defined.

Lemma dispatch_respects_dependencies_witness :
  exists st',
    assign_tasks (replies (completes "ok")) fresh_two = Done st' /\
    forall l1 r l2 t dep dt,
      sent st' = l1 ++ r :: l2 -> nth_error (tasks fresh_two) r = Some t ->
      In dep (Task.dependencies t) -> find_by_title (tasks fresh_two) dep = Some dt ->
      exists r' t', In r' l1 /\ nth_error (tasks fresh_two) r' = Some t' /\
                    Task.id t' = Task.id dt.
Proof.
  apply (dispatch_respects_dependencies (replies (completes "ok")) fresh_two);
    reflexivity.
Defined.

Lemma assigned_iff_submitted_witness :
  exists st',
    assign_tasks (replies (completes "ok")) fresh_two = Done st' /\
    forall id tr, PyDict.get (task_status st') id = Some tr ->
      (Tracking.status tr = assigned <->
       exists r t, In r (sent st') /\ nth_error (tasks fresh_two) r = Some t /\
                   Task.id t = id) /\
      (Tracking.status tr = not_started <->
       ~ exists r t, In r (sent st') /\ nth_error (tasks fresh_two) r = Some t /\
                     Task.id t = id).
Proof.
  apply (assigned_iff_submitted (replies (completes "ok")) fresh_two); reflexivity.
Defined.

Lemma independent_tasks_are_submitted_witness :
  exists sorted st',
    sort_tasks_by_dependencies (tasks fresh_two) = Ok sorted /\
    assign_tasks (replies (completes "ok")) fresh_two = Done st' /\
    forall r t, In r sorted -> nth_error (tasks fresh_two) r = Some t ->
      (forall dep, In dep (Task.dependencies t) ->
         find_by_title (tasks fresh_two) dep = None) ->
      In r (sent st').
Proof.
  apply (independent_tasks_are_submitted (replies (completes "ok")) fresh_two);
    reflexivity.
Defined.

(** Two tasks without dependencies. *)
Definition two_independent : list Task.t :=
  [ task "task_1" "A" "developer" 1 [];
    task "task_2" "B" "qa" 2 [] ].

Lemma independent_task_is_submitted_twice_witness :
  exists st',
    assign_tasks (replies (completes "ok")) (fresh two_independent registry) = Done st' /\
    (2 <= count_occ Nat.eq_dec (sent st') 1)%nat.
Proof.
  apply (independent_task_is_submitted_twice (replies (completes "ok"))
           (fresh two_independent registry) 0 [1%nat]
           (task "task_1" "A" "developer" 1 []) 8001 tt
           [("status", JStr "completed"); ("result", JStr "ok")] 1
           (task "task_2" "B" "qa" 2 [])).
  - reflexivity.
  - reflexivity.
  - simpl. constructor.
    + simpl. intros [H|[]]. discriminate H.
    + constructor; [intros []|constructor].
  - reflexivity.
  - reflexivity.
  - intros dep [].
  - reflexivity.
  - reflexivity.
  - reflexivity.
  - simpl. now left.
  - reflexivity.
  - intros dep [].
Defined.

(** The pass on [two_independent]: the completion of [A] submits [B],
    and the loop submits [B] again. *)
Example assign_tasks_two_independent :
  match assign_tasks (replies (completes "ok")) (fresh two_independent registry) with
  | Done st' =>
      (sent st', map (fun kv => Tracking.status (snd kv)) (task_status st'))
      = ([0; 1; 1]%nat, [assigned; assigned])
  | _ => False
  end.
Proof. vm_compute. reflexivity. Qed.

(** The pass on [fresh_two]: [A] is submitted and its completion
    submits [B]; both entries end [assigned]. *)
Example assign_tasks_fresh_two :
  match assign_tasks (replies (completes "ok")) fresh_two with
  | Done st' =>
      (sent st', map (fun kv => Tracking.status (snd kv)) (task_status st'))
      = ([0; 1]%nat, [assigned; assigned])
  | _ => False
  end.
Proof. vm_compute. reflexivity. Qed.

End DispatchProperties.

(** ** Completion check, polling after a pass, waiting and summary *)

Module MonitorTheorems.

Import TaskManager Monitor PyDictFacts ResolutionFacts DispatchFacts PollerFacts.
Import DispatchTheorems DispatchProperties.

Lemma get_Some_In {V} (d : PyDict.t V) k v : PyDict.get d k = Some v -> In (k, v) d.
Proof.
  induction d as [|[k0 v0] d IH]; simpl; [discriminate|].
  destruct (String.eqb k0 k) eqn:E.
  - apply String.eqb_eq in E. intros [= ->]. left. now subst.
  - intros H. right. now apply IH.
Qed.

Lemma filter_none {A} (f : A -> bool) l :
  (forall x, In x l -> f x = false) -> filter f l = [].
Proof.
  induction l as [|x l IH]; intros H; simpl; [reflexivity|].
  rewrite (H x) by now left. apply IH. intros y Hy. apply H. now right.
Qed.

(** No entry of the tracking table is [in_progress]. *)
Definition none_in_progress {W : Type} (st : State W) : bool :=
  forallb (fun kv => negb (Status_eqb (Tracking.status (snd kv)) in_progress))
    (task_status st).

(** The number of tasks whose status, read as the summary reads it, is
    [s]. *)
Definition tracked_as (ts : PyDict.t Tracking.t) (s : Status) (l : list Task.t) : nat :=
  length (filter (fun t => Status_eqb (status_or_default ts (Task.id t)) s) l).

(** The element of the summary for one task. *)
Definition entry_of (ts : PyDict.t Tracking.t) (t : Task.t) : SummaryEntry.t :=
  SummaryEntry.mk (Task.id t) (Task.title t) (Task.agent t)
    (status_or_default ts (Task.id t)) (Task.result t).

Lemma summary_fold ts l : forall s0,
  let s := fold_left (summary_step ts) l s0 in
  Summary.total_tasks s = Summary.total_tasks s0 /\
  Summary.completed s = Summary.completed s0 + Z.of_nat (tracked_as ts completed l) /\
  Summary.in_progress s = Summary.in_progress s0 + Z.of_nat (tracked_as ts in_progress l) /\
  Summary.not_started s = Summary.not_started s0 + Z.of_nat (tracked_as ts not_started l) /\
  Summary.failed s = Summary.failed s0 + Z.of_nat (tracked_as ts failed l) /\
  Summary.tasks s = Summary.tasks s0 ++ map (entry_of ts) l.
Proof.
  induction l as [|x l IH]; intros s0; cbn [fold_left].
  - unfold tracked_as. simpl. rewrite app_nil_r. repeat split; lia.
  - destruct (IH (summary_step ts s0 x)) as (H0 & H1 & H2 & H3 & H4 & H5).
    cbv zeta. rewrite H0, H1, H2, H3, H4, H5. clear.
    unfold tracked_as, summary_step, entry_of. cbn [filter map].
    destruct (status_or_default ts (Task.id x)); cbn;
      rewrite <- app_assoc; cbn [app]; repeat split; lia.
Qed.

Lemma tracked_as_partition ts l :
  (tracked_as ts completed l + tracked_as ts in_progress l
   + tracked_as ts not_started l + tracked_as ts failed l
   + tracked_as ts assigned l = length l)%nat.
Proof.
  unfold tracked_as. induction l as [|x l IH]; cbn [filter length]; [reflexivity|].
  destruct (status_or_default ts (Task.id x)); cbn; lia.
Qed.

(** The tracking table holds an entry for the task, with status [s]. *)
Definition tracked_with (ts : PyDict.t Tracking.t) (s : Status) (t : Task.t) : bool :=
  match PyDict.get ts (Task.id t) with
  | Some tr => Status_eqb (Tracking.status tr) s
  | None => false
  end.

(** The tracking table holds no entry for the task. *)
Definition untracked (ts : PyDict.t Tracking.t) (t : Task.t) : bool :=
  match PyDict.get ts (Task.id t) with
  | Some _ => false
  | None => true
  end.

(** The number of tasks of [l] that satisfy [f]. *)
Definition count (f : Task.t -> bool) (l : list Task.t) : Z :=
  Z.of_nat (length (filter f l)).

(** The element of the summary for a task: the task's own fields, and
    the status of its entry in the table, [not_started] without one. *)
Definition summarises (ts : PyDict.t Tracking.t) (t : Task.t) (e : SummaryEntry.t)
  : Prop :=
  SummaryEntry.id e = Task.id t /\ SummaryEntry.title e = Task.title t /\
  SummaryEntry.agent e = Task.agent t /\ SummaryEntry.result e = Task.result t /\
  (forall tr, PyDict.get ts (Task.id t) = Some tr ->
     SummaryEntry.status e = Tracking.status tr) /\
  (PyDict.get ts (Task.id t) = None -> SummaryEntry.status e = not_started).

Lemma tracked_with_spec ts s t :
  tracked_with ts s t = true <-> tracked ts (Task.id t) s.
Proof.
  unfold tracked_with, tracked. destruct (PyDict.get ts (Task.id t)) as [tr|].
  - rewrite Status_eqb_eq. split; [eauto|]. now intros (tr' & [= <-] & H).
  - split; [discriminate|]. now intros (tr' & H & _).
Qed.

Lemma untracked_spec ts t :
  untracked ts t = true <-> PyDict.get ts (Task.id t) = None.
Proof.
  unfold untracked. destruct (PyDict.get ts (Task.id t)); split; congruence.
Qed.

(** How the summary reads a status, in terms of the table. *)
Lemma tracked_as_table ts s l :
  Z.of_nat (tracked_as ts s l)
  = count (tracked_with ts s) l
    + (if Status_eqb s not_started then count (untracked ts) l else 0).
Proof.
  unfold tracked_as, count.
  induction l as [|x l IH]; [now destruct (Status_eqb s not_started)|].
  cbn [filter]. unfold status_or_default at 1, tracked_with at 1, untracked at 1.
  destruct (PyDict.get ts (Task.id x)) as [tr|].
  - destruct (Status_eqb (Tracking.status tr) s); cbn [length];
      destruct (Status_eqb s not_started); lia.
  - destruct s; cbn [Status_eqb length] in *; lia.
Qed.

Lemma entry_of_summarises ts l : Forall2 (summarises ts) l (map (entry_of ts) l).
Proof.
  induction l as [|x l IH]; cbn [map]; constructor; [|exact IH].
  unfold summarises, entry_of, status_or_default.
  cbn [SummaryEntry.id SummaryEntry.title SummaryEntry.agent SummaryEntry.result
       SummaryEntry.status].
  repeat (split; [reflexivity|]). split.
  - intros tr ->. reflexivity.
  - intros ->. reflexivity.
Qed.

(** X16. The counters of [get_task_status_summary], in terms of the
    tracking table. [total_tasks] is the number of tasks. [completed],
    [in_progress] and [failed] each count the tasks for whose
    identifier the table holds an entry with that status; [not_started]
    counts the tasks whose entry is [not_started] and the tasks without
    an entry. A task whose entry is [assigned] is counted by none, so
    the four counters add up to the number of tasks less those. The
    list of the summary has one element per task, in the order of the
    task list, with the task's identifier, title, agent and result and
    the status of its entry, [not_started] without one. *)
Theorem get_task_status_summary_counts {W : Type} (st : State W) :
  let s := get_task_status_summary st in
  let ts := task_status st in
  Summary.total_tasks s = Z.of_nat (length (tasks st)) /\
  Summary.completed s = count (tracked_with ts completed) (tasks st) /\
  Summary.in_progress s = count (tracked_with ts in_progress) (tasks st) /\
  Summary.failed s = count (tracked_with ts failed) (tasks st) /\
  Summary.not_started s
    = count (tracked_with ts not_started) (tasks st) + count (untracked ts) (tasks st) /\
  Summary.completed s + Summary.in_progress s + Summary.not_started s + Summary.failed s
    = Summary.total_tasks s - count (tracked_with ts assigned) (tasks st) /\
  Forall2 (summarises ts) (tasks st) (Summary.tasks s) /\
  (forall status t,
     tracked_with ts status t = true <-> tracked ts (Task.id t) status) /\
  (forall t, untracked ts t = true <-> PyDict.get ts (Task.id t) = None).
Proof.
  intros s ts. unfold s, get_task_status_summary.
  destruct (summary_fold ts (tasks st) (Summary.mk (Z.of_nat (length (tasks st))) 0 0 0 0 []))
    as (H0 & H1 & H2 & H3 & H4 & H5).
  fold ts. rewrite H0, H1, H2, H3, H4, H5. cbn [Summary.total_tasks Summary.completed
    Summary.in_progress Summary.not_started Summary.failed Summary.tasks app].
  pose proof (tracked_as_partition ts (tasks st)) as Hpart.
  pose proof (tracked_as_table ts completed (tasks st)) as T1.
  pose proof (tracked_as_table ts in_progress (tasks st)) as T2.
  pose proof (tracked_as_table ts not_started (tasks st)) as T3.
  pose proof (tracked_as_table ts failed (tasks st)) as T4.
  pose proof (tracked_as_table ts assigned (tasks st)) as T5.
  cbn [Status_eqb] in T1, T2, T3, T4, T5.
  split; [reflexivity|]. split; [lia|]. split; [lia|]. split; [lia|].
  split; [lia|]. split; [lia|]. split; [apply entry_of_summarises|].
  split; [intros; apply tracked_with_spec|intros; apply untracked_spec].
Qed.

Section WithNetwork.

Context {W : Type} (net : Network W).

Implicit Types (st : State W).

Lemma none_in_progress_tracked st task :
  none_in_progress st = true -> tracked_in_progress st task = false.
Proof.
  intros H. unfold tracked_in_progress.
  destruct (PyDict.get (task_status st) (Task.id task)) as [tr|] eqn:E; [|reflexivity].
  apply get_Some_In in E. unfold none_in_progress in H.
  rewrite forallb_forall in H. apply H in E. simpl in E.
  now apply negb_true_iff in E.
Qed.

(** With no entry [in_progress] the loop of the poller passes over
    every task. *)
Lemma poll_loop_idle st :
  none_in_progress st = true ->
  forall refs, (forall r, In r refs -> (r < length (tasks st))%nat) ->
  poll_loop net refs st = Done st.
Proof.
  intros Hidle. induction refs as [|r rest IH]; intros Hvalid; cbn [poll_loop];
    [reflexivity|].
  assert (Hr : (r < length (tasks st))%nat) by (apply Hvalid; now left).
  destruct (nth_error (tasks st) r) as [task|] eqn:Etask;
    [|apply nth_error_None in Etask; lia].
  unfold deref. rewrite Etask. cbn [lift].
  rewrite (none_in_progress_tracked st task Hidle).
  apply IH. intros r0 H0. apply Hvalid. now right.
Qed.

Lemma update_task_status_idle st :
  none_in_progress st = true -> update_task_status net st = Done st.
Proof.
  intros H. unfold update_task_status. apply poll_loop_idle; [assumption|].
  intros r Hr. apply in_seq in Hr. lia.
Qed.

Lemma Settled_none_in_progress st :
  NoDup (PyDict.keys (task_status st)) -> Settled [] st -> none_in_progress st = true.
Proof.
  intros Hnd HS. unfold none_in_progress. apply forallb_forall. intros [k tr] Hin.
  apply SchedulerFacts.In_get_NoDup in Hin; [|assumption]. simpl.
  destruct (HS k tr Hin) as [[]|[H|H]]; rewrite H; reflexivity.
Qed.

Lemma Settled_not_completed st :
  Settled [] st -> task_status st <> [] -> all_tasks_completed st = false.
Proof.
  intros HS Hne. unfold all_tasks_completed.
  destruct (task_status st) as [|[k tr] d] eqn:E; [contradiction|].
  assert (Hg : PyDict.get (task_status st) k = Some tr).
  { rewrite E. simpl. now rewrite String.eqb_refl. }
  cbn [forallb snd]. destruct (HS k tr Hg) as [[]|[H|H]]; rewrite H; reflexivity.
Qed.

(** [assign_tasks] on a manager that tracks nothing yet leaves no entry
    [in_progress]; it leaves no entry at all when the schedule is
    empty, and an entry that is not [completed] otherwise. *)
Lemma fresh_settled st :
  task_status st = [] ->
  exists sorted st',
    sort_tasks_by_dependencies (tasks st) = Ok sorted /\
    assign_tasks net st = Done st' /\
    none_in_progress st' = true /\
    (sorted = [] -> task_status st' = []) /\
    (sorted <> [] -> all_tasks_completed st' = false).
Proof.
  intros Hfresh.
  destruct (fresh_tracking net st Hfresh)
    as (sorted & st' & Hsort & Hrun & _ & _ & HS & Hkeys & _ & Hnd).
  exists sorted, st'. split; [exact Hsort|]. split; [exact Hrun|].
  split; [now apply Settled_none_in_progress|]. split.
  - intros ->. destruct (task_status st') as [|[k tr] d]; [reflexivity|].
    exfalso. destruct (proj1 (Hkeys k)) as (r & _ & [] & _). now left.
  - intros Hne. apply Settled_not_completed; [assumption|].
    destruct sorted as [|r rest]; [contradiction|].
    destruct (SchedulerTheorems.sort_tasks_by_dependencies_refs (tasks st))
      as (out & Hout & Hvalid & _).
    assert (out = r :: rest) by congruence. subst out.
    rewrite Forall_forall in Hvalid.
    assert (Hr : (r < length (tasks st))%nat) by (apply Hvalid; now left).
    destruct (nth_error (tasks st) r) as [t|] eqn:Et;
      [|apply nth_error_None in Et; lia].
    assert (Hin : In (Task.id t) (PyDict.keys (task_status st'))).
    { apply Hkeys. exists r, t. split; [now left|auto]. }
    intros Hempty. rewrite Hempty in Hin. destruct Hin.
Qed.

(** X12. When no entry is tracked as [in_progress],
    [update_task_status] makes no request and changes nothing: it
    returns the state it was called in, world included. *)
Theorem update_task_status_nothing_in_progress st :
  none_in_progress st = true -> update_task_status net st = Done st.
Proof.
  intros H. unfold update_task_status. apply poll_loop_idle; [assumption|].
  intros r Hr. apply in_seq in Hr. lia.
Qed.

(** X13. After [assign_tasks] on a manager that tracks nothing yet
    there is nothing for the poller to do, whatever the workers
    answered: [update_task_status] returns the state unchanged, and
    [all_tasks_completed] holds only if the schedule was empty. *)
Theorem assign_tasks_leaves_nothing_to_poll st :
  task_status st = [] ->
  exists sorted st',
    sort_tasks_by_dependencies (tasks st) = Ok sorted /\
    assign_tasks net st = Done st' /\
    update_task_status net st' = Done st' /\
    (all_tasks_completed st' = true <-> sorted = []).
Proof.
  intros Hfresh.
  destruct (fresh_settled st Hfresh)
    as (sorted & st' & Hsort & Hrun & Hidle & Hempty & Hsome).
  exists sorted, st'. split; [exact Hsort|]. split; [exact Hrun|].
  split; [now apply update_task_status_idle|]. split.
  - intros Hall. destruct sorted as [|r rest]; [reflexivity|].
    rewrite Hsome in Hall; discriminate.
  - intros ->. unfold all_tasks_completed. now rewrite Hempty.
Qed.

(** X17. The summary taken after [assign_tasks] on a manager that
    tracks nothing yet reports no task as completed, in progress or
    failed, whatever the workers answered. *)
Theorem summary_after_assign_tasks st :
  task_status st = [] ->
  exists st',
    assign_tasks net st = Done st' /\
    Summary.completed (get_task_status_summary st') = 0 /\
    Summary.in_progress (get_task_status_summary st') = 0 /\
    Summary.failed (get_task_status_summary st') = 0.
Proof.
  intros Hfresh.
  destruct (fresh_tracking net st Hfresh)
    as (sorted & st' & _ & Hrun & _ & _ & HS & _).
  exists st'. split; [exact Hrun|].
  assert (Hstatus : forall t,
            status_or_default (task_status st') (Task.id t) = not_started \/
            status_or_default (task_status st') (Task.id t) = assigned).
  { intros t. unfold status_or_default.
    destruct (PyDict.get (task_status st') (Task.id t)) as [tr|] eqn:E; [|now left].
    destruct (HS _ tr E) as [[]|H]. exact H. }
  assert (Hzero : forall s, s <> not_started -> s <> assigned ->
            tracked_as (task_status st') s (tasks st') = 0%nat).
  { intros s H1 H2. unfold tracked_as. rewrite filter_none; [reflexivity|].
    intros t _. destruct (Status_eqb _ s) eqn:E; [|reflexivity].
    apply Status_eqb_eq in E. destruct (Hstatus t); congruence. }
  unfold get_task_status_summary.
  destruct (summary_fold (task_status st') (tasks st')
              (Summary.mk (Z.of_nat (length (tasks st'))) 0 0 0 0 []))
    as (_ & H1 & H2 & _ & H4 & _).
  rewrite H1, H2, H4. rewrite !Hzero by discriminate. auto.
Qed.

Context (clock : Clock W).

(** The loop of [wait_for_all_tasks_completion], from a point [st] of a
    wait that began in [st0]. *)
Lemma wait_loop_sound st0 start_time timeout : forall fuel st,
  Polled st0 st ->
  match wait_loop net clock fuel start_time timeout st with
  | Returns b st' => all_tasks_completed st' = b /\ Polled st0 st'
  | Raises _ _ => False
  | Pending => True
  end.
Proof.
  induction fuel as [|fuel IH]; intros st HQ; cbn [wait_loop];
    destruct (all_tasks_completed st) eqn:Eall; auto.
  destruct (time clock (world st)) as [current_time w].
  assert (HQ1 : Polled st0 (with_world w st)) by (eapply Polled_same; eauto).
  destruct (elapsed_gt clock current_time start_time timeout).
  - split; [exact Eall|exact HQ1].
  - set (st2 := with_world _ (with_world w st)).
    assert (HQ2 : Polled st0 st2) by (eapply Polled_same; eauto).
    destruct (poll_loop_spec net st0 (seq 0 (length (tasks st2))) st2 HQ2)
      as (st3 & Hrun & HQ3).
    { intros r Hr. apply in_seq in Hr. lia. }
    unfold update_task_status. rewrite Hrun. now apply IH.
Qed.

(** The loop on a state with no entry [in_progress] and an entry that
    is not [completed]: it cannot end well. *)
Lemma wait_loop_stuck start_time timeout : forall fuel st,
  none_in_progress st = true -> all_tasks_completed st = false ->
  match wait_loop net clock fuel start_time timeout st with
  | Returns b _ => b = false
  | Raises _ _ => False
  | Pending => True
  end.
Proof.
  induction fuel as [|fuel IH]; intros st Hidle Hall; cbn [wait_loop]; rewrite Hall;
    [exact I|].
  destruct (time clock (world st)) as [current_time w].
  destruct (elapsed_gt clock current_time start_time timeout); [reflexivity|].
  set (st2 := with_world _ (with_world w st)).
  rewrite (update_task_status_idle st2 Hidle). now apply IH.
Qed.

(** X14. [wait_for_all_tasks_completion] never raises. When it returns,
    its answer is what [all_tasks_completed] says of the state it
    leaves, and between the call and the return the manager has only
    done what passes of the poller do: entries went from [in_progress]
    to [completed], tasks got results, nothing else moved. *)
Theorem wait_for_all_tasks_completion_sound fuel timeout st :
  match wait_for_all_tasks_completion net clock fuel timeout st with
  | Returns b st' => all_tasks_completed st' = b /\ Polled st st'
  | Raises _ _ => False
  | Pending => True
  end.
Proof.
  unfold wait_for_all_tasks_completion.
  destruct (time clock (world st)) as [start_time w].
  apply wait_loop_sound.
  apply (Polled_same st st (with_world w st) (Polled_refl st)); reflexivity.
Qed.

(** X15. After [assign_tasks] on a manager that tracks nothing yet,
    with a schedule that is not empty, [wait_for_all_tasks_completion]
    never answers [True]: it runs until the timeout and answers
    [False], whatever the workers answered and however long it waits. *)
Theorem wait_after_assign_tasks_times_out st :
  task_status st = [] ->
  exists sorted st',
    sort_tasks_by_dependencies (tasks st) = Ok sorted /\
    assign_tasks net st = Done st' /\
    (sorted <> [] ->
     forall fuel timeout,
       match wait_for_all_tasks_completion net clock fuel timeout st' with
       | Returns b _ => b = false
       | Raises _ _ => False
       | Pending => True
       end).
Proof.
  intros Hfresh.
  destruct (fresh_settled st Hfresh)
    as (sorted & st' & Hsort & Hrun & Hidle & _ & Hsome).
  exists sorted, st'. split; [exact Hsort|]. split; [exact Hrun|].
  intros Hne fuel timeout. unfold wait_for_all_tasks_completion.
  destruct (time clock (world st')) as [start_time w].
  apply wait_loop_stuck; [exact Hidle|]. now apply Hsome.
Qed.

End WithNetwork.

(** A clock that counts the readings made of it. *)
Definition counting_clock : Clock nat :=
  mkClock nat nat (fun w => (w, S w))
    (fun current start timeout => timeout <? Z.of_nat current - Z.of_nat start)
    (fun _ w => w).

(** Workers that complete every submission within the request, in a
    world that counts the readings of the clock. *)
Definition prompt_workers : Network nat :=
  mkNetwork nat
    (fun _ _ w =>
       (Answers 200 (Some (JObj [("status", JStr "completed"); ("result", JStr "ok")])), w))
    (fun _ w => (Fails (ClientError "unused"), w))
    (fun _ w => (Fails (ClientError "unused"), w)).

Definition fresh_counting : State nat := mkState two_tasks PyDict.empty registry 0%nat [].

Lemma update_task_status_nothing_in_progress_witness :
  update_task_status idle_worker
    (mkState two_tasks
       [("task_1", Tracking.mk completed "developer");
        ("task_2", Tracking.mk assigned "qa")] registry tt [])
  = Done
      (mkState two_tasks
         [("task_1", Tracking.mk completed "developer");
          ("task_2", Tracking.mk assigned "qa")] registry tt []).
Proof. apply update_task_status_nothing_in_progress. reflexivity. Defined.

Lemma assign_tasks_leaves_nothing_to_poll_witness :
  exists sorted st',
    sort_tasks_by_dependencies (tasks fresh_counting) = Ok sorted /\
    assign_tasks prompt_workers fresh_counting = Done st' /\
    update_task_status prompt_workers st' = Done st' /\
    (all_tasks_completed st' = true <-> sorted = []).
Proof. apply (assign_tasks_leaves_nothing_to_poll prompt_workers fresh_counting). reflexivity. Defined.

Lemma summary_after_assign_tasks_witness :
  exists st',
    assign_tasks prompt_workers fresh_counting = Done st' /\
    Summary.completed (get_task_status_summary st') = 0 /\
    Summary.in_progress (get_task_status_summary st') = 0 /\
    Summary.failed (get_task_status_summary st') = 0.
Proof. apply (summary_after_assign_tasks prompt_workers fresh_counting). reflexivity. Defined.

Lemma wait_after_assign_tasks_times_out_witness :
  exists sorted st',
    sort_tasks_by_dependencies (tasks fresh_counting) = Ok sorted /\
    assign_tasks prompt_workers fresh_counting = Done st' /\
    (sorted <> [] ->
     forall fuel timeout,
       match wait_for_all_tasks_completion prompt_workers counting_clock fuel timeout st' with
       | Returns b _ => b = false
       | Raises _ _ => False
       | Pending => True
       end).
Proof.
  apply (wait_after_assign_tasks_times_out prompt_workers counting_clock fresh_counting).
  reflexivity.
Defined.

(** The wait after the pass on [fresh_counting], with a timeout of three
    readings of the clock: it answers [False], with both tasks run by
    their workers and tracked as [assigned]. *)
Example wait_for_all_tasks_completion_run :
  match assign_tasks prompt_workers fresh_counting with
  | Done st1 =>
      match wait_for_all_tasks_completion prompt_workers counting_clock 10 3 st1 with
      | Returns b st2 =>
          (b, map Task.result (tasks st2),
           map (fun kv => Tracking.status (snd kv)) (task_status st2))
          = (false, [JStr "ok"; JStr "ok"], [assigned; assigned])
      | _ => False
      end
  | _ => False
  end.
Proof. vm_compute. reflexivity. Qed.

(** The summary of the repository's test: one task in each of three
    statuses. *)
Example test_get_task_status_summary :
  let st :=
    mkState
      [ Task.mk "task_1" "Task 1" "" "developer" 5 [] not_started (JStr "Done");
        Task.mk "task_2" "Task 2" "" "qa" 5 [] not_started (JStr "");
        Task.mk "task_3" "Task 3" "" "architect" 5 [] not_started (JStr "") ]
      [ ("task_1", Tracking.mk completed "developer");
        ("task_2", Tracking.mk in_progress "qa");
        ("task_3", Tracking.mk not_started "architect") ]
      registry tt [] in
  let s := get_task_status_summary st in
  (Summary.total_tasks s, Summary.completed s, Summary.in_progress s,
   Summary.not_started s, Summary.failed s, length (Summary.tasks s))
  = (3, 1, 1, 1, 0, 3%nat).
Proof. reflexivity. Qed.

End MonitorTheorems.

(** ** The orchestrator's monitoring loop *)

Module ComposerTheorems.

Import Monitor PyDictFacts DispatchProperties MonitorTheorems.

Section WithNetwork.

Context {W : Type} (net : TaskManager.Network W) (clock : Clock W).
Context (format_results : string -> Json -> string).

Implicit Types (c : Composer.t W).






End WithNetwork.

(** An orchestrator as [__init__] and [spawn_sub_agents] leave it, with
    the four workers of the default configuration. *)
Definition default_agents : PyDict.t Composer.AgentInfo.t :=
  [ ("developer", Composer.AgentInfo.mk 8001 (JStr "ready"));
    ("qa", Composer.AgentInfo.mk 8002 (JStr "ready"));
    ("designer", Composer.AgentInfo.mk 8003 (JStr "ready"));
    ("architect", Composer.AgentInfo.mk 8004 (JStr "ready")) ].

Definition fresh_composer {W : Type} (w : W) : Composer.t W :=
  Composer.mk default_agents [] PyDict.empty w [].

Definition show_results (agent_name : string) (results : Json) : string :=
  "Agent " ++ agent_name ++ ": ...".


End ComposerTheorems.

(** ** More on the worker *)

Module WorkerProperties.

Import SubAgent.

(** The response that goes with a log entry. *)
Definition response_of (e : ResultEntry.t) : Z * Json :=
  (200, JObj [("status", JStr "completed"); ("result", JStr (ResultEntry.result e))]).

Definition is_ok (response : Z * Json) : bool := fst response =? 200.

(** The worker's status after it has answered [responses], from the
    status [s0]: the last response decides. *)
Fixpoint status_after (s0 : string) (responses : list (Z * Json)) : string :=
  match responses with
  | [] => s0
  | r :: rest => status_after (if is_ok r then "idle" else "error") rest
  end.

(** A log entry as [execute_task] writes it. *)
Definition well_logged (e : ResultEntry.t) : Prop :=
  (exists fields, ResultEntry.task e = JObj fields) /\
  ResultEntry.status e = "completed".

(** The log entry [e] is the one for a request and its response: the
    request carried a JSON object, which is the task of [e]; the
    response is the 200 response with the result text of [e]; and [e]
    has status ["completed"]. *)
Definition logged_for (rr : option Json * (Z * Json)) (e : ResultEntry.t) : Prop :=
  (exists fields, fst rr = Some (JObj fields) /\ ResultEntry.task e = JObj fields) /\
  snd rr = (200, JObj [("status", JStr "completed");
                       ("result", JStr (ResultEntry.result e))]) /\
  ResultEntry.status e = "completed".

Section WithTool.

Context {W : Type} (tool : Tool W).

(** One request: the worker fails and keeps its log, or succeeds and
    appends the entry that goes with its response. *)
Lemma execute_task_cases request a w :
  exists response a' w',
    execute_task tool request a w = (response, a', w') /\
    name a' = name a /\ role a' = role a /\
    ((is_ok response = false /\ task_results a' = task_results a /\
      status a' = "error") \/
     (exists e, response = response_of e /\ well_logged e /\
        task_results a' = task_results a ++ [e] /\
        status a' = "idle" /\ current_task a' = JNull)).
Proof.
  unfold execute_task, execute_task_body.
  destruct request as [task_data|].
  2:{ do 3 eexists. split; [reflexivity|]. split; [reflexivity|].
      split; [reflexivity|]. left. auto. }
  destruct task_data as [| | | | |fields];
    try (do 3 eexists; split; [reflexivity|]; split; [reflexivity|];
         split; [reflexivity|]; left; now auto).
  destruct (process_task tool _ (JObj fields) w) as [[result|e] w'].
  - do 3 eexists. split; [reflexivity|]. split; [reflexivity|].
    split; [reflexivity|]. right.
    exists (ResultEntry.mk (JObj fields) result "completed").
    split; [reflexivity|]. split; [split; [now exists fields|reflexivity]|]. auto.
  - do 3 eexists. split; [reflexivity|]. split; [reflexivity|].
    split; [reflexivity|]. left. auto.
Qed.

(** A sequence of requests. *)
Lemma serve_spec requests : forall a w,
  exists responses a' w' new,
    serve tool requests a w = (responses, a', w') /\
    length responses = length requests /\
    name a' = name a /\ role a' = role a /\
    task_results a' = task_results a ++ new /\
    map response_of new = filter is_ok responses /\
    Forall well_logged new /\
    status a' = status_after (status a) responses.
Proof.
  induction requests as [|request rest IH]; intros a w; cbn [serve].
  - exists [], a, w, []. rewrite app_nil_r. repeat split; auto.
  - destruct (execute_task_cases request a w)
      as (response & a1 & w1 & Hrun & Hn & Hr & Hcase).
    rewrite Hrun.
    destruct (IH a1 w1) as (responses & a2 & w2 & new & Hrest & Hlen & Hn2 & Hr2 & Hlog
                            & Hmap & Hwell & Hst).
    rewrite Hrest.
    destruct Hcase as [(Hbad & Hsame & Herr)|(e & -> & We & Happ & Hidle & _)].
    + exists (response :: responses), a2, w2, new. split; [reflexivity|].
      split; [simpl; lia|]. split; [congruence|]. split; [congruence|].
      split; [congruence|]. split; [|split; [assumption|]].
      * cbn [filter]. now rewrite Hbad.
      * cbn [status_after]. rewrite Hbad. congruence.
    + exists (response_of e :: responses), a2, w2, (e :: new). split; [reflexivity|].
      split; [simpl; lia|]. split; [congruence|]. split; [congruence|].
      split; [rewrite Hlog, Happ, <- app_assoc; reflexivity|].
      split; [|split; [now constructor|]].
      * cbn [filter map]. change (is_ok (response_of e)) with true. cbn. now rewrite Hmap.
      * cbn [status_after]. change (is_ok (response_of e)) with true. cbn. congruence.
Qed.

(** One request, with the entry tied to the request and the
    response. *)
Lemma execute_task_entry request a w :
  exists response a' w',
    execute_task tool request a w = (response, a', w') /\
    ((is_ok response = false /\ task_results a' = task_results a) \/
     (exists e, is_ok response = true /\ logged_for (request, response) e /\
        task_results a' = task_results a ++ [e])).
Proof.
  unfold execute_task, execute_task_body.
  destruct request as [task_data|].
  2:{ do 3 eexists. split; [reflexivity|]. left. auto. }
  destruct task_data as [| | | | |fields];
    try (do 3 eexists; split; [reflexivity|]; left; now auto).
  destruct (process_task tool _ (JObj fields) w) as [[result|e] w'].
  - do 3 eexists. split; [reflexivity|]. right.
    exists (ResultEntry.mk (JObj fields) result "completed").
    split; [reflexivity|]. split; [|reflexivity].
    split; [now exists fields|]. split; reflexivity.
  - do 3 eexists. split; [reflexivity|]. left. auto.
Qed.

Lemma serve_entries requests : forall a w,
  exists responses a' w' new,
    serve tool requests a w = (responses, a', w') /\
    task_results a' = task_results a ++ new /\
    Forall2 logged_for
      (filter (fun rr => is_ok (snd rr)) (combine requests responses)) new.
Proof.
  induction requests as [|request rest IH]; intros a w; cbn [serve].
  - exists [], a, w, []. rewrite app_nil_r. repeat split. constructor.
  - destruct (execute_task_entry request a w) as (response & a1 & w1 & Hrun & Hcase).
    rewrite Hrun.
    destruct (IH a1 w1) as (responses & a2 & w2 & new & Hrest & Hlog & Hall).
    rewrite Hrest.
    destruct Hcase as [(Hbad & Hsame)|(e & Hok & He & Happ)].
    + exists (response :: responses), a2, w2, new. split; [reflexivity|].
      cbn [combine filter snd]. rewrite Hbad. split; [congruence|assumption].
    + exists (response :: responses), a2, w2, (e :: new). split; [reflexivity|].
      cbn [combine filter snd]. rewrite Hok.
      split; [rewrite Hlog, Happ, <- app_assoc; reflexivity|].
      now constructor.
Qed.

(** X19. The log of a worker that has served a sequence of requests is
    its old log followed by one entry per request that got a 200
    response, in the order of the requests: the entry holds the JSON
    object that was posted with that request as its task, the result
    text of that response as its result, and the status
    ["completed"]. A request that got another response leaves no
    entry. So [completed_tasks], as [get_status] reports it, has grown
    by the number of 200 responses. *)
Theorem serve_log_matches_responses requests a w :
  let responses := fst (fst (serve tool requests a w)) in
  let a' := snd (fst (serve tool requests a w)) in
  length responses = length requests /\
  exists new,
    task_results a' = task_results a ++ new /\
    Forall2 logged_for
      (filter (fun rr => is_ok (snd rr)) (combine requests responses)) new /\
    json_get (snd (WorkerEndpoints.get_status a')) "completed_tasks"
    = Ok (Some (JNum (Z.of_nat
                        (length (task_results a) + length (filter is_ok responses))))).
Proof.
  destruct (serve_spec requests a w)
    as (responses & a' & w' & new0 & Hrun & Hlen & _ & _ & Hlog0 & Hmap & _ & _).
  destruct (serve_entries requests a w)
    as (responses1 & a1 & w1 & new & Hrun1 & Hlog & Hall).
  rewrite Hrun in Hrun1. injection Hrun1 as <- <- <-.
  rewrite Hrun. cbn [fst snd]. split; [exact Hlen|].
  exists new. split; [exact Hlog|]. split; [exact Hall|].
  unfold WorkerEndpoints.get_status. cbn [snd json_get PyDict.get String.eqb Ascii.eqb Bool.eqb].
  rewrite Hlog0, length_app, <- Hmap, length_map. reflexivity.
Qed.

(** X20. A worker answers every request, and keeps its name and its
    role. After a sequence of requests its status is the one the last
    response gives: ["idle"] after a 200 response and ["error"] after
    any other, so an error does not stick and the worker is never left
    ["working"]. *)
Theorem worker_status_follows_last_response requests a w :
  let responses := fst (fst (serve tool requests a w)) in
  let a' := snd (fst (serve tool requests a w)) in
  length responses = length requests /\
  name a' = name a /\ role a' = role a /\
  status a' = status_after (status a) responses.
Proof.
  destruct (serve_spec requests a w)
    as (responses & a' & w' & new & Hrun & Hlen & Hn & Hr & _ & _ & _ & Hst).
  rewrite Hrun. cbn [fst snd]. auto.
Qed.

End WithTool.

(** X21. A worker that the orchestrator starts under a name that is
    none of the four role names has that name as its role, so
    [process_task] takes the generic handler for every task; the role
    of the configuration does not reach the worker. *)
Theorem spawned_worker_is_generic agent_name :
  agent_name <> "code_implementation" -> agent_name <> "quality_assurance" ->
  agent_name <> "ui_ux_design" -> agent_name <> "system_architecture" ->
  role (WorkerEndpoints.start_agent_process agent_name) = agent_name /\
  handler_for (role (WorkerEndpoints.start_agent_process agent_name)) = Generic.
Proof.
  intros H1 H2 H3 H4. split; [reflexivity|].
  unfold WorkerEndpoints.start_agent_process, WorkerEndpoints.main, init, handler_for.
  cbn [role].
  apply String.eqb_neq in H1, H2, H3, H4. now rewrite H1, H2, H3, H4.
Qed.

Lemma spawned_worker_is_generic_witness :
  role (WorkerEndpoints.start_agent_process "developer") = "developer" /\
  handler_for (role (WorkerEndpoints.start_agent_process "developer")) = Generic.
Proof. apply spawned_worker_is_generic; discriminate. Defined.

(** The status of the worker of [serve_run]: an error, then a success,
    then an error. *)
Example status_after_run :
  status_after "idle"
    [ (500, JObj []); (200, JObj []); (500, JObj []) ] = "error" /\
  status_after "idle" [ (500, JObj []); (200, JObj []) ] = "idle".
Proof. split; reflexivity. Qed.

End WorkerProperties.

(** ** The orchestrator with its workers *)

Module SystemTheorems.

Import TaskManager Monitor PyDictFacts DispatchFacts PollerFacts.
Import MonitorTheorems ComposerTheorems.

(** No entry of the log is for the task [id]: every logged task is an
    object with another identifier. *)
Definition no_entry_for (id : string) (log : list SubAgent.ResultEntry.t) : bool :=
  forallb
    (fun e =>
       match SubAgent.ResultEntry.task e with
       | JObj fields => negb (json_is_str (PyDict.get fields "id") id)
       | _ => false
       end) log.


Lemma worker_at_put port a a' ws :
  System.worker_at port ws = Some a ->
  System.worker_at port (System.put_worker port a' ws) = Some a'.
Proof.
  induction ws as [|[p a0] ws IH]; simpl; [discriminate|].
  destruct (p =? port) eqn:E; simpl; rewrite E; auto.
Qed.


Section WithTool.

Context {T : Type} (tool : SubAgent.Tool T).

Implicit Types (st : State (System.World T)).

(** The search of the log passes over the entries for other tasks. *)
Lemma find_result_skip r id st before : forall rest,
  no_entry_for id before = true ->
  find_result (map WorkerEndpoints.entry_json before ++ rest) r id st
  = find_result rest r id st.
Proof.
  induction before as [|e before IH]; intros rest H; [reflexivity|].
  simpl in H. apply andb_true_iff in H as [He H].
  cbn [map app find_result].
  destruct (SubAgent.ResultEntry.task e) as [| | | | |fields] eqn:Et; try discriminate.
  unfold WorkerEndpoints.entry_json. rewrite Et.
  cbn [json_get_default json_get bind PyDict.get String.eqb Ascii.eqb Bool.eqb lift].
  apply negb_true_iff in He. rewrite He. now apply IH.
Qed.

(** X22. What a worker logs is what the poller reads back. A task is
    posted to the worker on its agent's port, the worker's log holds no
    entry for the task yet, and the worker's handler succeeds with a
    text: then the worker answers 200 with that text, and a poll of the
    task afterwards finds the entry, tracks the task as [completed] and
    stores the same text as its result. *)
Theorem worker_result_reaches_poller st r t port a tr text o' :
  System.worker_at port (System.workers (world st)) = Some a ->
  nth_error (tasks st) r = Some t ->
  PyDict.get (task_status st) (Task.id t) = Some tr ->
  no_entry_for (Task.id t) (SubAgent.task_results a) = true ->
  SubAgent.process_task tool
    (SubAgent.mk (SubAgent.name a) (SubAgent.role a)
       (System.payload_json (task_data_of t)) (SubAgent.task_results a) "working")
    (System.payload_json (task_data_of t)) (System.outside (world st))
  = (inl text, o') ->
  exists w1,
    post_task (System.network tool) port (task_data_of t) (world st)
    = (Answers 200
         (Some (JObj [("status", JStr "completed"); ("result", JStr text)])), w1) /\
    poll_task (System.network tool) r t port (with_world w1 st)
    = Done
        (mkState (update_nth r (Task.set_result (JStr text)) (tasks st))
           (PyDict.set (task_status st) (Task.id t) (Tracking.set_status completed tr))
           (agents st) w1 (sent st)).
Proof.
  intros Hw Hn Hg Hlog Hp.
  set (a' := SubAgent.mk (SubAgent.name a) (SubAgent.role a) JNull
               (SubAgent.task_results a
                ++ [SubAgent.ResultEntry.mk (System.payload_json (task_data_of t))
                      text "completed"]) "idle").
  exists (System.mkWorld (System.put_worker port a' (System.workers (world st))) o').
  split.
  - cbn [System.network post_task]. rewrite Hw.
    unfold SubAgent.execute_task, SubAgent.execute_task_body.
    cbn [System.payload_json]. cbn [System.payload_json] in Hp. rewrite Hp. reflexivity.
  - unfold poll_task. cbn [System.network get_status get_results with_world world].
    cbn [System.workers]. rewrite (worker_at_put port a a' _ Hw).
    cbn [WorkerEndpoints.get_status fst snd Z.eqb Pos.eqb].
    cbn [json_get lift PyDict.get String.eqb Ascii.eqb Bool.eqb SubAgent.current_task a'].
    cbn [worker_idle truthy lift]. cbn [System.workers].
    rewrite (worker_at_put port a a' _ Hw).
    cbn [WorkerEndpoints.get_results fst snd Z.eqb Pos.eqb].
    cbn [json_get_default json_get bind lift PyDict.get String.eqb Ascii.eqb Bool.eqb
         json_iter SubAgent.task_results a'].
    rewrite map_app. rewrite find_result_skip by assumption.
    cbn [map find_result].
    unfold WorkerEndpoints.entry_json, System.payload_json, task_data_of.
    cbn [SubAgent.ResultEntry.task SubAgent.ResultEntry.result TaskData.id
         json_get_default json_get bind lift PyDict.get String.eqb Ascii.eqb Bool.eqb
         json_is_str].
    rewrite String.eqb_refl.
    unfold set_status. cbn [task_status with_world]. rewrite Hg. cbn [and_then lift].
    reflexivity.
Qed.

Context (clock : Clock (System.World T)).
Context (format_results : string -> Json -> string).

Implicit Types (c : Composer.t (System.World T)).





End WithTool.

(** A tool that always succeeds with the text ["output"]. *)
Definition sound_tool : SubAgent.Tool unit :=
  SubAgent.mkTool unit (fun _ _ w => ("output", w)) (fun _ _ _ w => (None, w))
    (fun _ => "error").

(** The four workers of the default configuration, as the orchestrator
    starts them. *)
Definition default_workers : System.World unit :=
  System.mkWorld
    [ (8001, WorkerEndpoints.start_agent_process "developer");
      (8002, WorkerEndpoints.start_agent_process "qa");
      (8003, WorkerEndpoints.start_agent_process "designer");
      (8004, WorkerEndpoints.start_agent_process "architect") ] tt.

Definition system_clock : Clock (System.World unit) :=
  mkClock (System.World unit) unit (fun w => (tt, w)) (fun _ _ _ => false) (fun _ w => w).

(** A manager that polls its one task, already submitted elsewhere. *)
Definition polling_state : State (System.World unit) :=
  mkState [task "task_1" "A" "developer" 1 []]
    [("task_1", Tracking.mk in_progress "developer")]
    [("developer", 8001)] default_workers [].

Lemma worker_result_reaches_poller_witness :
  exists w1,
    post_task (System.network sound_tool) 8001
      (task_data_of (task "task_1" "A" "developer" 1 [])) (world polling_state)
    = (Answers 200
         (Some (JObj [("status", JStr "completed"); ("result", JStr "output")])), w1) /\
    poll_task (System.network sound_tool) 0 (task "task_1" "A" "developer" 1 []) 8001
      (with_world w1 polling_state)
    = Done
        (mkState
           (update_nth 0 (Task.set_result (JStr "output")) (tasks polling_state))
           (PyDict.set (task_status polling_state) "task_1"
              (Tracking.set_status completed (Tracking.mk in_progress "developer")))
           (agents polling_state) w1 (sent polling_state)).
Proof.
  apply (worker_result_reaches_poller sound_tool polling_state 0
           (task "task_1" "A" "developer" 1 []) 8001
           (WorkerEndpoints.start_agent_process "developer")
           (Tracking.mk in_progress "developer") "output" tt); reflexivity.
Defined.



(** The same with no task file at all. *)
Example no_tasks_file_reports_success :
  Composer.assign_and_monitor_tasks (System.network sound_tool) system_clock
    show_results 0 Absent (fresh_composer default_workers)
  = Returns "All tasks completed successfully" (fresh_composer default_workers).
Proof. reflexivity. Qed.

(** The whole run on the task list of the repository's parser test,
    with workers that succeed: every task is run by its worker, none is
    tracked as [completed], and the orchestrator is still waiting when
    the fuel is used up. *)
Example orchestrator_keeps_waiting :
  Composer.assign_and_monitor_tasks (System.network sound_tool) system_clock
    show_results 20 (Holds ParserTheorems.test_markdown) (fresh_composer default_workers)
  = Pending.
Proof. reflexivity. Qed.

End SystemTheorems.

(** ** The dispatcher with workers that complete every task at once *)

Module DispatchCompleteness.

Import TaskManager PyDictFacts ResolutionFacts DispatchFacts DispatchTheorems.
Import DispatchTrace DispatchProperties SchedulerTheorems SchedulerProperties.

(** The reply is a 200 response whose body has status ["completed"]. *)
Definition completed_reply (reply : Reply) : bool :=
  match reply with
  | Answers code (Some (JObj fields)) =>
      (code =? 200) && json_is_str (PyDict.get fields "status") "completed"
  | _ => false
  end.

(** Every entry is [completed] or [not_started]. *)
Definition fresh_or_done (ts : PyDict.t Tracking.t) : Prop :=
  forall id tr, PyDict.get ts id = Some tr ->
    Tracking.status tr = completed \/ Tracking.status tr = not_started.

(** Every entry is [not_started]. *)
Definition all_fresh (ts : PyDict.t Tracking.t) : Prop :=
  forall id tr, PyDict.get ts id = Some tr -> Tracking.status tr = not_started.

(** No entry is [not_started]. *)
Definition all_started (ts : PyDict.t Tracking.t) : Prop :=
  forall id tr, PyDict.get ts id = Some tr -> Tracking.status tr <> not_started.

Lemma title_unique (l : list Task.t) t t' :
  NoDup (map Task.title l) -> In t l -> In t' l ->
  Task.title t = Task.title t' -> t = t'.
Proof.
  intros Hnd Ht Ht' Heq.
  apply In_nth_error in Ht as [i Hi]. apply In_nth_error in Ht' as [j Hj].
  assert (i = j).
  { apply (proj1 (NoDup_nth_error (map Task.title l)) Hnd).
    - rewrite length_map. apply nth_error_Some. congruence.
    - rewrite !nth_error_map, Hi, Hj. simpl. congruence. }
  subst j. congruence.
Qed.

Lemma can_assign_task_erase l l' ts t t' :
  map erase l' = map erase l -> erase t' = erase t ->
  can_assign_task l' ts t' = can_assign_task l ts t.
Proof.
  intros He Ht. unfold can_assign_task.
  apply erase_fields in Ht as (_ & _ & _ & -> & _).
  induction (Task.dependencies t) as [|d deps IH]; simpl; [reflexivity|].
  pose proof (find_by_title_erase l l' d He) as Hf.
  destruct (find_by_title l' d) as [u'|], (find_by_title l d) as [u|];
    simpl in Hf; try discriminate; [|exact IH].
  assert (Hu : erase u' = erase u) by congruence.
  apply erase_fields in Hu as (-> & _). now rewrite IH.
Qed.

(** A schedule cannot be stuck half way: when every entry is
    [completed] or [not_started] and no scheduled task tracked as
    [not_started] is eligible, no scheduled task is tracked as
    [not_started]. Titles are distinct. *)
Lemma deadlock_free l ts P out :
  NoDup (map Task.title l) ->
  Forall2 (fun p r => exists t, last_with_title l p r t) P out ->
  (forall i t, nth_error P i = Some t -> forall s, depends l s t ->
     exists j, (j < i)%nat /\ nth_error P j = Some s) ->
  (forall r t, In r out -> nth_error l r = Some t -> In (Task.id t) (PyDict.keys ts)) ->
  fresh_or_done ts ->
  (forall r t tr, In r out -> nth_error l r = Some t ->
     PyDict.get ts (Task.id t) = Some tr -> Tracking.status tr = not_started ->
     can_assign_task l ts t = false) ->
  forall r t tr, In r out -> nth_error l r = Some t ->
    PyDict.get ts (Task.id t) = Some tr -> Tracking.status tr <> not_started.
Proof.
  intros Hnd HF Htopo Hkeys Hpre Hstuck.
  assert (Hpos : forall n i, (i < n)%nat -> forall r t tr,
            nth_error out i = Some r -> nth_error l r = Some t ->
            PyDict.get ts (Task.id t) = Some tr -> Tracking.status tr <> not_started).
  { induction n as [|n IH]; intros i Hi r t tr Hr Ht Hg Hns; [lia|].
    assert (Hcan : can_assign_task l ts t = true).
    { apply can_assign_task_first. intros dep k dt Hdep Hfirst.
      destruct (Forall2_nth_error_l _ _ _ HF i r Hr) as (p & Hp & t' & Hn' & Htitle & _).
      assert (t' = t) by congruence. subst t'.
      assert (Hd : depends l dep p).
      { exists t. split; [eapply nth_error_In; eauto|]. split; [assumption|].
        split; [assumption|]. destruct Hfirst as (Hk & Hkt & _).
        exists dt. split; [eapply nth_error_In; eauto|assumption]. }
      destruct (Htopo i p Hp dep Hd) as (j & Hj & Hpj).
      destruct (Forall2_nth_error_r _ _ _ HF j dep Hpj) as (r' & Hr' & u & Hu & Hut & _).
      assert (u = dt).
      { destruct Hfirst as (Hk & Hkt & _).
        apply (title_unique l); [assumption|eapply nth_error_In; eauto
                                |eapply nth_error_In; eauto|congruence]. }
      subst u.
      assert (Hin' : In r' out) by (eapply nth_error_In; eauto).
      destruct (keys_get ts (Task.id dt) (Hkeys r' dt Hin' Hu)) as [trd Hgd].
      unfold status_or_default. rewrite Hgd.
      destruct (Hpre _ _ Hgd) as [Hc|Hn0]; [exact Hc|].
      exfalso. apply (IH j) with (r := r') (t := dt) (tr := trd); auto. lia. }
    rewrite (Hstuck r t tr) in Hcan; auto; [discriminate|].
    eapply nth_error_In; eauto. }
  intros r t tr Hr Ht Hg. apply In_nth_error in Hr as [i Hi].
  apply (Hpos (S i) i) with (r := r) (t := t); auto.
Qed.

Section Ideal.

Context {W : Type} (net : Network W).

Implicit Types (st : State W).

(** Every submission is answered with a completion. *)
Hypothesis Hnet : forall port d w,
  completed_reply (fst (post_task net port d w)) = true.

(** The task list at the start of the pass, with distinct identifiers
    and titles, and its schedule. *)
Variables (l0 : list Task.t) (P : list string) (out : list nat).

Hypothesis Hids : NoDup (map Task.id l0).
Hypothesis Htitles : NoDup (map Task.title l0).
Hypothesis HF : Forall2 (fun p r => exists t, last_with_title l0 p r t) P out.
Hypothesis Htopo : forall i t, nth_error P i = Some t ->
  forall s, depends l0 s t -> exists j, (j < i)%nat /\ nth_error P j = Some s.

(** A state of a pass over [l0]: the tasks are those of [l0] but for
    their results, every agent is registered, and the tracked
    identifiers are those of the scheduled tasks. *)
Record Live st : Prop := {
  l_tasks : map erase (tasks st) = map erase l0;
  l_agents : forall t, In t l0 ->
    exists port, PyDict.get (agents st) (Task.agent t) = Some port;
  l_keys : forall id, In id (PyDict.keys (task_status st)) <->
    exists r t, In r out /\ nth_error l0 r = Some t /\ Task.id t = id
}.

Lemma Live_Pass st st' : Live st -> Pass st st' -> Live st'.
Proof.
  intros [LT LA LK] HP. constructor.
  - rewrite (p_tasks _ _ HP). exact LT.
  - intros t Ht. rewrite (p_agents _ _ HP). now apply LA.
  - intros id. rewrite (p_keys _ _ HP). apply LK.
Qed.

Lemma all_started_Pass st st' :
  Pass st st' -> all_started (task_status st) -> all_started (task_status st').
Proof.
  intros HP H id tr Hg.
  destruct (p_entries _ _ HP id tr Hg) as [Hsame|(tr0 & _ & _ & Hs)]; [eauto|].
  destruct Hs as [Hs|[Hs|Hs]]; rewrite Hs; discriminate.
Qed.

Lemma all_started_set ts id tr s :
  all_started ts -> s <> not_started ->
  all_started (PyDict.set ts id (Tracking.set_status s tr)).
Proof.
  intros H Hs k tr'. rewrite get_set. destruct (String.eqb id k).
  - intros [= <-]. exact Hs.
  - apply H.
Qed.

(** A live state in which nothing is eligible has nothing left to
    start. *)
Lemma stuck_is_done st :
  Live st -> fresh_or_done (task_status st) ->
  (forall r task, nth_error (tasks st) r = Some task -> waiting_ready st task = false) ->
  all_started (task_status st).
Proof.
  intros [LT LA LK] Hpre Hstuck id tr Hg.
  assert (Hin : In id (PyDict.keys (task_status st))) by (eapply get_Some_keys; eauto).
  apply LK in Hin as (r & t & Hr & Ht & <-).
  apply (deadlock_free l0 (task_status st) P out Htitles HF Htopo) with (r := r) (t := t);
    auto.
  - intros r' t' Hr' Ht'. apply LK. eauto.
  - intros r' t' tr' Hr' Ht' Hg' Hs'.
    destruct (erase_sym_nth _ _ _ _ LT Ht') as (ts' & Hts' & Het).
    pose proof (Hstuck r' ts' Hts') as Hw. unfold waiting_ready in Hw.
    pose proof (erase_fields _ _ Het) as (Hid & _). rewrite Hid, Hg', Hs' in Hw.
    cbn [Status_eqb andb] in Hw.
    rewrite <- (can_assign_task_erase l0 (tasks st) (task_status st) t' ts' LT Het).
    exact Hw.
Qed.

(** A submission from a live state: the request that is sent is
    answered with a completion. *)
Lemma ideal_reply st r task :
  Live st -> nth_error (tasks st) r = Some task ->
  exists port w fields,
    PyDict.get (agents st) (Task.agent task) = Some port /\
    post_task net port (task_data_of task) (world st)
      = (Answers 200 (Some (JObj fields)), w) /\
    json_is_str (PyDict.get fields "status") "completed" = true.
Proof.
  intros [LT LA LK] Hn.
  destruct (erase_nth_error _ _ _ _ LT Hn) as (t0 & Ht0 & Het).
  pose proof (erase_fields _ _ Het) as (_ & _ & Hagent & _).
  destruct (LA t0) as [port Hport]; [eapply nth_error_In; eauto|].
  rewrite Hagent in Hport.
  pose proof (Hnet port (task_data_of task) (world st)) as Hr.
  destruct (post_task net port (task_data_of task) (world st)) as [reply w] eqn:Epost.
  cbn [fst] in Hr. unfold completed_reply in Hr.
  destruct reply as [e|code [[| | | | |fields]|]]; cbn iota in Hr; try discriminate.
  apply andb_true_iff in Hr as [Hcode Hs]. apply Z.eqb_eq in Hcode. subst code.
  exists port, w, fields. auto.
Qed.

Lemma Pass_completed_state r task tr v (w : W) st :
  nth_error (tasks st) r = Some task ->
  PyDict.get (task_status st) (Task.id task) = Some tr ->
  Pass st (completed_state r task tr v w st).
Proof.
  intros Hn Hg.
  apply (send_end_status r st (completed_state r task tr v w st) task tr completed);
    auto.
  unfold completed_state. simpl. apply erase_update_nth.
Qed.

(** The loop of the cascade, for a [send] that starts everything. *)
Lemma ideal_waiting_loop send (fuel : nat) :
  (forall r st task,
     Live st -> fresh_or_done (task_status st) ->
     nth_error (tasks st) r = Some task ->
     tracked (task_status st) (Task.id task) not_started ->
     (waiting (task_status st) <= fuel)%nat ->
     exists st', send (Task.agent task) r st = Done st' /\ Pass st st' /\
                 all_started (task_status st')) ->
  forall refs st,
    Live st -> (forall r, In r refs -> (r < length (tasks st))%nat) ->
    (waiting (task_status st) <= fuel)%nat ->
    fresh_or_done (task_status st) \/ all_started (task_status st) ->
    exists st',
      waiting_loop send refs st = Done st' /\ Pass st st' /\
      (all_started (task_status st') \/
       (task_status st' = task_status st /\
        forall r task, In r refs -> nth_error (tasks st) r = Some task ->
          waiting_ready st task = false)).
Proof.
  intros Hsend. induction refs as [|r rest IH]; intros st HL Hvalid Hfuel Hpre;
    cbn [waiting_loop].
  - exists st. split; [reflexivity|]. split; [apply Pass_refl|]. right.
    split; [reflexivity|]. intros r task [].
  - assert (Hr : (r < length (tasks st))%nat) by (apply Hvalid; now left).
    destruct (nth_error (tasks st) r) as [task|] eqn:Etask;
      [|apply nth_error_None in Etask; lia].
    unfold deref. rewrite Etask. cbn [lift].
    destruct (waiting_ready st task) eqn:Eready.
    + pose proof Eready as Hready. unfold waiting_ready in Hready.
      apply andb_true_iff in Hready as [Hns _].
      destruct (PyDict.get (task_status st) (Task.id task)) as [tr|] eqn:Etr;
        [|discriminate].
      apply Status_eqb_eq in Hns.
      assert (Hfresh : fresh_or_done (task_status st)).
      { destruct Hpre as [H|H]; [exact H|]. now destruct (H _ _ Etr). }
      destruct (Hsend r st task HL Hfresh Etask) as (st1 & Hrun1 & HP1 & Hall1);
        [exists tr; auto|assumption|].
      rewrite Hrun1. cbn [and_then].
      assert (Hkey : exists tr1, PyDict.get (task_status st1) (Task.id task) = Some tr1).
      { apply keys_get. rewrite (p_keys _ _ HP1). eapply get_Some_keys; eauto. }
      destruct Hkey as [tr1 Etr1]. rewrite (set_status_Done _ _ _ _ Etr1). cbn [and_then].
      set (st2 := with_task_status _ st1).
      assert (HP2 : Pass st st2).
      { eapply Pass_trans; [exact HP1|]. apply Pass_set_status; auto. }
      assert (Hall2 : all_started (task_status st2)).
      { unfold st2. simpl. apply all_started_set; [assumption|discriminate]. }
      destruct (IH st2) as (st' & Hrun & HP & Hend).
      * now apply (Live_Pass st).
      * intros r0 H0. rewrite (erase_length _ _ (p_tasks _ _ HP2)). apply Hvalid. now right.
      * pose proof (p_waiting _ _ HP2). lia.
      * now right.
      * exists st'. split; [exact Hrun|]. split; [eapply Pass_trans; eauto|]. left.
        destruct Hend as [H|[H _]]; [exact H|]. now rewrite H.
    + destruct (IH st HL) as (st' & Hrun & HP & Hend).
      * intros r0 H0. apply Hvalid. now right.
      * assumption.
      * assumption.
      * exists st'. split; [exact Hrun|]. split; [exact HP|].
        destruct Hend as [H|[H Hno]]; [now left|]. right. split; [exact H|].
        intros r0 task0 [<-|H0] Hn0; [|eauto].
        assert (task0 = task) by congruence. now subst.
Qed.

(** A submission from a live state in which every entry is [completed]
    or [not_started]: when it returns, nothing is [not_started]. *)
Lemma ideal_send fuel : forall r st task,
  Live st -> fresh_or_done (task_status st) ->
  nth_error (tasks st) r = Some task ->
  tracked (task_status st) (Task.id task) not_started ->
  (waiting (task_status st) <= fuel)%nat ->
  exists st',
    send_task_to_agent net fuel (Task.agent task) r st = Done st' /\ Pass st st' /\
    all_started (task_status st').
Proof.
  induction fuel as [|fuel IH]; intros r st task HL Hpre Hn (tr & Htr & Hs) Hfuel.
  { exfalso. assert (0 < waiting (task_status st))%nat; [|lia].
    eapply waiting_pos; eauto. unfold is_not_started. now rewrite Hs. }
  destruct (ideal_reply st r task HL Hn) as (port & w & fields & Hport & Hpost & Hdone).
  rewrite (send_completed_eq net fuel (Task.agent task) r st task port w fields tr
             Hn Hport Hpost Hdone Htr).
  set (st_c := completed_state r task tr (result_of fields) w st).
  assert (HPc : Pass st st_c) by now apply Pass_completed_state.
  assert (Hprec : fresh_or_done (task_status st_c)).
  { intros id tr'. unfold st_c. simpl. rewrite get_set.
    destruct (String.eqb (Task.id task) id).
    - intros [= <-]. now left.
    - apply Hpre. }
  destruct (ideal_waiting_loop (send_task_to_agent net fuel) fuel IH
              (seq 0 (length (tasks st_c))) st_c) as (st5 & Hrun & HP5 & Hend).
  - now apply (Live_Pass st).
  - intros r0 H0. apply in_seq in H0. lia.
  - apply waiting_completed_state; [assumption|]. right. split; [assumption|].
    exists tr. auto.
  - now left.
  - unfold check_and_assign_waiting_tasks. rewrite Hrun. cbn [catch].
    exists st5. split; [reflexivity|]. split; [eapply Pass_trans; eauto|].
    destruct Hend as [H|[H Hno]]; [exact H|]. rewrite H.
    apply stuck_is_done; [now apply (Live_Pass st)|assumption|].
    intros r0 task0 Hn0. apply (Hno r0); [|assumption].
    apply in_seq. split; [lia|]. cbn [Nat.add]. apply nth_error_Some.
    rewrite Hn0. discriminate.
Qed.

(** The second loop of [assign_tasks] over tasks of the schedule. *)
Lemma ideal_assign_loop fuel refs : forall st,
  Live st -> (forall r, In r refs -> (r < length (tasks st))%nat) ->
  incl refs out ->
  (waiting (task_status st) < fuel)%nat ->
  all_fresh (task_status st) \/ all_started (task_status st) ->
  exists st',
    assign_loop (send_task_to_agent net fuel) refs st = Done st' /\ Pass st st' /\
    (all_started (task_status st') \/
     (task_status st' = task_status st /\
      forall r task, In r refs -> nth_error (tasks st) r = Some task ->
        can_assign_task (tasks st) (task_status st) task = false)).
Proof.
  induction refs as [|r rest IH]; intros st HL Hvalid Hincl Hfuel Hpre;
    cbn [assign_loop].
  - exists st. split; [reflexivity|]. split; [apply Pass_refl|]. right.
    split; [reflexivity|]. intros r task [].
  - assert (Hr : (r < length (tasks st))%nat) by (apply Hvalid; now left).
    destruct (nth_error (tasks st) r) as [task|] eqn:Etask;
      [|apply nth_error_None in Etask; lia].
    unfold deref. rewrite Etask. cbn [lift].
    assert (Hkey : exists tr, PyDict.get (task_status st) (Task.id task) = Some tr).
    { apply keys_get. apply (l_keys _ HL).
      destruct (erase_nth_error _ _ _ _ (l_tasks _ HL) Etask) as (t0 & Ht0 & Het).
      apply erase_fields in Het as (Hid & _).
      exists r, t0. split; [apply Hincl; now left|]. split; [assumption|congruence]. }
    destruct Hkey as [tr Etr].
    destruct (can_assign_task (tasks st) (task_status st) task) eqn:Ecan.
    + assert (Hsent : exists st1, send_task_to_agent net fuel (Task.agent task) r st
                                  = Done st1 /\ Pass st st1 /\
                                  all_started (task_status st1)).
      { destruct Hpre as [Hfresh|Hstarted].
        - apply ideal_send; auto.
          + intros id tr' Hg. right. eauto.
          + exists tr. split; [assumption|]. eauto.
          + lia.
        - destruct (send_task_to_agent_spec net fuel (Task.agent task) r st task Etask)
            as (st1 & new & Hrun1 & HP1 & _); [now left|].
          exists st1. split; [exact Hrun1|]. split; [exact HP1|].
          now apply (all_started_Pass st). }
      destruct Hsent as (st1 & Hrun1 & HP1 & Hall1). rewrite Hrun1. cbn [and_then].
      assert (Hkey1 : exists tr1, PyDict.get (task_status st1) (Task.id task) = Some tr1).
      { apply keys_get. rewrite (p_keys _ _ HP1). eapply get_Some_keys; eauto. }
      destruct Hkey1 as [tr1 Etr1]. rewrite (set_status_Done _ _ _ _ Etr1).
      cbn [and_then]. set (st2 := with_task_status _ st1).
      assert (HP2 : Pass st st2).
      { eapply Pass_trans; [exact HP1|]. apply Pass_set_status; auto. }
      assert (Hall2 : all_started (task_status st2)).
      { unfold st2. simpl. apply all_started_set; [assumption|discriminate]. }
      destruct (IH st2) as (st' & Hrun & HP & Hend).
      * now apply (Live_Pass st).
      * intros r0 H0. rewrite (erase_length _ _ (p_tasks _ _ HP2)). apply Hvalid. now right.
      * intros r0 H0. apply Hincl. now right.
      * pose proof (p_waiting _ _ HP2). lia.
      * now right.
      * exists st'. split; [exact Hrun|]. split; [eapply Pass_trans; eauto|]. left.
        destruct Hend as [H|[H _]]; [exact H|]. now rewrite H.
    + destruct (IH st HL) as (st' & Hrun & HP & Hend).
      * intros r0 H0. apply Hvalid. now right.
      * intros r0 H0. apply Hincl. now right.
      * assumption.
      * assumption.
      * exists st'. split; [exact Hrun|]. split; [exact HP|].
        destruct Hend as [H|[H Hno]]; [now left|]. right. split; [exact H|].
        intros r0 task0 [<-|H0] Hn0; [|eauto].
        assert (task0 = task) by congruence. now subst.
Qed.

(** When the loop over the whole schedule has returned from a live
    state in which every entry was [not_started], no entry is. *)
Lemma ideal_schedule fuel st :
  Live st -> tasks st = l0 ->
  (waiting (task_status st) < fuel)%nat ->
  all_fresh (task_status st) ->
  exists st',
    assign_loop (send_task_to_agent net fuel) out st = Done st' /\ Pass st st' /\
    all_started (task_status st').
Proof.
  intros HL HT Hfuel Hfresh.
  destruct (ideal_assign_loop fuel out st HL) as (st' & Hrun & HP & Hend).
  - intros r Hr. apply In_nth_error in Hr as [i Hi].
    destruct (Forall2_nth_error_l _ _ _ HF i r Hi) as (p & _ & t & Ht & _).
    rewrite HT. apply nth_error_Some. congruence.
  - apply incl_refl.
  - assumption.
  - now left.
  - exists st'. split; [exact Hrun|]. split; [exact HP|].
    destruct Hend as [H|[H Hno]]; [exact H|]. rewrite H.
    apply stuck_is_done; [assumption|intros id tr Hg; right; eauto|].
    intros r task Hn. unfold waiting_ready.
    destruct (PyDict.get (task_status st) (Task.id task)) as [tr|] eqn:Etr;
      [|reflexivity].
    rewrite (Hfresh _ _ Etr). cbn [Status_eqb andb]. apply (Hno r); [|assumption].
    apply get_Some_keys in Etr. apply (l_keys _ HL) in Etr as (r' & t' & Hr' & Ht' & Hid).
    rewrite HT in Hn. assert (r' = r); [|now subst].
    exact (NoDup_ids_inj _ _ _ _ _ Hids Ht' Hn Hid).
Qed.

End Ideal.

Section Completeness.

Context {W : Type} (net : Network W).

(** X25. With workers that answer every submission with HTTP 200 and
    status ["completed"], [assign_tasks] on a fresh manager whose tasks
    have distinct identifiers and distinct titles, each for a
    registered agent, calls [send_task_to_agent] on every task of the
    schedule: the completion of a task lets the cascade of
    [check_and_assign_waiting_tasks] start the tasks that waited for
    it. When the pass returns every tracking entry is [assigned]: none
    is left [not_started], and none shows the completion. *)
Theorem ideal_workers_get_every_task (st : State W) :
  task_status st = [] -> sent st = [] ->
  NoDup (map Task.id (tasks st)) ->
  NoDup (map Task.title (tasks st)) ->
  (forall t, In t (tasks st) -> PyDict.get (agents st) (Task.agent t) <> None) ->
  (forall port d w, completed_reply (fst (post_task net port d w)) = true) ->
  exists sorted st',
    sort_tasks_by_dependencies (tasks st) = Ok sorted /\
    assign_tasks net st = Done st' /\
    (forall r, In r sorted -> In r (sent st')) /\
    (forall id tr, PyDict.get (task_status st') id = Some tr ->
       Tracking.status tr = assigned).
Proof.
  intros Hfresh Hlog Hids Htitles Hagents Hnet.
  destruct (schedule_titles (tasks st)) as (P & out & Hsort & HF & _ & Htopo & _).
  destruct (fresh_stages net st Hfresh)
    as (sorted & st1 & st' & Hsort' & HT1 & HA1 & HS1 & Hkeys1 & Hnew & Hnd1 & Hrun & HP
        & HS & Hassign).
  assert (sorted = out) by congruence. subst sorted.
  destruct (fresh_pass net st Hfresh Hlog)
    as (sorted & st2 & Hsort2 & Hassign2 & _ & HT & _ & _).
  assert (st2 = st') by congruence. subst st2. clear sorted Hsort2 Hassign2.
  assert (HL : Live (tasks st) out st1).
  { constructor.
    - now rewrite HT1.
    - intros t Ht. rewrite HA1. pose proof (Hagents t Ht) as Hne.
      destruct (PyDict.get (agents st) (Task.agent t)) as [port|]; [eauto|].
      now contradiction Hne.
    - intros id. split.
      + intros Hin. apply keys_get in Hin as [tr Hg].
        destruct (Hnew id tr Hg) as (r & t & Hr & Ht & Hid & _). eauto.
      + intros (r & t & Hr & Ht & <-). now apply (Hkeys1 r). }
  assert (Hfresh1 : all_fresh (task_status st1)).
  { intros id tr Hg. destruct (Hnew id tr Hg) as (_ & t & _ & _ & _ & ->). reflexivity. }
  assert (Hfuel : (waiting (task_status st1)
                   < S (length (task_status st) + length (tasks st)))%nat).
  { pose proof (waiting_le_length (task_status st1)) as Hw.
    assert (Hlen : (length (PyDict.keys (task_status st1))
                    <= length (map Task.id (tasks st)))%nat).
    { apply NoDup_incl_length; [exact Hnd1|]. intros id Hin.
      apply keys_get in Hin as [tr Hg].
      destruct (Hnew id tr Hg) as (r & t & _ & Ht & <- & _).
      apply in_map. eapply nth_error_In; eauto. }
    rewrite length_keys, length_map in Hlen. lia. }
  destruct (ideal_schedule net Hnet (tasks st) P out Hids Htitles HF Htopo
              _ st1 HL HT1 Hfuel Hfresh1) as (st3 & Hrun3 & _ & Hall).
  assert (st3 = st') by congruence. subst st3.
  exists out, st'. split; [exact Hsort|]. split; [exact Hassign|]. split.
  - intros r Hr.
    assert (Hlt : exists t, nth_error (tasks st) r = Some t).
    { apply In_nth_error in Hr as [i Hi].
      destruct (Forall2_nth_error_l _ _ _ HF i r Hi) as (p & _ & t & Ht & _). eauto. }
    destruct Hlt as [t Ht].
    destruct (keys_get _ _ (Hkeys1 r t Hr Ht)) as [tr1 Hg1].
    assert (Hin : In (Task.id t) (PyDict.keys (task_status st'))).
    { rewrite (p_keys _ _ HP). eapply get_Some_keys; eauto. }
    apply keys_get in Hin as [tr Hg].
    destruct (t_started _ _ HT _ _ Hg (Hall _ _ Hg)) as (r' & t' & Hr' & Ht' & Hid).
    assert (He : map erase (tasks st') = map erase (tasks st)).
    { rewrite (p_tasks _ _ HP). now rewrite HT1. }
    destruct (erase_nth_error _ _ _ _ He Ht') as (t0 & Ht0 & Het).
    apply erase_fields in Het as (Hid0 & _).
    assert (r' = r); [|now subst].
    apply (NoDup_ids_inj (tasks st) r' r t0 t Hids Ht0 Ht). congruence.
  - intros id tr Hg. destruct (HS id tr Hg) as [[]|[H|H]]; [|exact H].
    now destruct (Hall _ _ Hg).
Qed.

End Completeness.

(** A chain of three tasks, listed against the order of their
    dependencies. *)
Definition chain_of_three : list Task.t :=
  [ task "task_1" "C" "qa" 1 ["B"];
    task "task_2" "B" "developer" 2 ["A"];
    task "task_3" "A" "developer" 3 [] ].

Lemma ideal_workers_get_every_task_witness :
  exists sorted st',
    sort_tasks_by_dependencies (tasks (fresh chain_of_three registry)) = Ok sorted /\
    assign_tasks (replies (completes "ok")) (fresh chain_of_three registry) = Done st' /\
    (forall r, In r sorted -> In r (sent st')) /\
    (forall id tr, PyDict.get (task_status st') id = Some tr ->
       Tracking.status tr = assigned).
Proof.
  apply (ideal_workers_get_every_task (replies (completes "ok"))
           (fresh chain_of_three registry)).
  - reflexivity.
  - reflexivity.
  - simpl. repeat constructor; simpl; intuition discriminate.
  - simpl. repeat constructor; simpl; intuition discriminate.
  - simpl. intros t [<-|[<-|[<-|[]]]]; discriminate.
  - intros port d w. reflexivity.
Defined.

(** The pass on [chain_of_three]: the schedule is [A], [B], [C]; [A] is
    submitted, its completion submits [B], whose completion submits
    [C]. *)
Example assign_tasks_chain_of_three :
  match assign_tasks (replies (completes "ok")) (fresh chain_of_three registry) with
  | Done st' =>
      (sort_tasks_by_dependencies chain_of_three, sent st',
       map (fun kv => Tracking.status (snd kv)) (task_status st'))
      = (Ok [2; 1; 0]%nat, [2; 1; 0]%nat, [assigned; assigned; assigned])
  | _ => False
  end.
Proof. vm_compute. reflexivity. Qed.

End DispatchCompleteness.

(** ** Tasks that share a title *)

Module TitleResolution.

Import TaskManager PyDictFacts ResolutionFacts DispatchFacts DispatchTheorems.
Import DispatchTrace DispatchProperties SchedulerTheorems SchedulerProperties.

(** Where a later task carries the title of the first task titled
    [dep], the [task_map] of the scheduler holds a later task for
    [dep], not the first. *)
Lemma task_map_of_later tasks dep i f j u :
  first_with_title tasks dep i f ->
  (i < j)%nat -> nth_error tasks j = Some u -> Task.title u = dep ->
  exists k t,
    PyDict.get (task_map_of tasks) dep = Some k /\
    last_with_title tasks dep k t /\ (i < k)%nat.
Proof.
  intros _ Hij Hj Hu.
  assert (Hmem : In dep (PyDict.keys (task_map_of tasks))).
  { apply mem_keys, task_map_of_mem. exists u.
    split; [eapply nth_error_In; eauto|assumption]. }
  apply keys_get in Hmem as [k Hk]. pose proof Hk as Hlast.
  apply task_map_of_last in Hlast as (t & Hlast).
  exists k, t. split; [assumption|]. split; [assumption|].
  destruct Hlast as (_ & _ & Hl).
  destruct (Nat.lt_ge_cases k j) as [H|H]; [|lia].
  exfalso. now apply (Hl j u H Hj).
Qed.

Section WithNetwork.

Context {W : Type} (net : Network W).

(** A pass on a fresh manager whose identifiers are distinct, where
    the first task titled [dep] is not the last one: the first is left
    out of the schedule and never tracked, and a task that depends on
    [dep] is never eligible and never submitted. *)
Lemma first_duplicate_blocks (st : State W) r t dep i f j u :
  task_status st = [] -> sent st = [] ->
  NoDup (map Task.id (tasks st)) ->
  nth_error (tasks st) r = Some t -> In dep (Task.dependencies t) ->
  first_with_title (tasks st) dep i f ->
  (i < j)%nat -> nth_error (tasks st) j = Some u -> Task.title u = dep ->
  exists sorted st',
    sort_tasks_by_dependencies (tasks st) = Ok sorted /\
    assign_tasks net st = Done st' /\
    ~ In i sorted /\
    PyDict.get (task_status st') (Task.id f) = None /\
    (forall t', nth_error (tasks st') r = Some t' ->
       can_assign_task (tasks st') (task_status st') t' = false) /\
    ~ In r (sent st').
Proof.
  intros Hfresh Hlog Hids Hr Hdep Hfirst Hij Hj Hu.
  destruct (schedule_titles (tasks st)) as (P & out & Hsort & HF & _).
  destruct (fresh_tracking net st Hfresh)
    as (sorted & st' & Hsort' & Hassign & He & _ & _ & Hkeys & _ & _).
  assert (sorted = out) by congruence. subst sorted.
  destruct (fresh_pass net st Hfresh Hlog)
    as (sorted & st2 & _ & Hassign2 & _ & HT & _ & _).
  assert (st2 = st') by congruence. subst st2. clear sorted Hassign2.
  pose proof Hfirst as (Hi & Hf & _).
  assert (Hout : ~ In i out).
  { intros Hin. apply In_nth_error in Hin as [n Hn].
    destruct (Forall2_nth_error_l _ _ _ HF n i Hn) as (p & _ & t0 & Ht0 & Htitle & Hlast).
    assert (t0 = f) by congruence. subst t0.
    apply (Hlast j u Hij Hj). congruence. }
  assert (Hnone : PyDict.get (task_status st') (Task.id f) = None).
  { destruct (PyDict.get (task_status st') (Task.id f)) as [tr|] eqn:Eg; [|reflexivity].
    exfalso. apply get_Some_keys in Eg. apply Hkeys in Eg as (r0 & t0 & Hr0 & Ht0 & Hid).
    assert (r0 = i) by exact (NoDup_ids_inj _ _ _ _ _ Hids Ht0 Hi Hid).
    subst r0. contradiction. }
  assert (Hfind : forall f', find_by_title (tasks st') dep = Some f' ->
                             Task.id f' = Task.id f).
  { intros f' Hf'. pose proof (find_by_title_erase (tasks st) (tasks st') dep He) as Hfe.
    assert (Hff : find_by_title (tasks st) dep = Some f)
      by (apply find_by_title_first; eauto).
    rewrite Hf', Hff in Hfe. cbn [option_map] in Hfe.
    assert (Hee : erase f' = erase f) by congruence.
    now apply erase_fields in Hee as (Hid & _). }
  assert (Hsome : exists f', find_by_title (tasks st') dep = Some f').
  { pose proof (find_by_title_erase (tasks st) (tasks st') dep He) as Hfe.
    assert (Hff : find_by_title (tasks st) dep = Some f)
      by (apply find_by_title_first; eauto).
    rewrite Hff in Hfe. destruct (find_by_title (tasks st') dep) as [f'|]; [eauto|].
    discriminate. }
  destruct Hsome as [f' Hf'].
  exists out, st'. split; [exact Hsort|]. split; [exact Hassign|].
  split; [exact Hout|]. split; [exact Hnone|]. split.
  - intros t' Ht'.
    destruct (erase_nth_error _ _ _ _ He Ht') as (t0 & Ht0 & Het).
    assert (t0 = t) by congruence. subst t0.
    apply erase_fields in Het as (_ & _ & _ & Hdeps & _).
    destruct (can_assign_task (tasks st') (task_status st') t') eqn:Ecan; [|reflexivity].
    exfalso. apply find_by_title_first in Hf' as [i' Hfirst'].
    rewrite can_assign_task_first in Ecan.
    assert (Hin : In dep (Task.dependencies t')) by (rewrite <- Hdeps; exact Hdep).
    pose proof (Ecan dep i' f' Hin Hfirst') as Hc.
    unfold status_or_default in Hc.
    rewrite (Hfind f') in Hc by (apply find_by_title_first; eauto).
    rewrite Hnone in Hc. discriminate.
  - intros Hin. apply in_split in Hin as (l1 & l2 & Hsent).
    destruct (erase_sym_nth _ _ _ _ He Hr) as (t' & Ht' & Het).
    apply erase_fields in Het as (_ & _ & _ & Hdeps & _).
    assert (Hin : In dep (Task.dependencies t')) by (rewrite Hdeps; exact Hdep).
    destruct (t_respects _ _ HT l1 r l2 t' dep f' Hsent Ht' Hin Hf')
      as (r' & t'' & Hr' & Ht'' & Hid).
    assert (Hlogged : In r' (sent st')) by (rewrite Hsent; apply in_or_app; now left).
    destruct (t_marked _ _ HT r' t'' Hlogged Ht'') as [[]|(tr & Hg & _)].
    rewrite Hid, (Hfind f' Hf'), Hnone in Hg. discriminate.
Qed.

End WithNetwork.

(** C6, on the code. [can_assign_task] resolves a dependency title to
    the first task carrying it, but the [task_map] of
    [sort_tasks_by_dependencies] resolves a title to the last task
    carrying it, and every task of the schedule is the last one with
    its title. On [dup_titles], two tasks titled [x] and a task [y]
    that depends on [x], the map holds the second [x], the schedule is
    the second [x] and then [y], and the first [x] is never tracked; so
    [y], which waits for the first [x], is never submitted, although
    the worker completes the second [x] at once. In general, on a fresh
    manager with distinct identifiers, a task that depends on a title
    whose first task is not its last is never eligible and never
    submitted, whatever the workers answer. *)
Theorem duplicate_title_blocks_dependent :
  (PyDict.get (task_map_of dup_titles) "x" = Some 1%nat /\
   find_by_title dup_titles "x" = nth_error dup_titles 0 /\
   sort_tasks_by_dependencies dup_titles = Ok [1; 2]%nat /\
   match assign_tasks (replies (completes "ok")) (fresh dup_titles registry) with
   | Done st' =>
       sent st' = [1%nat] /\
       task_status st' = [ ("task_2", Tracking.mk assigned "developer");
                           ("task_3", Tracking.mk not_started "developer") ] /\
       can_assign_task (tasks st') (task_status st')
         (task "task_3" "y" "developer" 3 ["x"]) = false
   | _ => False
   end) /\
  (forall tasks dep t,
     find_by_title tasks dep = Some t <-> exists i, first_with_title tasks dep i t) /\
  (forall tasks dep r,
     PyDict.get (task_map_of tasks) dep = Some r <->
     exists t, last_with_title tasks dep r t) /\
  (forall tasks, exists out,
     sort_tasks_by_dependencies tasks = Ok out /\
     Forall (fun r => exists t, last_with_title tasks (Task.title t) r t) out) /\
  (forall tasks dep i f j u,
     first_with_title tasks dep i f ->
     (i < j)%nat -> nth_error tasks j = Some u -> Task.title u = dep ->
     exists k t,
       PyDict.get (task_map_of tasks) dep = Some k /\
       last_with_title tasks dep k t /\ (i < k)%nat) /\
  (forall (W : Type) (net : Network W) (st : State W) r t dep i f j u,
     task_status st = [] -> sent st = [] ->
     NoDup (map Task.id (tasks st)) ->
     nth_error (tasks st) r = Some t -> In dep (Task.dependencies t) ->
     first_with_title (tasks st) dep i f ->
     (i < j)%nat -> nth_error (tasks st) j = Some u -> Task.title u = dep ->
     exists sorted st',
       sort_tasks_by_dependencies (tasks st) = Ok sorted /\
       assign_tasks net st = Done st' /\
       ~ In i sorted /\
       PyDict.get (task_status st') (Task.id f) = None /\
       (forall t', nth_error (tasks st') r = Some t' ->
          can_assign_task (tasks st') (task_status st') t' = false) /\
       ~ In r (sent st')).
Proof.
  split; [|split; [|split; [|split; [|split]]]].
  - split; [reflexivity|]. split; [reflexivity|]. split; [reflexivity|].
    vm_compute. repeat split.
  - intros. apply find_by_title_first.
  - intros. apply task_map_of_last.
  - intros tasks.
    destruct (sort_tasks_by_dependencies_run tasks) as (P & out & ind & K & Hrun & HF & _).
    exists out. split; [exact Hrun|]. apply Forall_forall. intros r Hr.
    apply In_nth_error in Hr as [j Hj].
    destruct (Forall2_nth_error_l _ _ _ HF j r Hj) as (p & _ & Hp).
    apply task_map_of_last in Hp as (t & Hlast). exists t.
    destruct Hlast as (Hn & Ht & Hl). subst p. repeat split; auto.
  - apply task_map_of_later.
  - intros W net. apply first_duplicate_blocks.
Qed.

End TitleResolution.
